(** * ggshield user configuration: versioning, migration and merge

    A shallow embedding of [ggshield/core/config/utils.py] and
    [ggshield/core/config/user_config.py], with the properties of the
    configuration layer stated and proved over it.

    Python values are trees ([value]); a [dict] is an association list in
    insertion order, as CPython keeps it; a Python exception is the [Raise]
    branch of [result]. *)

From Stdlib Require Import ZArith Ascii String DecimalString List Bool Lia.
From stdpp Require Import base tactics option list strings gmap.
Import ListNotations.

Local Open Scope string_scope.
Local Open Scope Z_scope.
Local Open Scope list_scope.

(** ** Python values *)

Module Py.

(** The values a YAML document or a schema dump is made of. Mapping keys are
    strings and sets hold strings, as every schema of the configuration
    declares them; floats and YAML date scalars are left out. A string is a
    text whose characters have code points below 256, one for each value of
    [ascii]; among these the decimal digits (what [\d] matches and [int]
    reads) are [0] to [9] only. Values are trees: one mapping object
    reachable under two keys (a YAML alias) is not represented. *)
#[warnings="-register-all"]
Inductive value : Type :=
| VNull
| VBool (b : bool)
| VInt (n : Z)
| VStr (s : string)
| VList (l : list value)
| VSet (s : gset string)
| VDict (d : list (string * value)).

Abbreviation dict := (list (string * value)).

(** The pieces of an f-string: literal text and interpolated values, each
    standing for the text [str] makes of it. *)
Inductive piece : Type :=
| Lit (s : string)
| Fmt (v : value).

Inductive exn : Type :=
| KeyError (key : string)
| IndexError
| TypeError
| AttributeError
| ValueError (msg : string)
| RuntimeError
| ValidationError (msg : string)
| ParseError (msg : string)
| UnexpectedError (msg : list piece)
| OverflowError
| OSError (msg : string)
| YAMLError (msg : string).

Definition is_key_error (e : exn) : Prop := exists key, e = KeyError key.

Inductive result (A : Type) : Type :=
| Ok (a : A)
| Raise (e : exn).
Arguments Ok {A} a.
Arguments Raise {A} e.

Definition bind {A B} (r : result A) (k : A -> result B) : result B :=
  match r with
  | Ok a => k a
  | Raise e => Raise e
  end.

Notation "'let*' x ':=' r 'in' k" := (bind r (fun x => k))
  (at level 10, x name, r at level 100, k at level 200).

Definition is_ok {A} (r : result A) : bool :=
  match r with Ok _ => true | Raise _ => false end.

(** Induction over values that reaches the elements of lists and the values
    of mappings. *)
Section value_induction.
Variable P : value -> Prop.
Hypothesis Hnull : P VNull.
Hypothesis Hbool : forall b, P (VBool b).
Hypothesis Hint : forall n, P (VInt n).
Hypothesis Hstr : forall s, P (VStr s).
Hypothesis Hlist : forall l, Forall P l -> P (VList l).
Hypothesis Hset : forall s, P (VSet s).
Hypothesis Hdict : forall d, Forall (fun kv => P (snd kv)) d -> P (VDict d).

Fixpoint value_nested_ind (v : value) : P v :=
  match v with
  | VNull => Hnull
  | VBool b => Hbool b
  | VInt n => Hint n
  | VStr s => Hstr s
  | VList l =>
      Hlist l ((fix elems (l : list value) : Forall P l :=
                  match l with
                  | [] => Forall_nil_2 P
                  | x :: r => Forall_cons_2 P x r (value_nested_ind x) (elems r)
                  end) l)
  | VSet s => Hset s
  | VDict d =>
      Hdict d ((fix items (d : dict) : Forall (fun kv => P (snd kv)) d :=
                  match d with
                  | [] => Forall_nil_2 _
                  | kv :: r =>
                      Forall_cons_2 (fun kv => P (snd kv)) kv r
                        (value_nested_ind (snd kv)) (items r)
                  end) d)
  end.
End value_induction.

(** *** Dictionaries *)

Definition keys (d : dict) : list string := fst <$> d.

(** [d.get(key)] *)
Fixpoint dict_get (key : string) (d : dict) : option value :=
  match d with
  | [] => None
  | (k, v) :: r => if String.eqb k key then Some v else dict_get key r
  end.

(** [key in d] *)
Definition dict_mem (key : string) (d : dict) : bool :=
  match dict_get key d with Some _ => true | None => false end.

(** [d[key] = v]: an existing key keeps its place, a new key goes last. *)
Fixpoint dict_set (key : string) (v : value) (d : dict) : dict :=
  match d with
  | [] => [(key, v)]
  | (k, w) :: r =>
      if String.eqb k key then (k, v) :: r else (k, w) :: dict_set key v r
  end.

(** [del d[key]], doing nothing for a missing key. *)
Fixpoint dict_remove (key : string) (d : dict) : dict :=
  match d with
  | [] => []
  | (k, w) :: r => if String.eqb k key then r else (k, w) :: dict_remove key r
  end.

(** [d.pop(key)]: the value and the remaining mapping; [None] stands for the
    [KeyError] of a missing key. *)
Definition dict_pop (key : string) (d : dict) : option (value * dict) :=
  match dict_get key d with
  | Some v => Some (v, dict_remove key d)
  | None => None
  end.

(** [reference[key]] on any value: only a mapping can be subscripted by a
    string. *)
Definition subscript (v : value) (key : string) : result value :=
  match v with
  | VDict d =>
      match dict_get key d with
      | Some x => Ok x
      | None => Raise (KeyError key)
      end
  | _ => Raise TypeError
  end.

(** A well-formed value: the keys of every mapping are pairwise distinct,
    which every Python [dict] satisfies. *)
Fixpoint wf (v : value) : bool :=
  match v with
  | VList l => forallb wf l
  | VDict d =>
      bool_decide (NoDup (keys d)) && forallb (fun kv => wf (snd kv)) d
  | _ => true
  end.

(** [sub in s] for two strings. *)
Fixpoint is_substring (sub s : string) : bool :=
  String.prefix sub s ||
  match s with
  | EmptyString => false
  | String _ r => is_substring sub r
  end.

(** The characters of a string, as iterating over it yields them. *)
Fixpoint characters (s : string) : list string :=
  match s with
  | EmptyString => []
  | String c r => String c EmptyString :: characters r
  end.

(** Truth value of a Python object ([bool(v)]). *)
Definition truthy (v : value) : bool :=
  match v with
  | VNull => false
  | VBool b => b
  | VInt n => negb (n =? 0)
  | VStr s => negb (String.eqb s "")
  | VList l => match l with [] => false | _ => true end
  | VSet s => negb (bool_decide (s = ∅))
  | VDict d => match d with [] => false | _ => true end
  end.

(** Python's [==] on values: [bool] is an [int], sequences compare element by
    element, mappings compare as finite maps whatever their order. *)
Fixpoint py_eq (a b : value) {struct a} : bool :=
  match a, b with
  | VNull, VNull => true
  | VBool x, VBool y => Bool.eqb x y
  | VBool x, VInt y => Z.b2z x =? y
  | VInt x, VBool y => x =? Z.b2z y
  | VInt x, VInt y => x =? y
  | VStr x, VStr y => String.eqb x y
  | VList x, VList y =>
      (fix elems (x y : list value) : bool :=
         match x, y with
         | [], [] => true
         | a :: x', b :: y' => py_eq a b && elems x' y'
         | _, _ => false
         end) x y
  | VSet x, VSet y => bool_decide (x = y)
  | VDict x, VDict y =>
      (length x =? length y)%nat &&
      (fix items (x : dict) : bool :=
         match x with
         | [] => true
         | (k, v) :: x' =>
             match dict_get k y with
             | Some w => py_eq v w
             | None => false
             end && items x'
         end) x
  | _, _ => false
  end.

(** [key in v]: among the keys of a mapping, the elements of a list or a
    set, the substrings of a string; other values cannot be searched. *)
Definition py_in (key : string) (v : value) : result bool :=
  match v with
  | VDict d => Ok (dict_mem key d)
  | VList l => Ok (existsb (py_eq (VStr key)) l)
  | VSet s => Ok (bool_decide (key ∈ s))
  | VStr s => Ok (is_substring key s)
  | _ => Raise TypeError
  end.

(** The values a [for] loop over [v] visits; a mapping yields its keys, a
    set its elements in the order of [elements]. *)
Definition iterate (v : value) : result (list value) :=
  match v with
  | VList l => Ok l
  | VStr s => Ok (VStr <$> characters s)
  | VDict d => Ok (VStr <$> keys d)
  | VSet s => Ok (VStr <$> elements s)
  | _ => Raise TypeError
  end.

(** [[f(x) for x in l]] with an [f] that may raise. *)
Fixpoint map_result {A B} (f : A -> result B) (l : list A) : result (list B) :=
  match l with
  | [] => Ok []
  | x :: r =>
      let* y := f x in
      let* ys := map_result f r in
      Ok (y :: ys)
  end.

End Py.
Import Py.

(** ** [ggshield/core/config/utils.py] *)

Module Utils.

(** [old_char in key]; the two call sites pass the one-character strings
    ["_"] and ["-"], so the parameter is a character. *)
Fixpoint contains (c : ascii) (s : string) : bool :=
  match s with
  | EmptyString => false
  | String a r => Ascii.eqb a c || contains c r
  end.

(** [key.replace(old_char, new_char)] *)
Fixpoint replace (old new : ascii) (s : string) : string :=
  match s with
  | EmptyString => EmptyString
  | String a r =>
      String (if Ascii.eqb a old then new else a) (replace old new r)
  end.

(** Apply [f] to the value of an entry. *)
Definition on_values (f : value -> value) (kv : string * value) : string * value :=
  (fst kv, f (snd kv)).

(** One turn of the loop over [list(data.items())], as far as the mapping
    itself is concerned: [data[new_key] = data.pop(key)] when [old_char] is
    in [key]. The snapshot holds every key once and a key leaves [data] only
    in its own turn, so the [pop] finds it; the [None] branch is never taken
    on a well-formed mapping ([rename_keys_pop_found]). *)
Definition rename_key (old new : ascii) (data : dict) (key : string) : dict :=
  if contains old key then
    match dict_pop key data with
    | Some (v, data') => dict_set (replace old new key) v data'
    | None => data
    end
  else data.

Definition rename_keys (old new : ascii) (snapshot : list string) (data : dict) : dict :=
  fold_left (rename_key old new) snapshot data.

(** [replace_in_keys(data, old_char, new_char)]. The source rewrites in
    place; each value of the snapshot is rewritten exactly once, whether it
    has been moved to a new key or not, and moving an object does not change
    it, so rewriting all values first and renaming afterwards yields the
    same mapping. *)
Fixpoint replace_in_keys (old new : ascii) (data : value) : value :=
  match data with
  | VDict d =>
      VDict (rename_keys old new (keys d)
               ((fun kv => (fst kv, replace_in_keys old new (snd kv))) <$> d))
  | VList l => VList (replace_in_keys old new <$> l)
  | _ => data
  end.

(** The steps that lead to a key of a nested structure: a mapping key or a
    position in a sequence. *)
Inductive step : Type :=
| Key (k : string)
| Idx (i : nat).

(** The paths of the elements of a sequence, the first element at
    position [i]. *)
Definition indexed_paths (paths : value -> list (list step)) :
    nat -> list value -> list (list step) :=
  fix elems i l :=
    match l with
    | [] => []
    | x :: r => (cons (Idx i) <$> paths x) ++ elems (S i) r
    end.

(** Every key of every mapping of [v], each with the path that leads to it. *)
Fixpoint key_paths (v : value) : list (list step) :=
  match v with
  | VDict d =>
      d ≫= (fun kv => [Key (fst kv)] :: (cons (Key (fst kv)) <$> key_paths (snd kv)))
  | VList l => indexed_paths key_paths 0%nat l
  | _ => []
  end.

(** No key of [v], at any depth, contains the character [c]. *)
Fixpoint keys_avoid (c : ascii) (v : value) : bool :=
  match v with
  | VDict d =>
      forallb (fun kv => negb (contains c (fst kv)) && keys_avoid c (snd kv)) d
  | VList l => forallb (keys_avoid c) l
  | _ => true
  end.

(** [dst.setdefault(name, ...)] and [dst[name] = ...] need [dst] to be a
    mapping; the other values have no such method. *)
Definition as_dict (dst : value) : result dict :=
  match dst with
  | VDict d => Ok d
  | _ => Raise AttributeError
  end.

(** [cur.extend(items)]: only a list has [extend]. *)
Definition list_extend (cur : value) (items : list value) : result value :=
  match cur with
  | VList l => Ok (VList (l ++ items))
  | _ => Raise AttributeError
  end.

(** [cur.update(s)] for a set [s]. A set takes the union. A mapping also has
    an [update]: it reads each element as a key and value pair, which a
    string is when it has two characters (the order in which a set is
    walked is CPython's; the model walks [elements s]). Other values have no
    [update]. *)
Definition set_update (cur : value) (s : gset string) : result value :=
  match cur with
  | VSet t => Ok (VSet (t ∪ s))
  | VDict d =>
      if forallb (fun e => (String.length e =? 2)%nat) (elements s)
      then Ok (VDict (fold_left
                        (fun d e => dict_set (String.substring 0 1 e)
                                             (VStr (String.substring 1 1 e)) d)
                        (elements s) d))
      else Raise (ValueError "dictionary update sequence element has length other than 2")
  | _ => Raise AttributeError
  end.

(** The loop of [update_dict_from_other] over [src.items()], with [merge]
    standing for the recursive call. *)
Definition merge_items (merge : value -> value -> result value) :
    dict -> value -> result value :=
  fix loop items dst :=
    match items with
    | [] => Ok dst
    | (name, value) :: rest =>
        let* dst' :=
          match value with
          | VNull => Ok dst
          | VList l =>
              let* d := as_dict dst in
              let* cur := list_extend (default (VList []) (dict_get name d)) l in
              Ok (VDict (dict_set name cur d))
          | VSet s =>
              let* d := as_dict dst in
              let* cur := set_update (default (VSet ∅) (dict_get name d)) s in
              Ok (VDict (dict_set name cur d))
          | VDict _ =>
              let* d := as_dict dst in
              let* cur := merge (default (VDict []) (dict_get name d)) value in
              Ok (VDict (dict_set name cur d))
          | _ =>
              match dst with
              | VDict d => Ok (VDict (dict_set name value d))
              | _ => Raise TypeError
              end
          end in
        loop rest dst'
    end.

(** [update_dict_from_other(dst, src)]: [dst] as the call leaves it. *)
Fixpoint update_dict_from_other (dst src : value) {struct src} : result value :=
  match src with
  | VDict items => merge_items update_dict_from_other items dst
  | _ => Raise AttributeError
  end.

(** Two layers fit when, wherever [src] holds a list, a set or a mapping,
    [dst] holds nothing or a value of the same kind, at every depth. *)
Definition fit_items (fits : value -> value -> bool) (d : dict) : dict -> bool :=
  forallb (fun kv =>
    match snd kv, dict_get (fst kv) d with
    | VList _, (None | Some (VList _)) => true
    | VList _, _ => false
    | VSet _, (None | Some (VSet _)) => true
    | VSet _, _ => false
    | VDict _, None => fits (snd kv) (VDict [])
    | VDict _, Some cur => fits (snd kv) cur
    | _, _ => true
    end).

Fixpoint layers_fit (src dst : value) {struct src} : bool :=
  match src, dst with
  | VDict items, VDict d => fit_items layers_fit d items
  | _, _ => false
  end.

(** The merge of [src] into a mapping it fits returns a mapping. *)
Definition merge_returns (src : value) : Prop :=
  forall d, wf src = true -> layers_fit src (VDict d) = true ->
  exists d', update_dict_from_other (VDict d) src = Ok (VDict d').

(** What the merge leaves under one key, in the words of its
    specification: [before] is the entry of [dst] before the call, [v] the
    value of [src] and [after] the entry of [dst] after the call. *)
Definition merged_entry (merge : value -> value -> result value)
    (before : option value) (v : value) (after : option value) : Prop :=
  match v with
  | VNull => after = before
  | VList l =>
      exists l0, (before = Some (VList l0) \/ before = None /\ l0 = [])
                 /\ after = Some (VList (l0 ++ l))
  | VSet x =>
      exists x0, (before = Some (VSet x0) \/ before = None /\ x0 = ∅)
                 /\ after = Some (VSet (x0 ∪ x))
  | VDict _ =>
      exists c r, (before = Some (VDict c) \/ before = None /\ c = [])
                  /\ merge (VDict c) v = Ok r /\ after = Some r
  | _ => after = Some v
  end.

(** The loop of [remove_common_dict_items] over [dct.items()], with [diff]
    standing for the recursive call and [result_dct] for the mapping being
    built. *)
Definition diff_items (diff : value -> value -> result value) (reference_dct : value) :
    dict -> dict -> result value :=
  fix loop items result_dct :=
    match items with
    | [] => Ok (VDict result_dct)
    | (key, value) :: rest =>
        let* reference_value := subscript reference_dct key in
        match value with
        | VDict _ =>
            let* value' := diff value reference_value in
            if truthy value'
            then loop rest (dict_set key value' result_dct)
            else loop rest result_dct
        | _ =>
            if py_eq value reference_value
            then loop rest result_dct
            else loop rest (dict_set key value result_dct)
        end
    end.

(** [remove_common_dict_items(dct, reference_dct)] *)
Fixpoint remove_common_dict_items (dct reference_dct : value) {struct dct} : result value :=
  match dct with
  | VDict items =>
      diff_items remove_common_dict_items reference_dct items []
  | _ => Raise AttributeError
  end.

(** Every key of [dct] is a key of [reference_dct], and so on through the
    mappings nested in [dct]. *)
Definition covered_items (covered : value -> value -> bool) (reference_dct : value) :
    dict -> bool :=
  forallb (fun kv =>
    match reference_dct with
    | VDict r =>
        match dict_get (fst kv) r with
        | Some reference_value =>
            match snd kv with
            | VDict _ => covered (snd kv) reference_value
            | _ => true
            end
        | None => false
        end
    | _ => false
    end).

Fixpoint keys_covered (dct reference_dct : value) {struct dct} : bool :=
  match dct with
  | VDict items => covered_items keys_covered reference_dct items
  | _ => true
  end.

(** Wherever [dct] holds a mapping with at least one key, [reference_dct]
    holds a mapping, as far as the keys of the two agree. *)
Definition matched_items (matched : value -> value -> bool) (reference_dct : value) :
    dict -> bool :=
  fun items =>
    match reference_dct with
    | VDict r =>
        forallb (fun kv =>
          match snd kv, dict_get (fst kv) r with
          | VDict _, Some reference_value => matched (snd kv) reference_value
          | _, _ => true
          end) items
    | _ => match items with [] => true | _ => false end
    end.

Fixpoint mappings_matched (dct reference_dct : value) {struct dct} : bool :=
  match dct with
  | VDict items => matched_items mappings_matched reference_dct items
  | _ => true
  end.

(** The difference of a mapping whose keys are covered returns a mapping;
    the difference of a mapping with a key that is not covered raises, a
    [KeyError] when the mappings are matched. *)
Definition diff_returns (dct : value) : Prop :=
  forall reference_dct, keys_covered dct reference_dct = true ->
  forall items, dct = VDict items ->
  exists r, remove_common_dict_items dct reference_dct = Ok (VDict r).

Definition diff_fails (dct : value) : Prop :=
  forall reference_dct, keys_covered dct reference_dct = false ->
  exists e, remove_common_dict_items dct reference_dct = Raise e
            /\ (mappings_matched dct reference_dct = true -> is_key_error e).

(** No mapping of [v], [v] itself or one nested in it under keys, holds a
    null value. *)
Fixpoint null_free (v : value) : bool :=
  match v with
  | VNull => false
  | VDict d => forallb (fun kv => null_free (snd kv)) d
  | _ => true
  end.

(** What the difference leaves under one key: [entry] is the entry of [dct]
    and [kept] the entry of the result. *)
Definition diffed_entry (reference_dct : value) (key : string)
    (entry kept : option value) : Prop :=
  match entry with
  | None => kept = None
  | Some value =>
      exists reference_value,
        subscript reference_dct key = Ok reference_value /\
        match value with
        | VDict _ =>
            exists value',
              remove_common_dict_items value reference_value = Ok value'
              /\ kept = if truthy value' then Some value' else None
        | _ => kept = if py_eq value reference_value then None else Some value
        end
  end.

(** *** Locating the files *)

Section config_paths.
(** [USER_CONFIG_FILENAMES] and [DEFAULT_CONFIG_FILENAME] of
    [ggshield.core.constants], which is not among the sources; the file
    system, as [Path.exists] reads it; and [directory / filename]. *)
Variable USER_CONFIG_FILENAMES : list string.
Variable DEFAULT_CONFIG_FILENAME : string.
Variable path_exists : string -> bool.
Variable joinpath : string -> string -> string.

(** The loop [for filename in USER_CONFIG_FILENAMES] of the two functions
    below. *)
Fixpoint first_existing (directory : string) (filenames : list string) : option string :=
  match filenames with
  | [] => None
  | filename :: rest =>
      let path := joinpath directory filename in
      if path_exists path then Some path else first_existing directory rest
  end.

(** [find_global_config_path(to_write=...)], [home] being what
    [get_user_home_dir()] returns. *)
Definition find_global_config_path (home : string) (to_write : bool) : option string :=
  match first_existing home USER_CONFIG_FILENAMES with
  | Some path => Some path
  | None => if to_write then Some (joinpath home DEFAULT_CONFIG_FILENAME) else None
  end.

(** [find_local_config_path()]: [root] is the directory
    [get_project_root_dir(Path())] returns, [None] when it raises
    [GitExecutableNotFound]; [Path()] is the directory ["."]. *)
Definition find_local_config_path (root : option string) : option string :=
  let project_root_dir := match root with Some dir => dir | None => "." end in
  first_existing project_root_dir USER_CONFIG_FILENAMES.
End config_paths.

(** *** Addresses *)

(** [url[-1]] *)
Fixpoint last_char (url : string) : option ascii :=
  match url with
  | EmptyString => None
  | String c EmptyString => Some c
  | String _ rest => last_char rest
  end.

(** [url[:-1]] *)
Fixpoint drop_last (url : string) : string :=
  match url with
  | EmptyString => EmptyString
  | String _ EmptyString => EmptyString
  | String c rest => String c (drop_last rest)
  end.

(** [remove_url_trailing_slash(url)]; subscripting the empty string
    raises. *)
Definition remove_url_trailing_slash (url : string) : result string :=
  match last_char url with
  | None => Raise IndexError
  | Some c => if Ascii.eqb c "/" then Ok (drop_last url) else Ok url
  end.

End Utils.
Import Utils.


(** ** Dates and times *)

Module Datetime.

(** The calendar fields of a [datetime.datetime], to the second. *)
Record civil : Type := Civil {
  year : Z; month : Z; day : Z;
  hour : Z; minute : Z; second : Z
}.

(** A [datetime.datetime]: naive (calendar fields, no [tzinfo]) or aware. An
    aware value is given by the instant it denotes, in seconds since
    1970-01-01T00:00:00Z, and its UTC offset in seconds. *)
Inductive datetime : Type :=
| Naive (wall : civil)
| Aware (instant : Z) (utcoffset : Z).

Definition is_leap (y : Z) : bool :=
  ((y mod 4 =? 0) && negb (y mod 100 =? 0)) || (y mod 400 =? 0).

Definition days_in_month (y m : Z) : Z :=
  if m =? 2 then (if is_leap y then 29 else 28)
  else if (m =? 4) || (m =? 6) || (m =? 9) || (m =? 11) then 30
  else 31.

(** What the [datetime] constructor accepts as a date. *)
Definition valid_date (y m d : Z) : bool :=
  (1 <=? y) && (y <=? 9999) && (1 <=? m) && (m <=? 12) &&
  (1 <=? d) && (d <=? days_in_month y m).

Definition valid_time (h mi s : Z) : bool :=
  (0 <=? h) && (h <? 24) && (0 <=? mi) && (mi <? 60) && (0 <=? s) && (s <? 60).

(** Days from 1970-01-01 to the given date of the proleptic Gregorian
    calendar. *)
Definition days_from_civil (y m d : Z) : Z :=
  let y' := if m <=? 2 then y - 1 else y in
  let era := y' / 400 in
  let yoe := y' - era * 400 in
  let doy := (153 * (if 2 <? m then m - 3 else m + 9) + 2) / 5 + d - 1 in
  let doe := yoe * 365 + yoe / 4 - yoe / 100 + doy in
  era * 146097 + doe - 719468.

(** Seconds from 1970-01-01T00:00:00 to the wall-clock reading [c]. *)
Definition wall_seconds (c : civil) : Z :=
  days_from_civil (year c) (month c) (day c) * 86400
  + hour c * 3600 + minute c * 60 + second c.

Definition midnight (y m d : Z) : civil := Civil y m d 0 0 0.

(** The first and the last reading a [datetime] can hold,
    0001-01-01T00:00:00 and 9999-12-31T23:59:59, in seconds from
    1970-01-01T00:00:00. *)
Definition MIN_SECONDS : Z := days_from_civil 1 1 1 * 86400.
Definition MAX_SECONDS : Z := days_from_civil 9999 12 31 * 86400 + 86399.

Definition representable (t : Z) : bool := (MIN_SECONDS <=? t) && (t <=? MAX_SECONDS).

(** The year of the proleptic Gregorian calendar in which a day falls, the
    days counted from 1970-01-01. *)
Definition year_of_days (days : Z) : Z :=
  let z := days + 719468 in
  let era := z / 146097 in
  let doe := z - era * 146097 in
  let yoe := (doe - doe / 1460 + doe / 36524 - doe / 146096) / 365 in
  let doy := doe - (365 * yoe + yoe / 4 - yoe / 100) in
  let mp := (5 * doy + 2) / 153 in
  yoe + era * 400 + (if mp <? 10 then 0 else 1).

(** [%i] *)
Definition format_int (n : Z) : string := NilZero.string_of_int (Z.to_int n).

(** The time zone of the process: the UTC offset, in seconds, that
    [localtime] reports ([tm_gmtoff]) at an instant given in seconds from
    1970-01-01T00:00:00Z. It is less than a day in absolute value. *)
Definition timezone : Type := Z -> Z.

(** The zone keeps the offset [o] at every instant from [first] to
    [last]. *)
Definition keeps_offset (tz : timezone) (o first last : Z) : Prop :=
  forall u, first <= u <= last -> tz u = o.

(** [astimezone] on a naive value, as the [datetime] module of CPython 3.8
    to 3.12 (the interpreters the package runs on) computes it. [local(u)]:
    the local wall-clock reading at the instant [u], in seconds; a reading
    outside the years 1 to 9999 is an error. *)
Definition local_reading (tz : timezone) (u : Z) : result Z :=
  let lt := u + tz u in
  if representable lt then Ok lt
  else Raise (ValueError ("year " ++ format_int (year_of_days (lt / 86400))
                          ++ " is out of range")).

Definition max_fold_seconds : Z := 24 * 3600.

(** [local_to_seconds(..., fold=0)]: the instant whose local reading is [t],
    searched from the offset in force at [t] taken as an instant and the
    offset in force a day before; in a gap of the local clock, the later of
    the two candidates. The values the schema builds have [fold] 0. *)
Definition local_to_seconds (tz : timezone) (t : Z) : result Z :=
  let* lt := local_reading tz t in
  let a := lt - t in
  let u1 := t - a in
  let* t1 := local_reading tz u1 in
  let* b := (if t1 =? t
             then let u2 := u1 - max_fold_seconds in
                  let* lt := local_reading tz u2 in
                  Ok (lt - u2)
             else Ok (t1 - u1)) in
  if (t1 =? t) && (a =? b) then Ok u1
  else
    let u2 := t - b in
    let* t2 := local_reading tz u2 in
    if t2 =? t then Ok u2
    else if t1 =? t then Ok u1
    else Ok (Z.max u1 u2).

(** [dt.astimezone(timezone.utc)]. An aware value keeps its instant, which
    must itself be a reading of the years 1 to 9999. A naive value is taken
    to be local time of the process: the zone is the one in force at the
    instant [local_to_seconds] finds, and its offset is subtracted from the
    reading. *)
Definition astimezone_utc (local : timezone) (dt : datetime) : result datetime :=
  match dt with
  | Aware t _ => if representable t then Ok (Aware t 0) else Raise OverflowError
  | Naive c =>
      let wall := wall_seconds c in
      let* u := local_to_seconds local wall in
      let t := wall - local u in
      if representable t then Ok (Aware t 0) else Raise OverflowError
  end.

(** [a <= b]: aware values compare by instant, naive ones by their fields,
    and one of each cannot be compared. *)
Definition datetime_le (a b : datetime) : result bool :=
  match a, b with
  | Aware t _, Aware u _ => Ok (t <=? u)
  | Naive c, Naive d => Ok (wall_seconds c <=? wall_seconds d)
  | _, _ => Raise TypeError
  end.

(** *** Reading and printing *)

Definition digit_of (c : ascii) : option Z :=
  let n := Z.of_N (N_of_ascii c) in
  if (48 <=? n) && (n <=? 57) then Some (n - 48) else None.

Definition digit_char (d : Z) : ascii := ascii_of_N (Z.to_N (48 + d)).

(** [%02d] and [%04d] *)
Definition pad2 (n : Z) : string :=
  String (digit_char (n / 10)) (String (digit_char (n mod 10)) EmptyString).

Definition pad4 (n : Z) : string :=
  String (digit_char (n / 1000))
    (String (digit_char (n / 100 mod 10))
       (String (digit_char (n / 10 mod 10))
          (String (digit_char (n mod 10)) EmptyString))).

(** A bare calendar date, [YYYY-MM-DD]. *)
Definition isoformat_date (y m d : Z) : string :=
  (pad4 y ++ "-" ++ pad2 m ++ "-" ++ pad2 d)%string.

(** [str(dt)] for a naive [dt] with no fraction of a second. *)
Definition str_naive (c : civil) : string :=
  (isoformat_date (year c) (month c) (day c) ++ " "
   ++ pad2 (hour c) ++ ":" ++ pad2 (minute c) ++ ":" ++ pad2 (second c))%string.

Definition one_digit (s : string) : option (Z * string) :=
  match s with
  | String a r => match digit_of a with Some x => Some (x, r) | None => None end
  | EmptyString => None
  end.

Definition two_digits (s : string) : option (Z * string) :=
  match one_digit s with
  | Some (x, r) =>
      match one_digit r with
      | Some (y, r') => Some (10 * x + y, r')
      | None => None
      end
  | None => None
  end.

Definition four_digits (s : string) : option (Z * string) :=
  match two_digits s with
  | Some (hi, r) =>
      match two_digits r with
      | Some (lo, r') => Some (100 * hi + lo, r')
      | None => None
      end
  | None => None
  end.

Definition expect (c : ascii) (s : string) : option string :=
  match s with
  | String a r => if Ascii.eqb a c then Some r else None
  | EmptyString => None
  end.

(** The directive [%m] of [strptime]: [1[0-2]|0[1-9]|[1-9]]. *)
Definition strptime_month (s : string) : option (Z * string) :=
  match one_digit s with
  | Some (x, r) =>
      let single := if 1 <=? x then Some (x, r) else None in
      match one_digit r with
      | Some (y, r') =>
          if (x =? 1) && (y <=? 2) then Some (10 + y, r')
          else if (x =? 0) && (1 <=? y) then Some (y, r')
          else single
      | None => single
      end
  | None => None
  end.

(** The directive [%d] of [strptime]: [3[01]|[12]\d|0[1-9]|[1-9]| [1-9]]. *)
Definition strptime_day (s : string) : option (Z * string) :=
  match one_digit s with
  | Some (x, r) =>
      let single := if 1 <=? x then Some (x, r) else None in
      match one_digit r with
      | Some (y, r') =>
          if (x =? 3) && (y <=? 1) then Some (30 + y, r')
          else if (x =? 1) || (x =? 2) then Some (10 * x + y, r')
          else if (x =? 0) && (1 <=? y) then Some (y, r')
          else single
      | None => single
      end
  | None =>
      match expect " " s with
      | Some r =>
          match one_digit r with
          | Some (y, r') => if 1 <=? y then Some (y, r') else None
          | None => None
          end
      | None => None
      end
  end.

(** [datetime.strptime(s, "%Y-%m-%d")]: the whole of [s] must match and name
    a date of the calendar. The digits are the decimal digits of the
    model's characters, [0] to [9]. *)
Definition strptime_date (s : string) : result civil :=
  let parsed :=
    match four_digits s with
    | Some (y, r) =>
        match expect "-" r with
        | Some r =>
            match strptime_month r with
            | Some (m, r) =>
                match expect "-" r with
                | Some r =>
                    match strptime_day r with
                    | Some (d, EmptyString) => Some (y, m, d)
                    | _ => None
                    end
                | None => None
                end
            | None => None
            end
        | None => None
        end
    | None => None
    end in
  match parsed with
  | Some (y, m, d) =>
      if valid_date y m d then Ok (midnight y m d)
      else Raise (ValueError "day is out of range for month")
  | None => Raise (ValueError "time data does not match format '%Y-%m-%d'")
  end.

(** A stand-in for the reader of ISO 8601 timestamps behind the schema's
    timestamp fields, used in the examples: it reads the plain forms
    [YYYY-MM-DD HH:MM:SS] and [YYYY-MM-DDTHH:MM:SS], with no zone designator
    (a naive value), with [Z] or with a signed [HH:MM] of less than a day,
    and nothing else. *)
Definition sample_iso_offset (s : string) : option (option Z) :=
  match s with
  | EmptyString => Some None
  | String c r =>
      if Ascii.eqb c "Z" then
        match r with EmptyString => Some (Some 0) | _ => None end
      else
        let sign := if Ascii.eqb c "+" then Some 1
                    else if Ascii.eqb c "-" then Some (-1) else None in
        match sign, two_digits r with
        | Some sg, Some (h, r) =>
            match expect ":" r with
            | Some r =>
                match two_digits r with
                | Some (mi, EmptyString) =>
                    if h * 3600 + mi * 60 <? 86400
                    then Some (Some (sg * (h * 3600 + mi * 60)))
                    else None
                | _ => None
                end
            | None => None
            end
        | _, _ => None
        end
  end.

Definition sample_from_iso_datetime (s : string) : option datetime :=
  match four_digits s with
  | Some (y, r) =>
  match expect "-" r with
  | Some r =>
  match two_digits r with
  | Some (m, r) =>
  match expect "-" r with
  | Some r =>
  match two_digits r with
  | Some (d, r) =>
  match (match expect "T" r with Some r' => Some r' | None => expect " " r end) with
  | Some r =>
  match two_digits r with
  | Some (h, r) =>
  match expect ":" r with
  | Some r =>
  match two_digits r with
  | Some (mi, r) =>
  match expect ":" r with
  | Some r =>
  match two_digits r with
  | Some (sec, r) =>
      match sample_iso_offset r with
      | Some zone =>
          if valid_date y m d && valid_time h mi sec then
            let c := Civil y m d h mi sec in
            Some (match zone with
                  | None => Naive c
                  | Some off => Aware (wall_seconds c - off) off
                  end)
          else None
      | None => None
      end
  | None => None end
  | None => None end
  | None => None end
  | None => None end
  | None => None end
  | None => None end
  | None => None end
  | None => None end
  | None => None end
  | None => None end
  | None => None end.

End Datetime.
Import Datetime.

(** ** [ggshield/core/config/user_config.py] *)

Module UserConfig.

(** *** Identifier patterns *)

(** The regular expressions the two patterns of the module are written
    with: a literal text, a character class, concatenation and the counted
    repetition [r{n}]. *)
Inductive regex : Type :=
| Literal (text : string)
| Class (accepts : ascii -> bool)
| Cat (r1 r2 : regex)
| Times (n : nat) (r : regex).

(** [lo-hi] inside a character class. *)
Definition in_range (lo hi c : ascii) : bool :=
  (N_of_ascii lo <=? N_of_ascii c)%N && (N_of_ascii c <=? N_of_ascii hi)%N.

Fixpoint strip_prefix (text s : string) : option string :=
  match text, s with
  | EmptyString, _ => Some s
  | String a text', String b s' => if Ascii.eqb a b then strip_prefix text' s' else None
  | String _ _, EmptyString => None
  end.

Fixpoint repeat_match (n : nat) (step : string -> option string) (s : string) :
    option string :=
  match n with
  | O => Some s
  | S n' => match step s with Some rest => repeat_match n' step rest | None => None end
  end.

(** What a match of [r] at the start of [s] leaves of [s]. An expression
    built from these four forms matches in at most one way. *)
Fixpoint match_prefix (r : regex) (s : string) : option string :=
  match r with
  | Literal text => strip_prefix text s
  | Class accepts =>
      match s with
      | String a rest => if accepts a then Some rest else None
      | EmptyString => None
      end
  | Cat r1 r2 =>
      match match_prefix r1 s with
      | Some rest => match_prefix r2 rest
      | None => None
      end
  | Times n r' => repeat_match n (match_prefix r') s
  end.

(** [bool(pattern.fullmatch(s))] *)
Definition fullmatch (pattern : regex) (s : string) : bool :=
  match match_prefix pattern s with
  | Some EmptyString => true
  | _ => false
  end.

(** [[a-zA-Z0-9]] and [[0-9]] *)
Definition alphanumeric (c : ascii) : bool :=
  in_range "a" "z" c || in_range "A" "Z" c || in_range "0" "9" c.

Definition decimal (c : ascii) : bool := in_range "0" "9" c.

(** [GHSA(-[a-zA-Z0-9]{4}){3}] *)
Definition GHSA_ID_PATTERN : regex :=
  Cat (Literal "GHSA") (Times 3 (Cat (Literal "-") (Times 4 (Class alphanumeric)))).

(** [GG_IAC_[0-9]{4}] *)
Definition POLICY_ID_PATTERN : regex :=
  Cat (Literal "GG_IAC_") (Times 4 (Class decimal)).

Definition validate_policy_id (policy_id : string) : bool :=
  fullmatch POLICY_ID_PATTERN policy_id.

Definition is_ghsa_valid (ghsa_id : string) : bool :=
  fullmatch GHSA_ID_PATTERN ghsa_id.

Definition validate_vuln_identifier (value : string) : result unit :=
  if is_ghsa_valid value then Ok tt
  else Raise (ValidationError
                ("The given GHSA id '" ++ value
                 ++ "' do not match the pattern 'GHSA(-[a-zA-Z0-9]{4}){3}'")).

(** *** Ignored elements *)

(** [ConfigIgnoredElement]: what every temporarily ignorable element has. *)
Class ConfigIgnoredElement (A : Type) : Type := {
  comment : A -> option string;
  until : A -> option datetime
}.

Record IaCConfigIgnoredPath : Type := {
  iac_path : string;
  iac_path_comment : option string;
  iac_path_until : option datetime
}.

Record IaCConfigIgnoredPolicy : Type := {
  iac_policy : string;
  iac_policy_comment : option string;
  iac_policy_until : option datetime
}.

Record SCAConfigIgnoredVulnerability : Type := {
  vuln_identifier : string;
  vuln_path : string;
  vuln_comment : option string;
  vuln_until : option datetime
}.

#[export] Instance ignored_path_element : ConfigIgnoredElement IaCConfigIgnoredPath :=
  {| comment := iac_path_comment; until := iac_path_until |}.
#[export] Instance ignored_policy_element : ConfigIgnoredElement IaCConfigIgnoredPolicy :=
  {| comment := iac_policy_comment; until := iac_policy_until |}.
#[export] Instance ignored_vulnerability_element :
    ConfigIgnoredElement SCAConfigIgnoredVulnerability :=
  {| comment := vuln_comment; until := vuln_until |}.

(** The hook [parse_date], run before the schema reads the element: a bare
    date under [until] is replaced by the text of that date at midnight.
    Only a string can read as a date: the text [str] makes of any other
    value of the model never has the form. *)
Definition parse_date (data : value) : value :=
  match data with
  | VDict d =>
      match dict_get "until" d with
      | Some (VStr s) =>
          match strptime_date s with
          | Ok c => VDict (dict_set "until" (VStr (str_naive c)) d)
          | Raise _ => data
          end
      | _ => data
      end
  | _ => data
  end.

(** The hooks [convert_paths] of [IaCConfigIgnoredPath] and
    [convert_policies] of [IaCConfigIgnoredPolicy], run before the schema
    reads the element. *)
Definition convert_paths (in_data : value) : value :=
  match in_data with
  | VStr _ => VDict [("path", in_data)]
  | _ => in_data
  end.

Definition convert_policies (in_data : value) : value :=
  match in_data with
  | VStr _ => VDict [("policy", in_data)]
  | _ => in_data
  end.

Section schema.
(** The reader of ISO 8601 timestamps behind the schema's timestamp fields,
    [from_iso_datetime] of the marshmallow library, which is not among the
    sources: the value it reads from a text, [None] when it raises. *)
Variable from_iso_datetime : string -> option datetime.

(** The schema's reading of a timestamp field: a value that counts as
    false, a value that is not a text and a text the reader rejects are
    all refused with the same message. *)
Definition deserialize_datetime (v : value) : result datetime :=
  match v with
  | VStr s =>
      if String.eqb s "" then Raise (ValidationError "Not a valid datetime.")
      else
        match from_iso_datetime s with
        | Some dt => Ok dt
        | None => Raise (ValidationError "Not a valid datetime.")
        end
  | _ => Raise (ValidationError "Not a valid datetime.")
  end.

(** The hook [datetime_to_utc], run on what the schema has read. *)
Definition datetime_to_utc (local : timezone) (until : option datetime) :
    result (option datetime) :=
  match until with
  | Some dt => let* utc := astimezone_utc local dt in Ok (Some utc)
  | None => Ok None
  end.

(** The [until] of an element loaded from [data]: [parse_date], the schema,
    then [datetime_to_utc]. *)
Definition load_until (local : timezone) (data : value) : result (option datetime) :=
  match parse_date data with
  | VDict d =>
      match dict_get "until" d with
      | None | Some VNull => datetime_to_utc local None
      | Some v =>
          let* dt := deserialize_datetime v in
          datetime_to_utc local (Some dt)
      end
  | _ => Raise (ValidationError "Invalid input type.")
  end.
End schema.

(** What the reader does with the text [parse_date] writes: it reads
    [YYYY-MM-DD 00:00:00] as that reading, with no zone. *)
Definition reads_midnights (from_iso_datetime : string -> option datetime) : Prop :=
  forall y m d, valid_date y m d = true ->
    from_iso_datetime (str_naive (midnight y m d)) = Some (Naive (midnight y m d)).

Section expiry.
Context {A : Type} `{ConfigIgnoredElement A}.

(** [ignored.until and ignored.until <= now], with [now] the reading of
    [datetime.now(tz=timezone.utc)]; a [datetime] is always true. *)
Definition until_passed (now : Z) (ignored : A) : result bool :=
  match until ignored with
  | None => Ok false
  | Some dt => datetime_le dt (Aware now 0)
  end.

(** The loop of [remove_expired_elements] from index [n - 1] down to 0,
    on the list being emptied and the expired elements found so far. *)
Fixpoint sweep (now : Z) (n : nat) (lst expired : list A) : result (list A * list A) :=
  match n with
  | O => Ok (lst, expired)
  | S idx =>
      match lst !! idx with
      | None => Raise IndexError
      | Some ignored =>
          let* passed := until_passed now ignored in
          if passed : bool
          then sweep now idx (delete idx lst) (ignored :: expired)
          else sweep now idx lst expired
      end
  end.

(** [remove_expired_elements(lst)]: the list as the call leaves it, and
    the list it returns. *)
Definition remove_expired_elements (now : Z) (lst : list A) : result (list A * list A) :=
  sweep now (length lst) lst [].

(** An element is expired when its [until] is set and not after [now]. *)
Definition is_expired (now : Z) (x : A) : bool :=
  match until x with
  | Some (Aware t _) => t <=? now
  | Some (Naive _) | None => false
  end.

(** The [until] of a loaded element is absent or aware. *)
Definition until_aware (x : A) : bool :=
  match until x with
  | Some (Naive _) => false
  | _ => true
  end.
End expiry.

(** *** Secret settings *)

(** Modelled from the spec: [IgnoredMatch] of [ggshield.core.types], which is
    not among the sources; the spec gives it a [match] string and an optional
    [name], built from and serialized to a mapping. *)
Record IgnoredMatch : Type := {
  name : option string;
  match_ : string
}.

(** [SecretConfig]; sets of strings as the dataclass declares them. *)
Record SecretConfig : Type := {
  show_secrets : bool;
  ignored_detectors : gset string;
  ignored_matches : list IgnoredMatch;
  ignored_paths : gset string;
  ignore_known_secrets : bool
}.

(** [not match.name] *)
Definition unnamed (m : IgnoredMatch) : bool :=
  match name m with
  | None => true
  | Some s => String.eqb s ""
  end.

(** The body of the [if match.match == secret.match] branch. *)
Definition backfill_name (m secret : IgnoredMatch) : IgnoredMatch :=
  if unnamed m then {| name := name secret; match_ := match_ m |} else m.

(** The loop of [add_ignored_match] over [self.ignored_matches], and the
    [append] after it. *)
Fixpoint add_to_matches (matches : list IgnoredMatch) (secret : IgnoredMatch) :
    list IgnoredMatch :=
  match matches with
  | [] => [secret]
  | m :: rest =>
      if String.eqb (match_ m) (match_ secret)
      then backfill_name m secret :: rest
      else m :: add_to_matches rest secret
  end.

Definition add_ignored_match (self : SecretConfig) (secret : IgnoredMatch) : SecretConfig :=
  {| show_secrets := show_secrets self;
     ignored_detectors := ignored_detectors self;
     ignored_matches := add_to_matches (ignored_matches self) secret;
     ignored_paths := ignored_paths self;
     ignore_known_secrets := ignore_known_secrets self |}.

(** *** Sections and root *)

Record IaCConfig : Type := {
  iac_ignored_paths : list IaCConfigIgnoredPath;
  iac_ignored_policies : list IaCConfigIgnoredPolicy;
  iac_minimum_severity : string;
  outdated_ignored_paths : list IaCConfigIgnoredPath;
  outdated_ignored_policies : list IaCConfigIgnoredPolicy
}.

Record SCAConfig : Type := {
  sca_ignored_paths : gset string;
  sca_minimum_severity : string;
  ignored_vulnerabilities : list SCAConfigIgnoredVulnerability;
  ignore_not_fixable : bool;
  ignore_fixable : bool
}.

Record UserConfig : Type := {
  iac : IaCConfig;
  instance : option string;
  exit_zero : bool;
  verbose : bool;
  allow_self_signed : bool;
  max_commits_for_hook : Z;
  sca : SCAConfig;
  secret : SecretConfig;
  debug : bool;
  deprecation_messages : list string
}.

Definition CURRENT_CONFIG_VERSION : Z := 2.

(** [UserConfig.from_dict({})]: every field at the default its dataclass
    declares. *)
Definition default_config : UserConfig :=
  {| iac := {| iac_ignored_paths := []; iac_ignored_policies := [];
               iac_minimum_severity := "LOW";
               outdated_ignored_paths := []; outdated_ignored_policies := [] |};
     instance := None;
     exit_zero := false;
     verbose := false;
     allow_self_signed := false;
     max_commits_for_hook := 50;
     sca := {| sca_ignored_paths := ∅; sca_minimum_severity := "LOW";
               ignored_vulnerabilities := [];
               ignore_not_fixable := false; ignore_fixable := false |};
     secret := {| show_secrets := false; ignored_detectors := ∅;
                  ignored_matches := []; ignored_paths := ∅;
                  ignore_known_secrets := false |};
     debug := false;
     deprecation_messages := [] |}.

(** The schema dump [to_dict]. The schema classes are generated by the
    marshmallow library from the dataclasses above: one key for each field,
    in declaration order (inherited fields first), the fields that
    [UserConfig.SCHEMA] excludes left out. A set is dumped as the list of its
    elements, a timestamp as the string [isoformat] makes of it. *)
Section dump.
Variable isoformat : datetime -> string.

Definition dump_str (o : option string) : value :=
  match o with Some s => VStr s | None => VNull end.

Definition dump_set (s : gset string) : value := VList (VStr <$> elements s).

Definition dump_element {A} `{ConfigIgnoredElement A} (x : A) : dict :=
  [("comment", dump_str (comment x));
   ("until", dump_str (isoformat <$> until x))].

Definition dump_ignored_path (x : IaCConfigIgnoredPath) : value :=
  VDict (dump_element x ++ [("path", VStr (iac_path x))]).

Definition dump_ignored_policy (x : IaCConfigIgnoredPolicy) : value :=
  VDict (dump_element x ++ [("policy", VStr (iac_policy x))]).

Definition dump_ignored_vulnerability (x : SCAConfigIgnoredVulnerability) : value :=
  VDict (dump_element x
         ++ [("identifier", VStr (vuln_identifier x)); ("path", VStr (vuln_path x))]).

Definition dump_ignored_match (m : IgnoredMatch) : value :=
  VDict [("name", dump_str (name m)); ("match", VStr (match_ m))].

Definition iac_to_dict (c : IaCConfig) : value :=
  VDict [("ignored_paths", VList (dump_ignored_path <$> iac_ignored_paths c));
         ("ignored_policies", VList (dump_ignored_policy <$> iac_ignored_policies c));
         ("minimum_severity", VStr (iac_minimum_severity c))].

Definition sca_to_dict (c : SCAConfig) : value :=
  VDict [("ignored_paths", dump_set (sca_ignored_paths c));
         ("minimum_severity", VStr (sca_minimum_severity c));
         ("ignored_vulnerabilities",
          VList (dump_ignored_vulnerability <$> ignored_vulnerabilities c));
         ("ignore_not_fixable", VBool (ignore_not_fixable c));
         ("ignore_fixable", VBool (ignore_fixable c))].

Definition secret_to_dict (c : SecretConfig) : value :=
  VDict [("show_secrets", VBool (show_secrets c));
         ("ignored_detectors", dump_set (ignored_detectors c));
         ("ignored_matches", VList (dump_ignored_match <$> ignored_matches c));
         ("ignored_paths", dump_set (ignored_paths c));
         ("ignore_known_secrets", VBool (ignore_known_secrets c))].

Definition to_dict (c : UserConfig) : value :=
  VDict [("iac", iac_to_dict (iac c));
         ("instance", dump_str (instance c));
         ("exit_zero", VBool (exit_zero c));
         ("verbose", VBool (verbose c));
         ("allow_self_signed", VBool (allow_self_signed c));
         ("max_commits_for_hook", VInt (max_commits_for_hook c));
         ("sca", sca_to_dict (sca c));
         ("secret", secret_to_dict (secret c));
         ("debug", VBool (debug c))].

(** [UserConfig.to_config_dict] *)
Definition to_config_dict (self : UserConfig) : result value :=
  let dct := to_dict self in
  let default_dct := to_dict default_config in
  let* dct := remove_common_dict_items dct default_dct in
  let* d := match dct with VDict d => Ok d | _ => Raise TypeError end in
  let dct := VDict (dict_set "version" (VInt CURRENT_CONFIG_VERSION) d) in
  Ok (replace_in_keys "_" "-" dct).
End dump.

(** *** Loading and migration *)

(** What a call displays or records besides its result: the messages
    appended to [deprecation_messages] and the warnings shown to the user. *)
Record journal : Type := {
  deprecations : list string;
  warnings : list string
}.

(** A computation that may raise and that writes to the journal. *)
Definition M (A : Type) : Type := journal -> result A * journal.

Definition ret {A} (a : A) : M A := fun j => (Ok a, j).

Definition lift {A} (r : result A) : M A := fun j => (r, j).

Definition bindM {A B} (m : M A) (k : A -> M B) : M B :=
  fun j =>
    match m j with
    | (Ok a, j') => k a j'
    | (Raise e, j') => (Raise e, j')
    end.

Notation "'run' x ':=' m 'in' k" := (bindM m (fun x => k))
  (at level 10, x name, m at level 100, k at level 200).

(** [deprecation_messages.append(msg)] *)
Definition deprecate (msg : string) : M unit :=
  fun j => (Ok tt, {| deprecations := deprecations j ++ [msg]; warnings := warnings j |}).

(** [display_warning] called once for each message. *)
Definition warn (msgs : list string) : M unit :=
  fun j => (Ok tt, {| deprecations := deprecations j; warnings := warnings j ++ msgs |}).

(** The journal [j'] is [j] with further lines; a computation [grows] the
    journal when it only ever adds to it. *)
Definition extends (j j' : journal) : Prop :=
  exists more shown,
    deprecations j' = deprecations j ++ more /\ warnings j' = warnings j ++ shown.

Definition grows {A} (m : M A) : Prop := forall j, extends j (snd (m j)).

(** Modelled from the spec: [IgnoredMatch.from_dict] of
    [ggshield.core.types]; the structure is built from a mapping with a
    [match] string and an optional [name], and from nothing else. *)
Definition IgnoredMatch_from_dict (data : value) : result IgnoredMatch :=
  match data with
  | VDict d =>
      match dict_get "match" d with
      | Some (VStr m) =>
          match dict_get "name" d with
          | None | Some VNull => Ok {| name := None; match_ := m |}
          | Some (VStr n) => Ok {| name := Some n; match_ := m |}
          | Some _ => Raise (ValidationError "name: Not a valid string.")
          end
      | _ => Raise (ValidationError "match: Not a valid string.")
      end
  | _ => Raise (ValidationError "Invalid input type.")
  end.

(** Modelled from the spec: [IgnoredMatch.to_dict], the mapping with the
    keys [name] and [match]. *)
Definition IgnoredMatch_to_dict (m : IgnoredMatch) : value :=
  VDict [("name", match name m with Some s => VStr s | None => VNull end);
         ("match", VStr (match_ m))].

(** [UserV1Config.matches_ignore_to_dict(data)]: [data] as the call leaves
    it. A list is rewritten element by element; the item assignment fails on
    the other values that can be walked. *)
Definition matches_ignore_to_dict (data : dict) : result dict :=
  match dict_get "matches_ignore" data with
  | None => Ok data
  | Some matches_ignore =>
      if negb (truthy matches_ignore) then Ok data
      else
        match matches_ignore with
        | VList l =>
            Ok (dict_set "matches_ignore"
                  (VList ((fun m => match m with
                                    | VStr s => VDict [("name", VStr ""); ("match", m)]
                                    | _ => m
                                    end) <$> l))
                  data)
        | VDict _ => Raise RuntimeError
        | _ => Raise TypeError
        end
  end.

(** [secret_dct["ignored-matches"]] as [load_v1_dict] computes it. *)
Definition ignored_matches_of (matches_ignore : value) : result value :=
  let* secrets := iterate matches_ignore in
  let* dumped := map_result (fun secret =>
                    let* m := IgnoredMatch_from_dict secret in
                    Ok (IgnoredMatch_to_dict m)) secrets in
  Ok (replace_in_keys "_" "-" (VList dumped)).

(** [copy_if_set(dct, dst_key, src_key)] inside [load_v1_dict]. *)
Definition copy_if_set (data dct : dict) (dst_key : string) (src_key : option string) : dict :=
  match dict_get (default dst_key src_key) data with
  | Some value => dict_set dst_key value dct
  | None => dct
  end.

(** The ignored matches of [data] can be loaded: neither the rewrite of
    [matches_ignore_to_dict] nor the conversion of [matches-ignore] raises. *)
Definition matches_load (data : dict) : bool :=
  is_ok (matches_ignore_to_dict data) &&
  match dict_get "matches-ignore" data with
  | Some matches_ignore =>
      negb (truthy matches_ignore) || is_ok (ignored_matches_of matches_ignore)
  | None => true
  end.

(** A stand-in for the URL conversion, used in the examples: it answers
    with one dashboard address and, when asked to warn, displays a line. *)
Definition sample_api_to_dashboard_url (url : value) (warn : bool) :
    result value * list string :=
  (Ok (VStr "https://dashboard.example.com"),
   if warn then ["api URL converted to a dashboard URL"] else []).

Section migration.
(** [api_to_dashboard_url(url, warn)] of [ggshield.core.url_utils], which is
    not among the sources: the value it returns (or the error it raises) and
    the warnings it displays. *)
Variable api_to_dashboard_url : value -> bool -> result value * list string.

(** The [try ... except KeyError ... else] block at the head of
    [load_v1_dict]. *)
Definition rename_api_url (data : dict) : M dict :=
  match dict_pop "api-url" data with
  | None => ret data
  | Some (api_url, data) =>
      if dict_mem "instance" data then ret data
      else
        let (converted, shown) := api_to_dashboard_url api_url true in
        run _ := warn shown in
        run instance := lift converted in
        ret (dict_set "instance" instance data)
  end.

(** [UserV1Config.load_v1_dict(data, deprecation_messages)] *)
Definition load_v1_dict (data : dict) : M value :=
  run data := rename_api_url data in
  run data := lift (matches_ignore_to_dict data) in
  run _ := (if dict_mem "all-policies" data
            then deprecate "The `all-policies` option has been deprecated and is now ignored."
            else ret tt) in
  run _ := (if dict_mem "ignore-default-excludes" data
            then deprecate
                   "The `ignore-default-exclude` option has been deprecated and is now ignored."
            else ret tt) in
  run secret_dct :=
    lift (match dict_get "matches-ignore" data with
          | Some matches_ignore =>
              if truthy matches_ignore
              then let* l := ignored_matches_of matches_ignore in
                   Ok [("ignored-matches", l)]
              else Ok []
          | None => Ok []
          end) in
  let secret_dct := copy_if_set data secret_dct "show-secrets" None in
  let secret_dct := copy_if_set data secret_dct "ignored-detectors" (Some "banlisted-detectors") in
  let secret_dct := copy_if_set data secret_dct "ignored-paths" (Some "paths-ignore") in
  let dct := [("secret", VDict secret_dct)] in
  let dct := copy_if_set data dct "instance" None in
  let dct := copy_if_set data dct "exit-zero" None in
  let dct := copy_if_set data dct "verbose" None in
  let dct := copy_if_set data dct "allow-self-signed" None in
  let dct := copy_if_set data dct "max-commits-for-hook" None in
  ret (VDict dct).

(** [_fix_ignore_known_secrets(data)]: [data] as the call leaves it. *)
Definition fix_ignore_known_secrets (data : dict) : result dict :=
  let key := "ignore-known-secrets" in
  let underscore_key := "ignore_known_secrets" in
  let (first, data) :=
    match dict_pop key data with
    | Some (v, data') => (v, data')
    | None => (VNull, data)
    end in
  let (value, data) :=
    match first with
    | VNull =>
        match dict_pop underscore_key data with
        | Some (v, data') => (v, data')
        | None => (VNull, data)
        end
    | _ => (first, data)
    end in
  match value with
  | VNull => Ok data
  | _ =>
      let data := match dict_get "secret" data with
                  | Some _ => data
                  | None => dict_set "secret" (VDict []) data
                  end in
      let secret_dct := default (VDict []) (dict_get "secret" data) in
      let* has_key := py_in key secret_dct in
      let* has_either := if has_key : bool then Ok true else py_in underscore_key secret_dct in
      if has_either : bool then Ok data
      else
        match secret_dct with
        | VDict d => Ok (dict_set "secret" (VDict (dict_set key value d)) data)
        | _ => Raise TypeError
        end
  end.

(** What [config_path] holds: no file; a file on which [yaml.safe_load]
    raises a [ParserError] or a [ScannerError], the two errors
    [load_yaml_dict] catches, with the text [str] makes of the error; the
    value [yaml.safe_load] returns, [VNull] for an empty document; or a
    file on which opening or loading raises another exception (an
    [OSError], a YAML error of another kind such as a [ComposerError], a
    decoding error, which is a [ValueError]). *)
Inductive file : Type :=
| Missing
| Malformed (error : string)
| Document (data : value)
| Unloadable (e : exn).

Definition newline : string := String "010" EmptyString.

(** [load_yaml_dict(path)] *)
Definition load_yaml_dict (path : string) (f : file) : result (option value) :=
  match f with
  | Missing => Ok None
  | Malformed error =>
      Raise (ValueError (path ++ " is not a valid YAML file:" ++ newline ++ error))
  | Document loaded =>
      let data := if truthy loaded then loaded else VDict [] in
      match data with
      | VDict _ => Ok (Some data)
      | _ => Raise (ValueError (path ++ " should be a dictionary."))
      end
  | Unloadable e => Raise e
  end.

(** The deprecation message of [_load_config_dict]. *)
Definition deprecated_format (config_path : string) : string :=
  config_path ++ " uses a deprecated configuration file format."
  ++ " Run `ggshield config migrate` to migrate it to the latest version.".

(** [UserConfig._load_config_dict(config_path, deprecation_messages)] *)
Definition load_config_dict (config_path : string) (f : file) : M value :=
  run loaded := lift (match load_yaml_dict config_path f with
                      | Raise (ValueError msg) => Raise (ParseError msg)
                      | r => r
                      end) in
  let dct := match loaded with
             | Some d => if truthy d then d else VDict [("version", VInt CURRENT_CONFIG_VERSION)]
             | None => VDict [("version", VInt CURRENT_CONFIG_VERSION)]
             end in
  let dct := replace_in_keys "_" "-" dct in
  run dct := lift (as_dict dct) in
  let (config_version, dct) :=
    match dict_pop "version" dct with
    | Some (v, dct') => (v, dct')
    | None => (VInt 1, dct)
    end in
  if py_eq config_version (VInt 2) then
    run dct := lift (fix_ignore_known_secrets dct) in
    ret (VDict dct)
  else if py_eq config_version (VInt 1) then
    run _ := deprecate (deprecated_format config_path) in
    load_v1_dict dct
  else
    lift (Raise (UnexpectedError [Lit "Don't know how to load config version ";
                                  Fmt config_version])).
End migration.

(** *** Expired elements at load time *)

(** [__str__] of an ignored element. *)
Class Described (A : Type) : Type := describe : A -> string.

#[export] Instance describe_ignored_path : Described IaCConfigIgnoredPath :=
  fun self => ("Path " ++ iac_path self)%string.
#[export] Instance describe_ignored_policy : Described IaCConfigIgnoredPolicy :=
  fun self => ("Policy " ++ iac_policy self)%string.
#[export] Instance describe_ignored_vulnerability : Described SCAConfigIgnoredVulnerability :=
  fun self => ("Vulnerability " ++ vuln_identifier self)%string.

Section hooks.
(** [str(dt)] for a timestamp. *)
Variable str_datetime : datetime -> string.

Definition str_until (until : option datetime) : string :=
  match until with
  | Some dt => str_datetime dt
  | None => "None"
  end.

(** The line [report_expired_elements] displays for one element. *)
Definition expired_warning {A} `{ConfigIgnoredElement A} `{Described A} (element : A) : string :=
  (describe element ++ " has an expired 'until' date (" ++ str_until (until element)
   ++ "), please update your configuration file.")%string.

(** [report_expired_elements(expired_lst)] *)
Definition report_expired_elements {A} `{ConfigIgnoredElement A} `{Described A}
    (expired_lst : list A) : M unit :=
  warn (expired_warning <$> expired_lst).

(** The hooks run on the fields the schema has read, [now] being the
    reading of the clock in the call of [remove_expired_elements].
    [IaCConfig.validate_ignored_paths]: *)
Definition validate_ignored_paths (now : Z) (data : IaCConfig) : M IaCConfig :=
  run swept := lift (remove_expired_elements now (iac_ignored_paths data)) in
  let expired_lst := snd swept in
  run _ := report_expired_elements expired_lst in
  ret {| iac_ignored_paths := fst swept;
         iac_ignored_policies := iac_ignored_policies data;
         iac_minimum_severity := iac_minimum_severity data;
         outdated_ignored_paths := expired_lst;
         outdated_ignored_policies := outdated_ignored_policies data |}.

(** [IaCConfig.validate_ignored_policies] *)
Definition validate_ignored_policies (now : Z) (data : IaCConfig) : M IaCConfig :=
  run swept := lift (remove_expired_elements now (iac_ignored_policies data)) in
  let expired_lst := snd swept in
  run _ := report_expired_elements expired_lst in
  ret {| iac_ignored_paths := iac_ignored_paths data;
         iac_ignored_policies := fst swept;
         iac_minimum_severity := iac_minimum_severity data;
         outdated_ignored_paths := outdated_ignored_paths data;
         outdated_ignored_policies := expired_lst |}.

(** [SCAConfig.validate_ignored_vulns] *)
Definition validate_ignored_vulns (now : Z) (data : SCAConfig) : M SCAConfig :=
  run swept := lift (remove_expired_elements now (ignored_vulnerabilities data)) in
  let expired_lst := snd swept in
  run _ := report_expired_elements expired_lst in
  ret {| sca_ignored_paths := sca_ignored_paths data;
         sca_minimum_severity := sca_minimum_severity data;
         ignored_vulnerabilities := fst swept;
         ignore_not_fixable := ignore_not_fixable data;
         ignore_fixable := ignore_fixable data |}.
End hooks.

End UserConfig.
Import UserConfig.
(** * Properties *)

Example replace_in_keys_nested :
  replace_in_keys "_" "-"
    (VDict [("a_b", VList [VDict [("c_d", VInt 1); ("e", VNull)]]); ("f", VStr "x_y")])
  = VDict [("f", VStr "x_y"); ("a-b", VList [VDict [("e", VNull); ("c-d", VInt 1)]])].
Proof. reflexivity. Qed.

Example replace_in_keys_collision :
  replace_in_keys "_" "-" (VDict [("a_b", VInt 1); ("a-b", VInt 2)])
  = VDict [("a-b", VInt 1)].
Proof. reflexivity. Qed.

(** ** Strings and characters *)

Section chars.
Variables old new : ascii.

Lemma contains_replace_old s : old <> new -> contains old (replace old new s) = false.
Proof.
  intros Hne. induction s as [|a s IH]; simpl; [done|].
  rewrite IH, orb_false_r.
  destruct (Ascii.eqb_spec a old) as [->|Ha].
  - apply Ascii.eqb_neq. congruence.
  - by apply Ascii.eqb_neq.
Qed.

Lemma contains_replace_new s :
  contains old s = true -> contains new (replace old new s) = true.
Proof.
  induction s as [|a s IH]; simpl; [done|].
  destruct (Ascii.eqb_spec a old) as [->|Ha]; simpl.
  - by rewrite Ascii.eqb_refl.
  - intros H. rewrite (IH H). apply orb_true_r.
Qed.

Lemma replace_absent s : contains old s = false -> replace old new s = s.
Proof.
  induction s as [|a s IH]; simpl; [done|].
  intros [Ha Hs]%orb_false_iff. by rewrite Ha, IH.
Qed.

Lemma replace_back s : contains new s = false -> replace new old (replace old new s) = s.
Proof.
  induction s as [|a s IH]; simpl; [done|].
  intros [Ha Hs]%orb_false_iff. rewrite (IH Hs). f_equal.
  destruct (Ascii.eqb_spec a old) as [->|Hao].
  - by rewrite Ascii.eqb_refl.
  - by rewrite Ha.
Qed.

Lemma replace_injective s t :
  contains new s = false -> contains new t = false ->
  replace old new s = replace old new t -> s = t.
Proof.
  intros Hs Ht Heq.
  rewrite <- (replace_back s Hs), <- (replace_back t Ht). by rewrite Heq.
Qed.
End chars.

(** ** Dictionaries as association lists *)

Lemma dict_get_None key d : dict_get key d = None <-> key ∉ keys d.
Proof.
  induction d as [|[k v] d IH]; simpl.
  - split; [intros _; apply not_elem_of_nil | done].
  - rewrite not_elem_of_cons. destruct (String.eqb_spec k key) as [->|Hk].
    + split; [done | intros [? _]; done].
    + rewrite IH. split; [intros ?; split; [congruence | done] | intros [_ ?]; done].
Qed.

Lemma dict_get_Some_elem key v d : dict_get key d = Some v -> (key, v) ∈ d.
Proof.
  induction d as [|[k w] d IH]; simpl; [done|].
  destruct (String.eqb_spec k key) as [->|Hk].
  - intros [= ->]. apply list_elem_of_here.
  - intros H. apply list_elem_of_further; auto.
Qed.

Lemma dict_get_elem key v d : NoDup (keys d) -> (key, v) ∈ d -> dict_get key d = Some v.
Proof.
  induction d as [|[k w] d IH]; simpl.
  - intros _ H. by apply elem_of_nil in H.
  - intros [Hk Hd]%NoDup_cons [Heq|Hin]%elem_of_cons.
    + injection Heq as -> ->. by rewrite String.eqb_refl.
    + destruct (String.eqb_spec k key) as [->|Hne]; [|auto].
      exfalso. unfold keys. apply (list_elem_of_fmap_2 fst) in Hin. done.
Qed.

Lemma dict_get_app key d1 d2 :
  dict_get key (d1 ++ d2) =
  match dict_get key d1 with Some v => Some v | None => dict_get key d2 end.
Proof.
  induction d1 as [|[k w] d1 IH]; simpl; [done|].
  by destruct (String.eqb k key).
Qed.

Lemma dict_remove_app key d1 d2 :
  key ∉ keys d1 -> dict_remove key (d1 ++ d2) = d1 ++ dict_remove key d2.
Proof.
  induction d1 as [|[k w] d1 IH]; simpl; [done|].
  intros [Hk Hd]%not_elem_of_cons.
  destruct (String.eqb_spec k key) as [->|_]; [done|]. by rewrite IH.
Qed.

Lemma dict_set_fresh key v d : key ∉ keys d -> dict_set key v d = d ++ [(key, v)].
Proof.
  induction d as [|[k w] d IH]; simpl; [done|].
  intros [Hk Hd]%not_elem_of_cons.
  destruct (String.eqb_spec k key) as [->|_]; [done|]. by rewrite IH.
Qed.

Lemma dict_get_set key k v d :
  dict_get key (dict_set k v d) = if String.eqb k key then Some v else dict_get key d.
Proof.
  induction d as [|[k' w] d IH]; simpl.
  - by destruct (String.eqb k key).
  - destruct (String.eqb_spec k' k) as [->|Hk]; simpl.
    + by destruct (String.eqb k key).
    + destruct (String.eqb_spec k' key) as [->|Hk'].
      * destruct (String.eqb_spec k key) as [->|_]; done.
      * done.
Qed.

Lemma dict_get_remove_ne key k d :
  k <> key -> dict_get key (dict_remove k d) = dict_get key d.
Proof.
  intros Hne. induction d as [|[k' w] d IH]; simpl; [done|].
  destruct (String.eqb_spec k' k) as [->|Hk]; simpl.
  - destruct (String.eqb_spec k key); [done | done].
  - by rewrite IH.
Qed.

Lemma keys_dict_set key v d :
  keys (dict_set key v d) = if dict_mem key d then keys d else keys d ++ [key].
Proof.
  unfold dict_mem. induction d as [|[k w] d IH]; simpl; [done|].
  destruct (String.eqb_spec k key) as [->|Hk]; simpl; [done|].
  rewrite IH. by destruct (dict_get key d).
Qed.

(** ** Key rewriting *)

Section rename.
Variables old new : ascii.

Lemma rename_key_mem d key k :
  k <> key -> dict_mem k d = true -> dict_mem k (rename_key old new d key) = true.
Proof.
  intros Hne Hk. unfold rename_key, dict_pop.
  destruct (contains old key); [|done].
  destruct (dict_get key d) as [v|]; [|done].
  unfold dict_mem in *. rewrite dict_get_set.
  destruct (String.eqb _ k); [done|].
  rewrite dict_get_remove_ne; [done | congruence].
Qed.

(** A key of the snapshot is still in the mapping when its turn comes: no
    earlier turn removes it. *)
Lemma rename_keys_pop_found earlier k d :
  k ∉ earlier -> dict_mem k d = true ->
  dict_mem k (rename_keys old new earlier d) = true.
Proof.
  revert d. induction earlier as [|key ks IH]; intros d Hk Hd; [done|].
  apply not_elem_of_cons in Hk as [Hne Hk]. simpl.
  apply IH; [done|]. by apply rename_key_mem.
Qed.

(** A key holding neither character survives every turn. *)
Lemma rename_keys_get_neutral snapshot d k :
  contains old k = false -> contains new k = false ->
  dict_get k (rename_keys old new snapshot d) = dict_get k d.
Proof.
  intros Ho Hn. revert d.
  induction snapshot as [|key ks IH]; intros d; [done|].
  simpl. rewrite IH. unfold rename_key, dict_pop.
  destruct (contains old key) eqn:Hkey; [|done].
  destruct (dict_get key d) as [v|]; [|done].
  rewrite dict_get_set.
  destruct (String.eqb_spec (replace old new key) k) as [Heq|_].
  - apply (contains_replace_new old new) in Hkey. congruence.
  - apply dict_get_remove_ne. congruence.
Qed.

Lemma rename_keys_cons key snapshot d :
  rename_keys old new (key :: snapshot) d
  = rename_keys old new snapshot (rename_key old new d key).
Proof. reflexivity. Qed.

Local Abbreviation stays := (fun kv : string * value => contains old kv.1 = false).
Local Abbreviation moves := (fun kv : string * value => contains old kv.1 = true).
Local Abbreviation moved := (fun kv : string * value => (replace old new kv.1, kv.2)).

Lemma rename_keys_pending (done_ pending : dict) :
  old <> new ->
  NoDup (keys (done_ ++ pending)) ->
  Forall (fun k => contains new k = false) (keys (done_ ++ pending)) ->
  rename_keys old new (keys pending)
    (filter stays done_ ++ pending ++ (moved <$> filter moves done_))
  = filter stays (done_ ++ pending) ++ (moved <$> filter moves (done_ ++ pending)).
Proof.
  intros Hne. revert done_.
  induction pending as [|[k v] pending IH]; intros done_ Hnd Hav.
  { simpl. by rewrite !app_nil_r. }
  assert (Hstep : rename_key old new
            (filter stays done_ ++ ((k, v) :: pending) ++ (moved <$> filter moves done_)) k
          = filter stays (done_ ++ [(k, v)]) ++ pending
              ++ (moved <$> filter moves (done_ ++ [(k, v)]))).
  { unfold keys in Hnd, Hav. rewrite fmap_app, fmap_cons in Hnd, Hav.
    apply NoDup_app in Hnd as (Hnd1 & Hdisj & Hnd2).
    apply NoDup_cons in Hnd2 as [Hk2 Hnd2].
    assert (Hk1 : k ∉ done_.*1).
    { intros Hin. apply (Hdisj _ Hin). apply list_elem_of_here. }
    apply Forall_app in Hav as [Hav1 Hav2].
    apply Forall_cons in Hav2 as [Havk Hav2]. simpl in Havk.
    rewrite !filter_app. unfold rename_key.
    destruct (contains old k) eqn:Hold.
    - assert (HkA : k ∉ keys (filter stays done_)).
      { intros (kv & -> & Hin)%list_elem_of_fmap.
        apply list_elem_of_filter in Hin as [_ Hin].
        apply Hk1. by apply (list_elem_of_fmap_2 fst) in Hin. }
      unfold dict_pop. rewrite dict_get_app.
      apply dict_get_None in HkA as Hget. rewrite Hget. simpl.
      rewrite String.eqb_refl. rewrite dict_remove_app by done. simpl.
      rewrite String.eqb_refl.
      rewrite dict_set_fresh.
      + rewrite filter_cons_False, filter_nil, app_nil_r by (simpl; congruence).
        rewrite (filter_cons_True moves) by done. rewrite filter_nil.
        rewrite fmap_app. simpl. by rewrite <- !app_assoc.
      + unfold keys. rewrite !fmap_app. rewrite !elem_of_app.
        pose proof (contains_replace_new old new k Hold) as Hrn.
        intros [Hin|[Hin|Hin]].
        * apply list_elem_of_fmap in Hin as (kv & Heq & Hin).
          apply list_elem_of_filter in Hin as [_ Hin].
          rewrite Forall_forall in Hav1.
          specialize (Hav1 kv.1 (list_elem_of_fmap_2 fst _ _ Hin)).
          rewrite <- Heq in Hav1. congruence.
        * rewrite Forall_forall in Hav2. specialize (Hav2 _ Hin). congruence.
        * rewrite <- list_fmap_compose in Hin.
          apply list_elem_of_fmap in Hin as (kv & Heq & Hin). simpl in Heq.
          apply list_elem_of_filter in Hin as [_ Hin].
          apply (list_elem_of_fmap_2 fst) in Hin.
          rewrite Forall_forall in Hav1.
          apply replace_injective in Heq; [| done | by apply Hav1].
          apply Hk1. by rewrite Heq.
    - rewrite (filter_cons_True stays) by done.
      rewrite (filter_cons_False moves) by (simpl; congruence).
      rewrite !filter_nil, app_nil_r. by rewrite <- !app_assoc. }
  change (keys ((k, v) :: pending)) with (k :: keys pending).
  rewrite rename_keys_cons, Hstep.
  replace (done_ ++ (k, v) :: pending) with ((done_ ++ [(k, v)]) ++ pending)
    in * by (by rewrite <- app_assoc).
  by apply IH.
Qed.

(** On a mapping whose keys are distinct and free of [new], the loop keeps
    the keys without [old] where they are and moves the others, renamed,
    behind them. *)
Lemma rename_keys_partition (d : dict) :
  old <> new -> NoDup (keys d) ->
  Forall (fun k => contains new k = false) (keys d) ->
  rename_keys old new (keys d) d = filter stays d ++ (moved <$> filter moves d).
Proof.
  intros Hne Hnd Hav.
  pose proof (rename_keys_pending [] d Hne Hnd Hav) as H.
  simpl in H. by rewrite app_nil_r in H.
Qed.
End rename.

Section filters.
Context {A : Type} (P : A -> Prop) `{!forall x, Decision (P x)}.

Lemma filter_all l : Forall P l -> filter P l = l.
Proof.
  induction 1 as [|x l Hx _ IH]; [done|].
  by rewrite filter_cons_True, IH.
Qed.

Lemma filter_none l : Forall (fun x => ~ P x) l -> filter P l = [].
Proof.
  induction 1 as [|x l Hx _ IH]; [done|].
  by rewrite filter_cons_False.
Qed.
End filters.

Lemma keys_on_values f (d : dict) : keys (on_values f <$> d) = keys d.
Proof. unfold keys. rewrite <- list_fmap_compose. done. Qed.

Lemma filter_on_values (P : string * value -> Prop) `{!forall x, Decision (P x)} f (d : dict) :
  (forall kv, P (on_values f kv) <-> P kv) ->
  filter P (on_values f <$> d) = on_values f <$> filter P d.
Proof.
  intros HP. induction d as [|kv d IH]; [done|].
  rewrite fmap_cons, !filter_cons, IH.
  specialize (HP kv).
  destruct (decide (P kv)) as [Hkv|Hkv], (decide (P (on_values f kv))) as [Hkv'|Hkv'];
    tauto || done.
Qed.

Lemma keys_filter_sub (P : string * value -> Prop) `{!forall x, Decision (P x)} (d : dict) k :
  k ∈ keys (filter P d) -> k ∈ keys d.
Proof.
  intros (kv & -> & Hin)%list_elem_of_fmap.
  apply list_elem_of_filter in Hin as [_ Hin]. by apply list_elem_of_fmap_2.
Qed.

Lemma NoDup_keys_filter (P : string * value -> Prop) `{!forall x, Decision (P x)} (d : dict) :
  NoDup (keys d) -> NoDup (keys (filter P d)).
Proof.
  induction d as [|[k v] d IH]; [done|].
  unfold keys in *. rewrite fmap_cons. intros [Hk Hd]%NoDup_cons.
  rewrite filter_cons. destruct (decide (P (k, v))); [|auto].
  rewrite fmap_cons. apply NoDup_cons. split; [|auto].
  intros Hin. apply Hk. by eapply (keys_filter_sub P).
Qed.

(** The two rewrites in a row, on one mapping: every entry is back under
    its own key, the entries whose key has an underscore now coming last. *)
Lemma round_trip_dict (d : dict) :
  NoDup (keys d) ->
  Forall (fun k => contains "-" k = false) (keys d) ->
  replace_in_keys "-" "_" (replace_in_keys "_" "-" (VDict d))
  = VDict (on_values (fun v => replace_in_keys "-" "_" (replace_in_keys "_" "-" v))
             <$> (filter (fun kv => contains "_" kv.1 = false) d
                  ++ filter (fun kv => contains "_" kv.1 = true) d)).
Proof.
  intros Hnd Hav.
  set (r1 := replace_in_keys "_" "-"). set (r2 := replace_in_keys "-" "_").
  assert (Hne : "_"%char <> "-"%char) by done.
  assert (Hne' : "-"%char <> "_"%char) by done.
  change (r1 (VDict d))
    with (VDict (rename_keys "_" "-" (keys d) (on_values r1 <$> d))).
  rewrite <- (keys_on_values r1 d) at 1.
  rewrite rename_keys_partition; [| done | by rewrite keys_on_values | by rewrite keys_on_values].
  rewrite !filter_on_values by done.
  set (S := filter (fun kv => contains "_" kv.1 = false) d).
  set (M := filter (fun kv => contains "_" kv.1 = true) d).
  set (mv := fun kv : string * value => (replace "_" "-" kv.1, kv.2)).
  set (D1 := (on_values r1 <$> S) ++ (mv <$> (on_values r1 <$> M))).
  change (r2 (VDict D1)) with (VDict (rename_keys "-" "_" (keys D1) (on_values r2 <$> D1))).
  rewrite <- (keys_on_values r2 D1) at 1.
  assert (HavS : Forall (fun kv : string * value => contains "-" kv.1 = false) S).
  { apply Forall_forall. intros kv [_ Hin]%list_elem_of_filter.
    rewrite Forall_forall in Hav. apply Hav. by apply list_elem_of_fmap_2. }
  assert (HavM : Forall (fun kv : string * value => contains "-" kv.1 = false) M).
  { apply Forall_forall. intros kv [_ Hin]%list_elem_of_filter.
    rewrite Forall_forall in Hav. apply Hav. by apply list_elem_of_fmap_2. }
  assert (HM : Forall (fun kv : string * value => contains "_" kv.1 = true) M).
  { apply Forall_forall. by intros kv [? _]%list_elem_of_filter. }
  assert (HkD1 : keys D1 = keys S ++ (replace "_" "-" <$> keys M)).
  { unfold D1, keys. rewrite fmap_app, <- !list_fmap_compose. done. }
  rewrite rename_keys_partition; [| done | |]; rewrite ?keys_on_values.
  - rewrite !filter_on_values by done.
    unfold D1. rewrite !filter_app.
    rewrite (filter_all (fun kv => contains "-" kv.1 = false) (on_values r1 <$> S)).
    2:{ apply Forall_fmap. exact HavS. }
    rewrite (filter_none (fun kv => contains "-" kv.1 = false) (mv <$> (on_values r1 <$> M))).
    2:{ rewrite <- list_fmap_compose. apply Forall_fmap.
        eapply Forall_impl; [exact HM|]. intros kv Hkv. simpl.
        rewrite (contains_replace_new "_" "-" _ Hkv). done. }
    rewrite (filter_none (fun kv => contains "-" kv.1 = true) (on_values r1 <$> S)).
    2:{ apply Forall_fmap. eapply Forall_impl; [exact HavS|].
        intros kv Hkv. simpl in *. congruence. }
    rewrite (filter_all (fun kv => contains "-" kv.1 = true) (mv <$> (on_values r1 <$> M))).
    2:{ rewrite <- list_fmap_compose. apply Forall_fmap.
        eapply Forall_impl; [exact HM|]. intros kv Hkv. simpl.
        by apply contains_replace_new. }
    rewrite !app_nil_r, app_nil_l. f_equal.
    rewrite !fmap_app, <- !list_fmap_compose. f_equal.
    apply Forall_fmap_ext_1. eapply Forall_impl; [exact HavM|].
    intros [k v] Hk. simpl in *. unfold on_values. simpl.
    by rewrite replace_back.
  - rewrite HkD1. apply NoDup_app. split; [by apply NoDup_keys_filter|]. split.
    + intros k Hk (k' & -> & Hk')%list_elem_of_fmap.
      apply list_elem_of_fmap in Hk as (kv & Hkv & Hin).
      rewrite Forall_forall in HavS. specialize (HavS _ Hin).
      apply list_elem_of_fmap in Hk' as (kv' & -> & Hin').
      rewrite Forall_forall in HM. specialize (HM _ Hin').
      apply (contains_replace_new "_" "-") in HM. congruence.
    + apply NoDup_fmap_2_strong; [|by apply NoDup_keys_filter].
      intros x y Hx Hy. apply replace_injective.
      * apply list_elem_of_fmap in Hx as (kv & -> & Hin).
        rewrite Forall_forall in HavM. by apply HavM.
      * apply list_elem_of_fmap in Hy as (kv & -> & Hin).
        rewrite Forall_forall in HavM. by apply HavM.
  - rewrite HkD1. apply Forall_app. split.
    + apply Forall_fmap. apply Forall_forall. by intros kv [? _]%list_elem_of_filter.
    + apply Forall_fmap. apply Forall_forall. intros k _. simpl.
      by apply contains_replace_old.
Qed.

Example key_paths_nested :
  key_paths (VDict [("a_b", VList [VInt 0; VDict [("c_d", VInt 1)]]); ("f", VDict [("g", VNull)])])
  = [[Key "a_b"]; [Key "a_b"; Idx 1; Key "c_d"]; [Key "f"]; [Key "f"; Key "g"]].
Proof. reflexivity. Qed.

Lemma indexed_paths_ext (f g : value -> list (list step)) i l :
  Forall (fun x => forall p, p ∈ f x <-> p ∈ g x) l ->
  forall p, p ∈ indexed_paths f i l <-> p ∈ indexed_paths g i l.
Proof.
  intros H. revert i. induction H as [|x l Hx _ IH]; intros i p; [done|].
  simpl. rewrite !elem_of_app, !list_elem_of_fmap, IH.
  split; (intros [(q & -> & Hq)|?]; [left; exists q; split; [done|by apply Hx] | by right]).
Qed.

Lemma indexed_paths_fmap (f : value -> list (list step)) (g : value -> value) i l :
  indexed_paths f i (g <$> l) = indexed_paths (f ∘ g) i l.
Proof. revert i. induction l as [|x l IH]; intros i; simpl; [done|]. by rewrite IH. Qed.

Lemma wf_dict d :
  wf (VDict d) = true <-> NoDup (keys d) /\ Forall (fun kv => wf kv.2 = true) d.
Proof.
  simpl. rewrite andb_true_iff, bool_decide_eq_true, forallb_forall, Forall_forall.
  split; intros [? H]; (split; [done|]); intros x Hx; apply H; by apply list_elem_of_In.
Qed.

Lemma keys_avoid_dict c d :
  keys_avoid c (VDict d) = true
  <-> Forall (fun k => contains c k = false) (keys d)
      /\ Forall (fun kv => keys_avoid c kv.2 = true) d.
Proof.
  simpl. unfold keys. rewrite forallb_forall, Forall_fmap, !Forall_forall. split.
  - intros H. split; intros x Hx%list_elem_of_In; apply H in Hx;
      apply andb_true_iff in Hx as [Hx ?]; [|done].
    simpl. by apply negb_true_iff in Hx.
  - intros [H1 H2] x Hx%list_elem_of_In. apply andb_true_iff. split; [|by apply H2].
    apply negb_true_iff. by apply H1.
Qed.

(** On a well-formed structure none of whose keys holds a hyphen, the two
    rewrites in a row give back every key, at every depth. *)
Lemma round_trip_key_paths v :
  wf v = true -> keys_avoid "-" v = true ->
  forall p, p ∈ key_paths (replace_in_keys "-" "_" (replace_in_keys "_" "-" v))
            <-> p ∈ key_paths v.
Proof.
  induction v as [| | | |l IH| |d IH] using value_nested_ind; try done.
  - intros Hwf Hav p.
    change (replace_in_keys "-" "_" (replace_in_keys "_" "-" (VList l)))
      with (VList (replace_in_keys "-" "_" <$> (replace_in_keys "_" "-" <$> l))).
    rewrite <- list_fmap_compose. simpl. rewrite indexed_paths_fmap.
    apply indexed_paths_ext.
    simpl in Hwf, Hav. rewrite forallb_forall in Hwf, Hav.
    rewrite Forall_forall in IH |- *. intros x Hx q.
    apply IH; [done | |]; [apply Hwf | apply Hav]; by apply list_elem_of_In.
  - intros [Hnd Hwf]%wf_dict [Hk Hav]%keys_avoid_dict p.
    rewrite round_trip_dict by done.
    simpl. rewrite !list_elem_of_bind.
    rewrite Forall_forall in IH, Hwf, Hav.
    split.
    + intros (kv & Hp & Hin).
      apply list_elem_of_fmap in Hin as ([k v] & -> & Hin).
      assert ((k, v) ∈ d) as Hd.
      { apply elem_of_app in Hin as [Hin|Hin];
          by apply list_elem_of_filter in Hin as [_ ?]. }
      exists (k, v). split; [|done]. simpl in *.
      apply elem_of_cons in Hp as [->|Hp]; [apply list_elem_of_here|].
      apply list_elem_of_further.
      apply list_elem_of_fmap in Hp as (q & -> & Hq). apply list_elem_of_fmap_2.
      apply (IH _ Hd); [by apply (Hwf _ Hd) | by apply (Hav _ Hd) | done].
    + intros ([k v] & Hp & Hd).
      exists (on_values (fun v => replace_in_keys "-" "_" (replace_in_keys "_" "-" v)) (k, v)).
      split.
      * simpl in *. apply elem_of_cons in Hp as [->|Hp]; [apply list_elem_of_here|].
        apply list_elem_of_further.
        apply list_elem_of_fmap in Hp as (q & -> & Hq). apply list_elem_of_fmap_2.
        apply (IH _ Hd); [by apply (Hwf _ Hd) | by apply (Hav _ Hd) | done].
      * apply list_elem_of_fmap_2. apply elem_of_app.
        destruct (contains "_" k) eqn:Hc; [right|left];
          apply list_elem_of_filter; by split.
Qed.

(** A key holding neither character keeps its place in the rewritten
    mapping, with its value rewritten. *)
Lemma replace_in_keys_neutral_key old new d k :
  contains old k = false -> contains new k = false ->
  exists d', replace_in_keys old new (VDict d) = VDict d' /\
             dict_get k d' = replace_in_keys old new <$> dict_get k d.
Proof.
  intros Ho Hn. eexists. split; [reflexivity|].
  rewrite rename_keys_get_neutral by done.
  induction d as [|[k' v] d IH]; simpl; [done|].
  by destruct (String.eqb k' k).
Qed.

(** C8 (as amended). On every well-formed nested structure of mappings and
    sequences none of whose keys holds a hyphen, rewriting underscores to
    hyphens and then hyphens to underscores reproduces the keys of every
    mapping at every depth, the mappings inside sequences included; and in
    either direction (indeed for any pair of characters) a key that holds
    neither character stays a key of the rewritten mapping, bound to the
    rewritten value. *)
Theorem replace_in_keys_round_trip :
  (forall v, wf v = true -> keys_avoid "-" v = true ->
     forall p, p ∈ key_paths (replace_in_keys "-" "_" (replace_in_keys "_" "-" v))
               <-> p ∈ key_paths v)
  /\ (forall old new d k,
        contains old k = false -> contains new k = false ->
        exists d', replace_in_keys old new (VDict d) = VDict d' /\
                   dict_get k d' = replace_in_keys old new <$> dict_get k d).
Proof.
  split.
  - apply round_trip_key_paths.
  - apply replace_in_keys_neutral_key.
Qed.

Lemma replace_in_keys_round_trip_witness :
  let d := [("ignored_paths", VList [VDict [("max_depth", VInt 1); ("path", VStr "a")]]);
            ("verbose", VBool true)] in
  (forall p, p ∈ key_paths (replace_in_keys "-" "_" (replace_in_keys "_" "-" (VDict d)))
             <-> p ∈ key_paths (VDict d))
  /\ (exists d', replace_in_keys "_" "-" (VDict d) = VDict d' /\
                 dict_get "verbose" d' = Some (VBool true)).
Proof.
  intros d. split.
  - apply (proj1 replace_in_keys_round_trip); reflexivity.
  - exact (proj2 replace_in_keys_round_trip "_"%char "-"%char d "verbose" eq_refl eq_refl).
Defined.

(** C8 as stated fails on a key that already holds a hyphen: the second
    rewrite turns it into an underscore. *)
Lemma replace_in_keys_round_trip_hyphen :
  let v := VDict [("a-b", VInt 1)] in
  wf v = true
  /\ key_paths v = [[Key "a-b"]]
  /\ key_paths (replace_in_keys "-" "_" (replace_in_keys "_" "-" v)) = [[Key "a_b"]]
  /\ ~ (forall p, p ∈ key_paths (replace_in_keys "-" "_" (replace_in_keys "_" "-" v))
                  <-> p ∈ key_paths v).
Proof.
  repeat split.
  intros H. specialize (H [Key "a_b"]). simpl in H.
  assert (Hin : [Key "a_b"] ∈ [[Key "a-b"]]) by (apply H, list_elem_of_here).
  apply list_elem_of_singleton in Hin. discriminate.
Qed.

(** ** Expiry sweep *)

Section expiry_facts.
Context {A : Type} `{ConfigIgnoredElement A}.

Lemma until_passed_aware now (x : A) :
  until_aware x = true -> until_passed now x = Ok (is_expired now x).
Proof.
  unfold until_aware, until_passed, is_expired.
  by destruct (until x) as [[c|t off]|].
Qed.

(** The state of the loop when the elements of [todo] are still to be
    visited and those of [kept] have been visited and kept. *)
Lemma sweep_visited now (todo kept expired : list A) :
  Forall (fun x => until_aware x = true) todo ->
  sweep now (length todo) (todo ++ kept) expired
  = Ok (filter (fun x => is_expired now x = false) todo ++ kept,
        filter (fun x => is_expired now x = true) todo ++ expired).
Proof.
  revert kept expired.
  induction todo as [|x todo IH] using rev_ind; intros kept expired Haware; [done|].
  apply Forall_app in Haware as [Htodo Hx]. rewrite Forall_singleton in Hx.
  rewrite length_app, Nat.add_comm. simpl.
  rewrite <- app_assoc. simpl.
  rewrite list_lookup_middle by done.
  rewrite (until_passed_aware now x Hx). simpl.
  rewrite !filter_app.
  destruct (is_expired now x) eqn:Hexp.
  - rewrite delete_middle. rewrite IH by done.
    rewrite (filter_cons_False (fun x => is_expired now x = false)) by congruence.
    rewrite (filter_cons_True (fun x => is_expired now x = true)) by done.
    rewrite !filter_nil, app_nil_r, <- app_assoc. done.
  - rewrite IH by done.
    rewrite (filter_cons_True (fun x => is_expired now x = false)) by done.
    rewrite (filter_cons_False (fun x => is_expired now x = true)) by congruence.
    rewrite !filter_nil, app_nil_r, <- app_assoc. done.
Qed.

Lemma remove_expired_elements_filter now (lst : list A) :
  Forall (fun x => until_aware x = true) lst ->
  remove_expired_elements now lst
  = Ok (filter (fun x => is_expired now x = false) lst,
        filter (fun x => is_expired now x = true) lst).
Proof.
  intros Haware. unfold remove_expired_elements.
  pose proof (sweep_visited now lst [] [] Haware) as Hs.
  by rewrite !app_nil_r in Hs.
Qed.

Lemma filter_split_length (f : A -> bool) (l : list A) :
  (length (filter (fun x => f x = false) l) + length (filter (fun x => f x = true) l)
   = length l)%nat.
Proof.
  induction l as [|x l IH]; [done|].
  rewrite !filter_cons. destruct (f x) eqn:Hf; simpl.
  - destruct (decide (true = false)); [done|].
    destruct (decide (true = true)); [|done]. simpl. lia.
  - destruct (decide (false = false)); [|done].
    destruct (decide (false = true)); [done|]. simpl. lia.
Qed.

(** C3. For every list of ignore elements (each [until] absent or aware,
    as loading leaves it), of length n with k expired elements, the sweep
    leaves the n-k elements that are not expired in the list, in their
    original order, and returns the k expired ones, in their original
    order; no element is in both groups and every element is in one. *)
Theorem remove_expired_elements_partition now (lst : list A) :
  Forall (fun x => until_aware x = true) lst ->
  let k := length (filter (fun x => is_expired now x = true) lst) in
  exists active expired,
    remove_expired_elements now lst = Ok (active, expired)
    /\ active = filter (fun x => is_expired now x = false) lst
    /\ expired = filter (fun x => is_expired now x = true) lst
    /\ active `sublist_of` lst /\ expired `sublist_of` lst
    /\ length active = (length lst - k)%nat
    /\ length expired = k
    /\ (forall x, x ∈ active -> x ∉ expired)
    /\ (forall x, x ∈ lst -> x ∈ active \/ x ∈ expired).
Proof.
  intros Haware k. eexists _, _. split; [by apply remove_expired_elements_filter|].
  split; [done|]. split; [done|].
  split; [apply sublist_filter; apply _|]. split; [apply sublist_filter; apply _|].
  pose proof (filter_split_length (is_expired now) lst) as Hlen.
  split; [unfold k; lia|]. split; [done|]. split.
  - intros x [Hx _]%list_elem_of_filter [Hx' _]%list_elem_of_filter. congruence.
  - intros x Hx. rewrite !list_elem_of_filter.
    destruct (is_expired now x); [right|left]; done.
Qed.
End expiry_facts.

Lemma remove_expired_elements_partition_witness :
  let p1 := {| iac_path := "a"; iac_path_comment := None;
               iac_path_until := Some (Aware 100 0) |} in
  let p2 := {| iac_path := "b"; iac_path_comment := None; iac_path_until := None |} in
  let p3 := {| iac_path := "c"; iac_path_comment := Some "old";
               iac_path_until := Some (Aware 50 0) |} in
  let p4 := {| iac_path := "d"; iac_path_comment := None;
               iac_path_until := Some (Aware 300 0) |} in
  remove_expired_elements 200 [p1; p2; p3; p4] = Ok ([p2; p4], [p1; p3]).
Proof.
  intros p1 p2 p3 p4.
  destruct (remove_expired_elements_partition 200 [p1; p2; p3; p4])
    as (active & expired & Hrun & -> & -> & _).
  - repeat constructor.
  - exact Hrun.
Defined.

(** ** Ignored matches *)

Lemma match_backfill_name m secret : match_ (backfill_name m secret) = match_ m.
Proof. unfold backfill_name. by destruct (unnamed m). Qed.

Lemma add_to_matches_keys matches secret :
  match_ <$> add_to_matches matches secret
  = if bool_decide (match_ secret ∈ match_ <$> matches)
    then match_ <$> matches
    else (match_ <$> matches) ++ [match_ secret].
Proof.
  induction matches as [|m rest IH]; [done|].
  cbn [add_to_matches]. rewrite (fmap_cons _ m rest).
  destruct (String.eqb_spec (match_ m) (match_ secret)) as [Heq|Hne].
  - rewrite fmap_cons, match_backfill_name, bool_decide_eq_true_2; [done|].
    rewrite Heq. apply list_elem_of_here.
  - rewrite fmap_cons, IH. destruct (bool_decide (match_ secret ∈ match_ <$> rest)) eqn:Hin.
    + apply bool_decide_eq_true in Hin.
      rewrite bool_decide_eq_true_2; [done | by apply list_elem_of_further].
    + apply bool_decide_eq_false in Hin.
      rewrite bool_decide_eq_false_2; [done|].
      apply not_elem_of_cons. split; [congruence | done].
Qed.

Lemma add_to_matches_known matches secret i m :
  NoDup (match_ <$> matches) ->
  matches !! i = Some m -> match_ m = match_ secret ->
  add_to_matches matches secret = <[i := backfill_name m secret]> matches.
Proof.
  revert i. induction matches as [|m' rest IH]; intros i Hnd Hi Hm; [done|].
  rewrite fmap_cons in Hnd. apply NoDup_cons in Hnd as [Hm' Hnd]. simpl.
  destruct i as [|i]; simpl in *.
  - injection Hi as ->. by rewrite Hm, String.eqb_refl.
  - destruct (String.eqb_spec (match_ m') (match_ secret)) as [Heq|_].
    + exfalso. apply Hm'. rewrite Heq, <- Hm.
      apply list_elem_of_fmap_2. by eapply list_elem_of_lookup_2.
    + f_equal. by apply IH.
Qed.

Lemma add_to_matches_fresh matches secret :
  match_ secret ∉ match_ <$> matches ->
  add_to_matches matches secret = matches ++ [secret].
Proof.
  induction matches as [|m rest IH]; simpl; [done|].
  intros [Hne Hrest]%not_elem_of_cons.
  destruct (String.eqb_spec (match_ m) (match_ secret)) as [Heq|_]; [congruence|].
  by rewrite IH.
Qed.

(** C9. [add_ignored_match] keeps the ignored matches at one entry for each
    [match] value. Adding an entry whose [match] is already listed appends
    nothing: when the listed entry has a name that is not empty, the list
    stays as it is, whatever the name of the new entry; when the listed
    entry has no name or an empty one, it takes the name of the new entry
    and nothing else changes. Adding an entry with a new [match] value
    appends it. The other settings are left as they are. *)
Theorem add_ignored_match_one_per_match (self : SecretConfig) (secret : IgnoredMatch) :
  NoDup (match_ <$> ignored_matches self) ->
  let self' := add_ignored_match self secret in
  NoDup (match_ <$> ignored_matches self')
  /\ (forall i m,
        ignored_matches self !! i = Some m -> match_ m = match_ secret ->
        length (ignored_matches self') = length (ignored_matches self)
        /\ (forall n, name m = Some n -> n <> "" ->
            ignored_matches self' = ignored_matches self)
        /\ (name m = None \/ name m = Some "" ->
            ignored_matches self'
            = <[i := {| name := name secret; match_ := match_ m |}]> (ignored_matches self)))
  /\ (match_ secret ∉ match_ <$> ignored_matches self ->
      ignored_matches self' = ignored_matches self ++ [secret])
  /\ show_secrets self' = show_secrets self
  /\ ignored_detectors self' = ignored_detectors self
  /\ ignored_paths self' = ignored_paths self
  /\ ignore_known_secrets self' = ignore_known_secrets self.
Proof.
  intros Hnd self'. simpl. split; [|split; [|split; [|done]]].
  - rewrite add_to_matches_keys. case_bool_decide as Hin; [done|].
    apply NoDup_app. split; [done|]. split; [|apply NoDup_singleton].
    intros x Hx ->%list_elem_of_singleton. done.
  - intros i m Hi Hm. rewrite (add_to_matches_known _ _ i m) by done.
    split; [apply length_insert|]. unfold backfill_name, unnamed. split.
    + intros n -> Hn. destruct (String.eqb_spec n "") as [->|_]; [done|].
      by apply list_insert_id.
    + by intros [-> | ->].
  - apply add_to_matches_fresh.
Qed.

Lemma add_ignored_match_one_per_match_witness :
  let first := {| name := Some "aws"; match_ := "deadbeef" |} in
  let other := {| name := None; match_ := "cafe" |} in
  let self := {| show_secrets := false; ignored_detectors := ∅;
                 ignored_matches := [first; other];
                 ignored_paths := ∅; ignore_known_secrets := false |} in
  ignored_matches (add_ignored_match self {| name := Some "key"; match_ := "deadbeef" |})
  = [first; other]
  /\ ignored_matches (add_ignored_match self {| name := Some "token"; match_ := "cafe" |})
     = [first; {| name := Some "token"; match_ := "cafe" |}].
Proof.
  intros first other self.
  assert (Hnd : NoDup (match_ <$> ignored_matches self)).
  { simpl. apply NoDup_cons. split; [|apply NoDup_singleton].
    intros Hin%list_elem_of_singleton. discriminate. }
  split.
  - apply (proj1 (proj2 (proj1 (proj2 (add_ignored_match_one_per_match self
             {| name := Some "key"; match_ := "deadbeef" |} Hnd)) 0%nat first eq_refl eq_refl))
             "aws" eq_refl). discriminate.
  - apply (proj2 (proj2 (proj1 (proj2 (add_ignored_match_one_per_match self
             {| name := Some "token"; match_ := "cafe" |} Hnd)) 1%nat other eq_refl eq_refl))).
    by left.
Defined.

Example add_ignored_match_keeps_first_name :
  add_to_matches [{| name := Some "first"; match_ := "deadbeef" |}]
    {| name := Some "second"; match_ := "deadbeef" |}
  = [{| name := Some "first"; match_ := "deadbeef" |}].
Proof. reflexivity. Qed.

(** ** Merging layers *)

Example merge_sets :
  update_dict_from_other
    (VDict [("secret", VDict [("ignored_paths", VSet {["a"]})])])
    (VDict [("secret", VDict [("ignored_paths", VSet {["b"]})])])
  = Ok (VDict [("secret", VDict [("ignored_paths", VSet {["a"; "b"]})])]).
Proof. vm_compute. reflexivity. Qed.

Lemma fit_items_ext fits (d1 d2 items : dict) :
  (forall k, k ∈ keys items -> dict_get k d1 = dict_get k d2) ->
  fit_items fits d1 items = fit_items fits d2 items.
Proof.
  induction items as [|[k v] items IH]; intros Hk; [done|].
  unfold fit_items in *. simpl.
  rewrite (Hk k) by apply list_elem_of_here. f_equal.
  apply IH. intros k' Hk'. apply Hk. by apply list_elem_of_further.
Qed.

Lemma layers_fit_dict v cur :
  layers_fit v cur = true -> exists c, cur = VDict c.
Proof. destruct v, cur; try done. eauto. Qed.

Section merge_loop.
Local Abbreviation U := update_dict_from_other.
Local Abbreviation L := layers_fit.
Local Abbreviation merges := merge_returns.

(** One turn of the loop on a value that is not null. *)
Lemma merge_items_turn name v rest d :
  v <> VNull -> wf v = true -> merges v ->
  fit_items L d [(name, v)] = true ->
  exists x, merge_items U ((name, v) :: rest) (VDict d)
            = merge_items U rest (VDict (dict_set name x d))
            /\ merged_entry U (dict_get name d) v (Some x).
Proof.
  intros Hnull Hwf IH Hfit. unfold fit_items in Hfit. simpl in Hfit.
  rewrite andb_true_r in Hfit.
  destruct v as [|b|n|s|l|x|sub]; try done.
  - eexists. split; [reflexivity|done].
  - eexists. split; [reflexivity|done].
  - eexists. split; [reflexivity|done].
  - destruct (dict_get name d) as [[| | | |l0| |]|] eqn:Hget; try done.
    + eexists. split; [simpl; rewrite Hget; reflexivity|].
      exists l0. split; [by left | done].
    + eexists. split; [simpl; rewrite Hget; reflexivity|].
      exists []. split; [by right | done].
  - destruct (dict_get name d) as [[| | | | |x0|]|] eqn:Hget; try done.
    + eexists. split; [simpl; rewrite Hget; reflexivity|].
      exists x0. split; [by left | done].
    + eexists. split; [simpl; rewrite Hget; reflexivity|].
      exists ∅. split; [by right | done].
  - assert (exists c, (dict_get name d = Some (VDict c) \/ dict_get name d = None /\ c = [])
                      /\ layers_fit (VDict sub) (VDict c) = true) as (c & Hc & Hfitc).
    { destruct (dict_get name d) as [cur|] eqn:Hget.
      - destruct (layers_fit_dict _ _ Hfit) as [c ->]. exists c. split; [by left|done].
      - exists []. split; [by right|done]. }
    destruct (IH c Hwf Hfitc) as (c' & Hrun).
    exists (VDict c'). split.
    + simpl merge_items at 1. cbn [as_dict bind].
      replace (default (VDict []) (dict_get name d)) with (VDict c)
        by (destruct Hc as [->|[-> ->]]; done).
      change (merge_items _ sub (VDict c))
        with (update_dict_from_other (VDict c) (VDict sub)).
      rewrite Hrun. reflexivity.
    + exists c, (VDict c'). done.
Qed.

Lemma merge_items_entries (items : dict) :
  Forall (fun kv => merges kv.2) items ->
  forall d, NoDup (keys items) -> Forall (fun kv => wf kv.2 = true) items ->
  fit_items L d items = true ->
  exists d', merge_items U items (VDict d) = Ok (VDict d') /\
    forall name,
      match dict_get name items with
      | None => dict_get name d' = dict_get name d
      | Some v => merged_entry U (dict_get name d) v (dict_get name d')
      end.
Proof.
  induction 1 as [|[k v] items Hv _ IH]; intros d Hnd Hwf Hfit.
  { exists d. split; [done|]. by intros name. }
  unfold keys in Hnd. rewrite fmap_cons in Hnd. apply NoDup_cons in Hnd as [Hk Hnd].
  apply Forall_cons in Hwf as [Hwfv Hwf]. simpl in Hv, Hwfv.
  assert (Hfit1 : fit_items L d [(k, v)] = true /\ fit_items L d items = true).
  { unfold fit_items in *. simpl in *. apply andb_true_iff in Hfit as [-> ->]. done. }
  destruct Hfit1 as [Hfitv Hfit'].
  assert (Hrest : dict_get k items = None) by (by apply dict_get_None).
  assert (v = VNull \/ v <> VNull) as [->|Hnull] by (destruct v; auto).
  - destruct (IH d Hnd Hwf Hfit') as (d' & Hrun & Hspec).
    exists d'. split; [exact Hrun|]. intros name. simpl.
    destruct (String.eqb_spec k name) as [<-|Hne]; [|apply Hspec].
    specialize (Hspec k). by rewrite Hrest in Hspec.
  - destruct (merge_items_turn k v items d Hnull Hwfv Hv Hfitv) as (x & Hturn & Hentry).
    assert (Hfit1 : fit_items L (dict_set k x d) items = true).
    { rewrite <- Hfit'. apply fit_items_ext. intros k' Hk'.
      rewrite dict_get_set. destruct (String.eqb_spec k k') as [->|_]; done. }
    destruct (IH _ Hnd Hwf Hfit1) as (d' & Hrun & Hspec).
    exists d'. split; [by rewrite Hturn|]. intros name. simpl.
    destruct (String.eqb_spec k name) as [<-|Hne].
    + specialize (Hspec k). rewrite Hrest, dict_get_set, String.eqb_refl in Hspec.
      by rewrite Hspec.
    + specialize (Hspec name). rewrite dict_get_set in Hspec.
      destruct (String.eqb_spec k name) as [|_]; [done|]. exact Hspec.
Qed.

Lemma update_dict_from_other_total src : merges src.
Proof.
  induction src as [| | | | | |items IH] using value_nested_ind;
    try (intros d _ Hfit; discriminate).
  intros d [Hnd Hwf]%wf_dict Hfit.
  destruct (merge_items_entries items IH d Hnd Hwf Hfit) as (d' & Hrun & _). eauto.
Qed.
End merge_loop.




(** The global layer and then the local layer, merged into an empty mapping
    as [UserConfig.load] does. *)
Example merge_global_then_local :
  (let* layer := update_dict_from_other (VDict [])
                   (VDict [("instance", VStr "x"); ("exit_zero", VBool true);
                           ("secret", VDict [("ignored_paths", VSet {["a"]});
                                             ("ignored_matches", VList [VStr "m1"])])]) in
   update_dict_from_other layer
     (VDict [("instance", VStr "y"); ("exit_zero", VNull);
             ("secret", VDict [("ignored_paths", VSet {["b"]});
                               ("ignored_matches", VList [VStr "m2"])])]))
  = Ok (VDict [("instance", VStr "y"); ("exit_zero", VBool true);
               ("secret", VDict [("ignored_paths", VSet {["b"; "a"]});
                                 ("ignored_matches", VList [VStr "m1"; VStr "m2"])])]).
Proof. vm_compute. reflexivity. Qed.

(** A list of [src] met by a scalar of [dst] is an error, not a merge. *)
Example merge_kind_mismatch :
  update_dict_from_other (VDict [("a", VInt 1)]) (VDict [("a", VList [VInt 2])])
  = Raise AttributeError.
Proof. reflexivity. Qed.

(** ** Difference with the defaults *)

Section diff_loop.
Local Abbreviation D := remove_common_dict_items.
Local Abbreviation K := keys_covered.
Local Abbreviation M := mappings_matched.
Local Abbreviation returns := diff_returns.
Local Abbreviation fails := diff_fails.

Lemma diff_items_returns reference_dct items :
  Forall (fun kv => returns kv.2) items ->
  covered_items K reference_dct items = true ->
  forall result_dct, exists r, diff_items D reference_dct items result_dct = Ok (VDict r).
Proof.
  induction 1 as [|[key v] items Hv _ IH]; intros Hcov result_dct; [by eexists|].
  simpl in Hv. unfold covered_items in *. simpl in Hcov. apply andb_true_iff in Hcov as [Hhead Hcov].
  destruct reference_dct as [| | | | | |r]; try done.
  destruct (dict_get key r) as [rv|] eqn:Hget; [|done].
  cbn [diff_items subscript bind]. rewrite Hget. cbn [bind].
  destruct v as [| | | | | |sub];
    try (destruct (py_eq _ rv); apply IH; exact Hcov).
  destruct (Hv rv Hhead sub eq_refl) as (r' & Hrun).
  rewrite Hrun. cbn [bind].
  destruct (truthy (VDict r')); apply IH; exact Hcov.
Qed.

Lemma remove_common_dict_items_returns dct : returns dct.
Proof.
  induction dct as [| | | | | |items IH] using value_nested_ind;
    try (by intros ? _ ? [=]).
  intros reference_dct Hcov ? [= <-].
  by apply diff_items_returns.
Qed.

Lemma diff_items_fails reference_dct items :
  Forall (fun kv => fails kv.2) items ->
  covered_items K reference_dct items = false ->
  forall result_dct,
  exists e, diff_items D reference_dct items result_dct = Raise e
            /\ (matched_items M reference_dct items = true -> is_key_error e).
Proof.
  induction 1 as [|[key v] items Hv _ IH]; intros Hcov result_dct; [done|].
  simpl in Hv. destruct reference_dct as [| | | | | |r];
    try (exists TypeError; split; [reflexivity | discriminate]).
  cbn [diff_items subscript bind].
  destruct (dict_get key r) as [rv|] eqn:Hget.
  2:{ exists (KeyError key). split; [reflexivity|]. intros _. by exists key. }
  cbn [bind].
  assert (Hrest : covered_items K (VDict r) items = false ->
            forall acc, exists e, diff_items D (VDict r) items acc = Raise e
              /\ (matched_items M (VDict r) ((key, v) :: items) = true -> is_key_error e)).
  { intros Hc acc. destruct (IH Hc acc) as (e & Hrun & He).
    exists e. split; [exact Hrun|]. intros Hm. apply He.
    unfold matched_items in *. simpl in Hm. by apply andb_true_iff in Hm as [_ ?]. }
  unfold covered_items in Hcov. simpl in Hcov. rewrite Hget in Hcov.
  destruct v as [| | | | | |sub];
    try (simpl in Hcov; destruct (py_eq _ rv); apply Hrest; exact Hcov).
  destruct (keys_covered (VDict sub) rv) eqn:Hsub.
  - simpl in Hcov.
    destruct (remove_common_dict_items_returns _ rv Hsub sub eq_refl) as (r' & Hrun).
    rewrite Hrun. cbn [bind].
    destruct (truthy (VDict r')); apply Hrest; exact Hcov.
  - destruct (Hv rv Hsub) as (e & Hrun & He).
    exists e. rewrite Hrun. split; [reflexivity|].
    intros Hm. apply He. unfold matched_items in Hm. simpl in Hm.
    rewrite Hget in Hm. by apply andb_true_iff in Hm as [? _].
Qed.

Lemma remove_common_dict_items_fails dct : fails dct.
Proof.
  induction dct as [| | | | | |items IH] using value_nested_ind;
    try (by intros ? [=]).
  intros reference_dct Hcov. by apply diff_items_fails.
Qed.
End diff_loop.

Lemma to_dict_keys_covered isoformat (self : UserConfig) :
  keys_covered (to_dict isoformat self) (to_dict isoformat default_config) = true.
Proof. unfold to_dict. destruct (instance self); reflexivity. Qed.

(** C10 (as amended). [remove_common_dict_items] looks up [reference_dct[key]]
    for every key of [dct]. When some key of [dct], at a level the recursion
    reaches, is missing from [reference_dct] at that level, the call raises
    an error and returns nothing; the error is a [KeyError] provided
    [reference_dct] holds a mapping wherever [dct] holds a mapping with keys.
    When every key of [dct] is, through the nested mappings, a key of
    [reference_dct], the call returns a mapping. The save path is in the
    second case: both mappings are dumped by one schema, and
    [to_config_dict] returns for every configuration. *)
Theorem remove_common_dict_items_keys :
  (forall (dct : dict) reference_dct,
     keys_covered (VDict dct) reference_dct = false ->
     exists e, remove_common_dict_items (VDict dct) reference_dct = Raise e
               /\ (mappings_matched (VDict dct) reference_dct = true -> is_key_error e))
  /\ (forall (dct : dict) reference_dct,
        keys_covered (VDict dct) reference_dct = true ->
        exists r, remove_common_dict_items (VDict dct) reference_dct = Ok (VDict r))
  /\ (forall isoformat self,
        keys_covered (to_dict isoformat self) (to_dict isoformat default_config) = true
        /\ exists r, to_config_dict isoformat self = Ok (VDict r)).
Proof.
  split; [|split].
  - intros dct reference_dct. apply remove_common_dict_items_fails.
  - intros dct reference_dct Hcov.
    by apply (remove_common_dict_items_returns (VDict dct) reference_dct Hcov dct).
  - intros isoformat self. split; [apply to_dict_keys_covered|].
    unfold to_config_dict.
    destruct (remove_common_dict_items_returns _ _ (to_dict_keys_covered isoformat self)
                _ eq_refl) as (r & ->).
    cbn [bind]. eexists. reflexivity.
Qed.

Lemma remove_common_dict_items_keys_witness :
  (exists e, remove_common_dict_items
               (VDict [("verbose", VBool true); ("colour", VStr "red")])
               (VDict [("verbose", VBool false)]) = Raise e
             /\ is_key_error e)
  /\ (exists r, remove_common_dict_items
                  (VDict [("verbose", VBool true); ("secret", VDict [("show_secrets", VBool false)])])
                  (VDict [("secret", VDict [("show_secrets", VBool false)]);
                          ("verbose", VBool false)]) = Ok (VDict r)).
Proof.
  split.
  - destruct (proj1 remove_common_dict_items_keys
                [("verbose", VBool true); ("colour", VStr "red")]
                (VDict [("verbose", VBool false)]) eq_refl) as (e & Hrun & He).
    exists e. split; [exact Hrun | exact (He eq_refl)].
  - exact (proj1 (proj2 remove_common_dict_items_keys)
             [("verbose", VBool true); ("secret", VDict [("show_secrets", VBool false)])]
             (VDict [("secret", VDict [("show_secrets", VBool false)]);
                     ("verbose", VBool false)]) eq_refl).
Defined.

(** C10 as stated fails when a nested mapping of [dct] meets a reference
    value that is not a mapping: the key ["b"] is missing from the
    reference, yet the call ends in a [TypeError], raised while ["a"] is
    handled. *)
Lemma remove_common_dict_items_type_error :
  let dct := VDict [("a", VDict [("x", VInt 1)]); ("b", VInt 2)] in
  let reference_dct := VDict [("a", VStr "s")] in
  subscript reference_dct "b" = Raise (KeyError "b")
  /\ keys_covered dct reference_dct = false
  /\ remove_common_dict_items dct reference_dct = Raise TypeError
  /\ ~ (exists e, remove_common_dict_items dct reference_dct = Raise e /\ is_key_error e).
Proof.
  repeat split. intros (e & Hrun & key & ->). discriminate.
Qed.

Example remove_common_dict_items_defaults :
  remove_common_dict_items
    (VDict [("verbose", VBool true); ("debug", VBool false);
            ("secret", VDict [("show_secrets", VBool false)])])
    (VDict [("verbose", VBool false); ("debug", VBool false);
            ("secret", VDict [("show_secrets", VBool false)])])
  = Ok (VDict [("verbose", VBool true)]).
Proof. reflexivity. Qed.

(** ** Loading a configuration file *)

Lemma dict_get_on_values f k (d : dict) :
  dict_get k (on_values f <$> d) = f <$> dict_get k d.
Proof.
  induction d as [|[k' v] d IH]; simpl; [done|].
  by destruct (String.eqb k' k).
Qed.

Lemma dict_pop_get k (d : dict) v :
  dict_get k d = Some v -> dict_pop k d = Some (v, dict_remove k d).
Proof. unfold dict_pop. by intros ->. Qed.

Lemma dict_pop_missing k (d : dict) : dict_get k d = None -> dict_pop k d = None.
Proof. unfold dict_pop. by intros ->. Qed.

Section loading.
Variable api_to_dashboard_url : value -> bool -> result value * list string.

(** The hyphen rewrite leaves the [version] entry alone. *)
Lemma replace_in_keys_version d :
  exists d', replace_in_keys "_" "-" (VDict d) = VDict d'
             /\ dict_get "version" d' = replace_in_keys "_" "-" <$> dict_get "version" d.
Proof. by apply replace_in_keys_neutral_key. Qed.

(** C5 (as amended). Loading a configuration file whose [version] is an
    integer other than 1 and 2 fails with an [UnexpectedError] (not a
    [ParseError]) whose message reports that version; no configuration is
    produced and the journal is left as it was. *)
Theorem load_config_dict_unknown_version config_path d n j :
  dict_get "version" d = Some (VInt n) -> n <> 1 -> n <> 2 ->
  load_config_dict api_to_dashboard_url config_path (Document (VDict d)) j
  = (Raise (UnexpectedError [Lit "Don't know how to load config version "; Fmt (VInt n)]), j).
Proof.
  intros Hget Hn1 Hn2.
  destruct (replace_in_keys_version d) as (d' & Hd' & Hv). rewrite Hget in Hv.
  cbn in Hv. unfold load_config_dict, load_yaml_dict.
  assert (Htruthy : truthy (VDict d) = true) by (by destruct d).
  rewrite Htruthy. unfold bindM at 1. unfold lift at 1. rewrite Htruthy, Hd'.
  unfold bindM at 1. unfold lift at 1. cbn [as_dict].
  rewrite (dict_pop_get _ _ _ Hv). cbn [py_eq].
  apply Z.eqb_neq in Hn1, Hn2. rewrite Hn1, Hn2. reflexivity.
Qed.
End loading.

(** *** The journal only grows *)

Lemma extends_refl j : extends j j.
Proof. exists [], []. by rewrite !app_nil_r. Qed.

Lemma extends_trans j1 j2 j3 : extends j1 j2 -> extends j2 j3 -> extends j1 j3.
Proof.
  intros (m1 & s1 & Hd1 & Hw1) (m2 & s2 & Hd2 & Hw2).
  exists (m1 ++ m2), (s1 ++ s2). rewrite Hd2, Hw2, Hd1, Hw1, !app_assoc. done.
Qed.

Lemma grows_ret {A} (a : A) : grows (ret a).
Proof. intros j. apply extends_refl. Qed.

Lemma grows_lift {A} (r : result A) : grows (lift r).
Proof. intros j. apply extends_refl. Qed.

Lemma grows_deprecate msg : grows (deprecate msg).
Proof. intros j. exists [msg], []. simpl. by rewrite app_nil_r. Qed.

Lemma grows_warn msgs : grows (warn msgs).
Proof. intros j. exists [], msgs. simpl. by rewrite app_nil_r. Qed.

Lemma grows_bind {A B} (m : M A) (k : A -> M B) :
  grows m -> (forall a, grows (k a)) -> grows (bindM m k).
Proof.
  intros Hm Hk j. unfold bindM. specialize (Hm j).
  destruct (m j) as [[a|e] j']; simpl in *; [|done].
  eapply extends_trans; [exact Hm | apply Hk].
Qed.

Create HintDb journal.
#[local] Hint Resolve grows_ret grows_lift grows_deprecate grows_warn : journal.

Lemma grows_rename_api_url conv data : grows (rename_api_url conv data).
Proof.
  unfold rename_api_url.
  destruct (dict_pop "api-url" data) as [[api_url data']|]; [|auto with journal].
  destruct (dict_mem "instance" data'); [auto with journal|].
  destruct (conv api_url true) as [converted shown].
  repeat (apply grows_bind; [auto with journal | intros ?]). auto with journal.
Qed.

Lemma grows_load_v1_dict conv data : grows (load_v1_dict conv data).
Proof.
  unfold load_v1_dict.
  apply grows_bind; [apply grows_rename_api_url | intros data1].
  apply grows_bind; [auto with journal | intros data2].
  apply grows_bind; [destruct (dict_mem _ data2); auto with journal | intros _].
  apply grows_bind; [destruct (dict_mem _ data2); auto with journal | intros _].
  apply grows_bind; [auto with journal | intros secret_dct]. auto with journal.
Qed.

(** *** Files without a version *)

(** C4 (as amended). For every existing configuration file whose top-level
    mapping has at least one key and no [version] key, loading treats the
    file as version 1: the deprecation message that tells the user to run the
    migration command is appended and the transform from version 1 is
    applied to the mapping with its keys hyphenated. An existing file whose
    mapping is empty is loaded like a missing file: an empty mapping, no
    transform and no message. *)
Theorem load_config_dict_no_version conv config_path j :
  (forall d, d <> [] -> dict_get "version" d = None ->
     exists d',
       replace_in_keys "_" "-" (VDict d) = VDict d'
       /\ load_config_dict conv config_path (Document (VDict d)) j
          = (run _ := deprecate (deprecated_format config_path) in load_v1_dict conv d') j
       /\ exists more,
            deprecations (snd (load_config_dict conv config_path (Document (VDict d)) j))
            = deprecations j ++ deprecated_format config_path :: more)
  /\ load_config_dict conv config_path (Document (VDict [])) j = (Ok (VDict []), j)
  /\ load_config_dict conv config_path Missing j = (Ok (VDict []), j).
Proof.
  split; [|split; reflexivity].
  intros d Hne Hget.
  destruct (replace_in_keys_version d) as (d' & Hd' & Hv). rewrite Hget in Hv.
  cbn in Hv. exists d'. split; [exact Hd'|].
  assert (Hrun : load_config_dict conv config_path (Document (VDict d)) j
                 = (run _ := deprecate (deprecated_format config_path)
                    in load_v1_dict conv d') j).
  { unfold load_config_dict, load_yaml_dict.
    assert (Htruthy : truthy (VDict d) = true) by (by destruct d).
    rewrite Htruthy. unfold bindM at 1. unfold lift at 1. rewrite Htruthy, Hd'.
    unfold bindM at 1. unfold lift at 1. cbn [as_dict].
    rewrite (dict_pop_missing _ _ Hv). reflexivity. }
  split; [exact Hrun|]. rewrite Hrun. unfold bindM, deprecate.
  destruct (grows_load_v1_dict conv d'
              {| deprecations := deprecations j ++ [deprecated_format config_path];
                 warnings := warnings j |}) as (more & shown & Hdep & _).
  exists more. destruct (load_v1_dict _ _ _) as [r j']. simpl in *.
  rewrite Hdep, <- app_assoc. done.
Qed.

Lemma load_config_dict_no_version_witness :
  let j := {| deprecations := []; warnings := [] |} in
  exists more,
    deprecations (snd (load_config_dict sample_api_to_dashboard_url ".gitguardian.yaml"
                         (Document (VDict [("show_secrets", VBool true)])) j))
    = deprecated_format ".gitguardian.yaml" :: more.
Proof.
  intros j.
  destruct (proj1 (load_config_dict_no_version sample_api_to_dashboard_url
                     ".gitguardian.yaml" j) [("show_secrets", VBool true)])
    as (d' & _ & _ & more & Hmore); [discriminate | reflexivity |].
  exists more. exact Hmore.
Defined.

(** C4 as stated fails on the empty mapping: an existing file with no keys
    is not treated as version 1. No deprecation message is appended, and
    the result is not what the transform from version 1 returns. *)
Lemma load_config_dict_empty_mapping :
  let j := {| deprecations := []; warnings := [] |} in
  let loaded := load_config_dict sample_api_to_dashboard_url ".gitguardian.yaml"
                  (Document (VDict [])) j in
  dict_get "version" [] = None
  /\ loaded = (Ok (VDict []), j)
  /\ deprecations (snd loaded) = []
  /\ loaded <> (run _ := deprecate (deprecated_format ".gitguardian.yaml")
                in load_v1_dict sample_api_to_dashboard_url []) j.
Proof. repeat split. discriminate. Qed.

Lemma load_config_dict_unknown_version_witness :
  let j := {| deprecations := []; warnings := [] |} in
  load_config_dict sample_api_to_dashboard_url ".gitguardian.yaml"
    (Document (VDict [("version", VInt 3); ("verbose", VBool true)])) j
  = (Raise (UnexpectedError [Lit "Don't know how to load config version "; Fmt (VInt 3)]), j).
Proof.
  intros j.
  apply (load_config_dict_unknown_version sample_api_to_dashboard_url ".gitguardian.yaml"
           [("version", VInt 3); ("verbose", VBool true)] 3 j); [reflexivity | lia | lia].
Defined.

(** C5 as stated fails on the kind of error: version 3 ends in an
    [UnexpectedError], which is not a [ParseError]. *)
Lemma load_config_dict_version_3_not_parse_error :
  let j := {| deprecations := []; warnings := [] |} in
  let loaded := load_config_dict sample_api_to_dashboard_url ".gitguardian.yaml"
                  (Document (VDict [("version", VInt 3)])) j in
  fst loaded
  = Raise (UnexpectedError [Lit "Don't know how to load config version "; Fmt (VInt 3)])
  /\ ~ (exists msg, fst loaded = Raise (ParseError msg)).
Proof. split; [reflexivity|]. intros [msg Hmsg]. discriminate. Qed.

Example load_config_dict_version_2 :
  load_config_dict sample_api_to_dashboard_url ".gitguardian.yaml"
    (Document (VDict [("version", VInt 2); ("ignore_known_secrets", VBool true);
                      ("secret", VDict [("show_secrets", VBool true)])]))
    {| deprecations := []; warnings := [] |}
  = (Ok (VDict [("secret", VDict [("show-secrets", VBool true);
                                  ("ignore-known-secrets", VBool true)])]),
     {| deprecations := []; warnings := [] |}).
Proof. reflexivity. Qed.

Example load_config_dict_not_a_mapping :
  fst (load_config_dict sample_api_to_dashboard_url "cfg.yaml"
         (Document (VList [VInt 1])) {| deprecations := []; warnings := [] |})
  = Raise (ParseError "cfg.yaml should be a dictionary.").
Proof. reflexivity. Qed.

(** *** The legacy [api-url] key *)

Lemma dict_get_remove_same k (d : dict) : NoDup (keys d) -> dict_get k (dict_remove k d) = None.
Proof.
  induction d as [|[k' v] d IH]; [done|].
  unfold keys in *. rewrite fmap_cons. intros [Hk Hd]%NoDup_cons. simpl.
  destruct (String.eqb_spec k' k) as [->|Hne].
  - by apply dict_get_None.
  - simpl. destruct (String.eqb_spec k' k); [done | by apply IH].
Qed.

Lemma matches_ignore_to_dict_get data data' k :
  matches_ignore_to_dict data = Ok data' -> k <> "matches_ignore" ->
  dict_get k data' = dict_get k data.
Proof.
  unfold matches_ignore_to_dict. intros Hrun Hk.
  destruct (dict_get "matches_ignore" data) as [v|]; [|by injection Hrun as <-].
  destruct (negb (truthy v)); [by injection Hrun as <-|].
  destruct v; try done. injection Hrun as <-.
  rewrite dict_get_set. destruct (String.eqb_spec "matches_ignore" k); [congruence|done].
Qed.

Lemma matches_load_ext data1 data2 :
  dict_get "matches_ignore" data1 = dict_get "matches_ignore" data2 ->
  dict_get "matches-ignore" data1 = dict_get "matches-ignore" data2 ->
  matches_load data1 = matches_load data2.
Proof.
  intros H1 H2. unfold matches_load, matches_ignore_to_dict. rewrite H1, H2.
  destruct (dict_get "matches_ignore" data2) as [v|]; [|done].
  destruct (negb (truthy v)); [done|]. by destruct v.
Qed.

Section api_url.
Variable conv : value -> bool -> result value * list string.

Lemma load_v1_dict_after_rename data data1 j j1 :
  rename_api_url conv data j = (Ok data1, j1) ->
  dict_get "api-url" data1 = None ->
  load_v1_dict conv data j = load_v1_dict conv data1 j1.
Proof.
  intros Hrename Hgone. unfold load_v1_dict.
  unfold bindM at 1. rewrite Hrename.
  unfold bindM at 6. unfold rename_api_url. rewrite (dict_pop_missing _ _ Hgone).
  reflexivity.
Qed.

(** What [load_v1_dict] does once the legacy key is out of the way. *)
Lemma load_v1_dict_migrates data j :
  dict_get "api-url" data = None -> matches_load data = true ->
  exists d more,
    load_v1_dict conv data j
    = (Ok (VDict d), {| deprecations := deprecations j ++ more; warnings := warnings j |})
    /\ dict_get "instance" d = dict_get "instance" data
    /\ dict_get "api-url" d = None.
Proof.
  intros Hgone Hload. unfold matches_load in Hload.
  apply andb_true_iff in Hload as [Hrewrite Hconvert].
  destruct (matches_ignore_to_dict data) as [data'|] eqn:Hdata'; [|done].
  assert (Hget : forall k, k <> "matches_ignore" -> dict_get k data' = dict_get k data)
    by (intros k Hk; by eapply matches_ignore_to_dict_get).
  unfold load_v1_dict, rename_api_url. rewrite (dict_pop_missing _ _ Hgone).
  unfold bindM at 1. unfold ret at 1. unfold bindM at 1. unfold lift at 1.
  rewrite Hdata'.
  set (j1 := if dict_mem "all-policies" data'
             then {| deprecations := deprecations j
                       ++ ["The `all-policies` option has been deprecated and is now ignored."];
                     warnings := warnings j |}
             else j).
  set (j2 := if dict_mem "ignore-default-excludes" data'
             then {| deprecations := deprecations j1
                       ++ ["The `ignore-default-exclude` option has been deprecated and is now ignored."];
                     warnings := warnings j1 |}
             else j1).
  assert (Hj2 : exists more, j2 = {| deprecations := deprecations j ++ more;
                                     warnings := warnings j |}).
  { unfold j2, j1. destruct j as [dep shown].
    destruct (dict_mem "all-policies" data'), (dict_mem "ignore-default-excludes" data');
      simpl; eexists; rewrite <- ?app_assoc; try reflexivity.
    by rewrite app_nil_r. }
  destruct Hj2 as (more & Hj2).
  assert (Hsecret : exists secret_dct,
             match dict_get "matches-ignore" data' with
             | Some matches_ignore =>
                 if truthy matches_ignore
                 then let* l := ignored_matches_of matches_ignore in
                      Ok [("ignored-matches", l)]
                 else Ok []
             | None => Ok []
             end = Ok secret_dct).
  { rewrite (Hget "matches-ignore") by done.
    destruct (dict_get "matches-ignore" data) as [v|]; [|by eexists].
    destruct (truthy v); [|by eexists]. simpl in Hconvert.
    destruct (ignored_matches_of v); [by eexists | done]. }
  destruct Hsecret as (secret_dct & Hsecret).
  eexists _, more. split.
  - unfold bindM at 1.
    replace ((if dict_mem "all-policies" data' then _ else ret tt) j) with (Ok tt, j1)
      by (unfold j1; by destruct (dict_mem "all-policies" data')).
    unfold bindM at 1.
    replace ((if dict_mem "ignore-default-excludes" data' then _ else ret tt) j1)
      with (Ok tt, j2)
      by (unfold j2; by destruct (dict_mem "ignore-default-excludes" data')).
    unfold bindM at 1. unfold lift at 1. rewrite Hsecret.
    unfold ret. rewrite Hj2. reflexivity.
  - rewrite <- (Hget "instance") by done.
    unfold copy_if_set. simpl default.
    destruct (dict_get "instance" data'), (dict_get "exit-zero" data'),
      (dict_get "verbose" data'), (dict_get "allow-self-signed" data'),
      (dict_get "max-commits-for-hook" data'); split; reflexivity.
Qed.
End api_url.




(** *** Keys left by the rewrite *)

Lemma keys_dict_remove k (d : dict) :
  NoDup (keys d) ->
  NoDup (keys (dict_remove k d))
  /\ forall k', k' ∈ keys (dict_remove k d) <-> k' ∈ keys d /\ k' <> k.
Proof.
  induction d as [|[k0 v] d IH]; intros Hnd.
  { split; [done|]. intros k'. simpl. split; [by intros ?%elem_of_nil | by intros [?%elem_of_nil _]]. }
  unfold keys in *. rewrite fmap_cons in Hnd. apply NoDup_cons in Hnd as [Hk0 Hnd].
  destruct (IH Hnd) as [IHnd IHin]. simpl.
  destruct (String.eqb_spec k0 k) as [->|Hne].
  - split; [done|]. intros k'. rewrite elem_of_cons. split.
    + intros Hin. split; [by right|]. by intros ->.
    + intros [[->|Hin] Hk']; done.
  - rewrite fmap_cons. split.
    + apply NoDup_cons. split; [|done]. rewrite IHin. by intros [? _].
    + intros k'. rewrite !elem_of_cons, IHin. simpl. split.
      * intros [->|[? ?]]; split; auto.
      * intros [[->|?] ?]; auto.
Qed.

Lemma keys_dict_set_elem k v (d : dict) k' :
  k' ∈ keys (dict_set k v d) <-> k' = k \/ k' ∈ keys d.
Proof.
  rewrite keys_dict_set. unfold dict_mem.
  destruct (dict_get k d) eqn:Hget.
  - split; [by right|]. intros [->|?]; [|done].
    destruct (decide (k ∈ keys d)) as [?|Hn]; [done|].
    apply dict_get_None in Hn. congruence.
  - rewrite elem_of_app, list_elem_of_singleton. tauto.
Qed.

Lemma NoDup_keys_dict_set k v (d : dict) : NoDup (keys d) -> NoDup (keys (dict_set k v d)).
Proof.
  intros Hnd. rewrite keys_dict_set. unfold dict_mem.
  destruct (dict_get k d) eqn:Hget; [done|].
  apply dict_get_None in Hget. apply NoDup_app. split; [done|].
  split; [|apply NoDup_singleton]. intros x Hx ->%list_elem_of_singleton. done.
Qed.

Section old_keys.
Variables old new : ascii.
Hypothesis Hne : old <> new.

Lemma rename_key_old_keys d k0 :
  NoDup (keys d) ->
  NoDup (keys (rename_key old new d k0))
  /\ forall k, k ∈ keys (rename_key old new d k0) -> contains old k = true ->
               k ∈ keys d /\ k <> k0.
Proof.
  intros Hnd. unfold rename_key, dict_pop.
  destruct (contains old k0) eqn:Hk0.
  - destruct (dict_get k0 d) as [v|] eqn:Hget.
    + destruct (keys_dict_remove k0 d Hnd) as [Hnd' Hin'].
      split; [by apply NoDup_keys_dict_set|].
      intros k [->|Hin]%keys_dict_set_elem Hk.
      * by rewrite contains_replace_old in Hk.
      * by apply Hin'.
    + split; [done|]. intros k Hin _. split; [done|].
      apply dict_get_None in Hget. by intros ->.
  - split; [done|]. intros k Hin Hk. split; [done|]. intros ->. congruence.
Qed.

Lemma rename_keys_old_keys snapshot d :
  NoDup (keys d) ->
  forall k, k ∈ keys (rename_keys old new snapshot d) -> contains old k = true ->
            k ∈ keys d /\ k ∉ snapshot.
Proof.
  revert d. induction snapshot as [|k0 ks IH]; intros d Hnd k Hin Hk.
  { split; [done | apply not_elem_of_nil]. }
  rewrite rename_keys_cons in Hin.
  destruct (rename_key_old_keys d k0 Hnd) as [Hnd' Hstep].
  destruct (IH _ Hnd' k Hin Hk) as [Hin' Hks].
  destruct (Hstep k Hin' Hk) as [Hd Hk0].
  split; [done|]. apply not_elem_of_cons. done.
Qed.

(** After the rewrite of a well-formed mapping no key holds [old]. *)
Lemma replace_in_keys_no_old d k :
  NoDup (keys d) -> contains old k = true ->
  exists d', replace_in_keys old new (VDict d) = VDict d' /\ dict_get k d' = None.
Proof.
  intros Hnd Hk. eexists. split; [reflexivity|].
  apply dict_get_None. intros Hin.
  change (k ∈ keys (rename_keys old new (keys d)
                      (on_values (replace_in_keys old new) <$> d))) in Hin.
  rewrite <- (keys_on_values (replace_in_keys old new) d) in Hin at 1.
  apply rename_keys_old_keys in Hin as [? ?]; [done | by rewrite keys_on_values | done].
Qed.
End old_keys.

(** *** Bare-string ignored matches *)

Lemma matches_ignore_to_dict_absent data :
  dict_get "matches_ignore" data = None -> matches_ignore_to_dict data = Ok data.
Proof. unfold matches_ignore_to_dict. by intros ->. Qed.

(** The rewrite does its work under the underscore spelling of the key. *)
Example matches_ignore_to_dict_underscore :
  matches_ignore_to_dict
    [("matches_ignore", VList [VStr "deadbeef"; VDict [("name", VStr "n"); ("match", VStr "m")]])]
  = Ok [("matches_ignore",
         VList [VDict [("name", VStr ""); ("match", VStr "deadbeef")];
                VDict [("name", VStr "n"); ("match", VStr "m")]])].
Proof. reflexivity. Qed.

(** With the match already a mapping the migration gives the mapping the
    specification expects. *)
Example load_v1_dict_mapping_match :
  load_v1_dict sample_api_to_dashboard_url
    [("api-url", VStr "https://api.example.com"); ("show-secrets", VBool true);
     ("matches-ignore", VList [VDict [("name", VStr ""); ("match", VStr "deadbeef")]])]
    {| deprecations := []; warnings := [] |}
  = (Ok (VDict [("secret",
                 VDict [("ignored-matches",
                         VList [VDict [("name", VStr ""); ("match", VStr "deadbeef")]]);
                        ("show-secrets", VBool true)]);
                ("instance", VStr "https://dashboard.example.com")]),
     {| deprecations := []; warnings := ["api URL converted to a dashboard URL"] |}).
Proof. reflexivity. Qed.

(** C1 (the code departs from it). [matches_ignore_to_dict] looks for the
    key [matches_ignore], spelled with an underscore, while [load_v1_dict]
    works on hyphenated keys: on a mapping without the underscore key, so on
    every mapping that comes out of the hyphen rewrite, it changes nothing.
    The bare string of the specification's example therefore reaches
    [IgnoredMatch.from_dict] as it is, and the migration raises instead of
    returning the expected mapping. *)
Theorem load_v1_dict_bare_string_match :
  (forall data, dict_get "matches_ignore" data = None -> matches_ignore_to_dict data = Ok data)
  /\ (forall d, NoDup (keys d) ->
        exists d', replace_in_keys "_" "-" (VDict d) = VDict d'
                   /\ matches_ignore_to_dict d' = Ok d')
  /\ (forall conv j,
        exists e,
          fst (load_v1_dict conv
                 [("api-url", VStr "https://api.example.com"); ("show-secrets", VBool true);
                  ("matches-ignore", VList [VStr "deadbeef"])] j)
          = Raise e)
  /\ fst (load_v1_dict sample_api_to_dashboard_url
            [("api-url", VStr "https://api.example.com"); ("show-secrets", VBool true);
             ("matches-ignore", VList [VStr "deadbeef"])]
            {| deprecations := []; warnings := [] |})
     = Raise (ValidationError "Invalid input type.").
Proof.
  split; [exact matches_ignore_to_dict_absent|]. split; [|split; [|reflexivity]].
  - intros d Hnd.
    destruct (replace_in_keys_no_old "_" "-" ltac:(done) d "matches_ignore" Hnd eq_refl)
      as (d' & Hd' & Hget).
    exists d'. split; [exact Hd' | by apply matches_ignore_to_dict_absent].
  - intros conv j. unfold load_v1_dict, rename_api_url, bindM. cbn.
    destruct (conv (VStr "https://api.example.com") true) as [[url|e] shown].
    + eexists. reflexivity.
    + exists e. reflexivity.
Qed.

(** The same file through [_load_config_dict]: the deprecation message is
    recorded and the load ends in the error. *)
Example load_config_dict_bare_string_match :
  load_config_dict sample_api_to_dashboard_url ".gitguardian.yaml"
    (Document (VDict [("api-url", VStr "https://api.example.com");
                      ("show-secrets", VBool true);
                      ("matches-ignore", VList [VStr "deadbeef"])]))
    {| deprecations := []; warnings := [] |}
  = (Raise (ValidationError "Invalid input type."),
     {| deprecations := [deprecated_format ".gitguardian.yaml"];
        warnings := ["api URL converted to a dashboard URL"] |}).
Proof. reflexivity. Qed.

Lemma load_v1_dict_bare_string_match_witness :
  let data := [("show-secrets", VBool true); ("matches-ignore", VList [VStr "deadbeef"])] in
  matches_ignore_to_dict data = Ok data
  /\ exists d', replace_in_keys "_" "-" (VDict [("matches_ignore", VList [VStr "deadbeef"])])
                = VDict d'
                /\ matches_ignore_to_dict d' = Ok d'.
Proof.
  intros data. split.
  - exact (proj1 load_v1_dict_bare_string_match data eq_refl).
  - apply (proj1 (proj2 load_v1_dict_bare_string_match)).
    unfold keys. simpl. apply NoDup_singleton.
Defined.

(** ** Bare dates *)

Example load_until_bare_date_utc :
  load_until sample_from_iso_datetime (fun _ => 0)
    (VDict [("path", VStr "a"); ("until", VStr "2024-01-01")])
  = Ok (Some (Aware 1704067200 0)).
Proof. reflexivity. Qed.

Example load_until_timestamp_with_zone :
  load_until sample_from_iso_datetime (fun _ => 7200)
    (VDict [("until", VStr "2024-01-01T02:00:00+02:00")])
  = Ok (Some (Aware 1704067200 0)).
Proof. reflexivity. Qed.

Example isoformat_date_sample : isoformat_date 2024 2 29 = "2024-02-29".
Proof. reflexivity. Qed.

Example strptime_date_rejects :
  is_ok (strptime_date "2023-02-29") = false
  /\ is_ok (strptime_date "2024-13-01") = false
  /\ is_ok (strptime_date "2024-01-015") = false
  /\ strptime_date "2024-2-9" = Ok (midnight 2024 2 9).
Proof. repeat split. Qed.

Lemma append_cons x (a b : string) : (String x a ++ b = String x (a ++ b))%string.
Proof. reflexivity. Qed.

Lemma append_nil (b : string) : (EmptyString ++ b = b)%string.
Proof. reflexivity. Qed.

Ltac push_append := rewrite ?append_cons, ?append_nil.

Lemma string_append_assoc (a b c : string) : ((a ++ b) ++ c = a ++ (b ++ c))%string.
Proof. induction a as [|x a IH]; [done|]. push_append. by rewrite IH. Qed.

Lemma digit_of_char d : 0 <= d < 10 -> digit_of (digit_char d) = Some d.
Proof.
  intros Hd.
  assert (d = 0 \/ d = 1 \/ d = 2 \/ d = 3 \/ d = 4 \/ d = 5 \/ d = 6 \/ d = 7 \/ d = 8 \/ d = 9)
    as Hcases by lia.
  repeat (destruct Hcases as [->|Hcases]; [reflexivity|]). by subst.
Qed.

Lemma one_digit_char d r : 0 <= d < 10 -> one_digit (String (digit_char d) r) = Some (d, r).
Proof. intros Hd. unfold one_digit. by rewrite digit_of_char. Qed.

Lemma two_digits_pad2 n r : 0 <= n < 100 -> two_digits (pad2 n ++ r)%string = Some (n, r).
Proof.
  intros Hn. unfold two_digits, pad2. push_append.
  rewrite !one_digit_char by (Z.div_mod_to_equations; lia).
  f_equal. f_equal. Z.div_mod_to_equations. lia.
Qed.

Lemma four_digits_pad4 n r : 0 <= n < 10000 -> four_digits (pad4 n ++ r)%string = Some (n, r).
Proof.
  intros Hn. unfold four_digits, two_digits, pad4. push_append.
  rewrite !one_digit_char by (Z.div_mod_to_equations; lia).
  f_equal. f_equal. Z.div_mod_to_equations. lia.
Qed.

Lemma strptime_month_pad2 m r :
  1 <= m <= 12 -> strptime_month (pad2 m ++ r)%string = Some (m, r).
Proof.
  intros Hm. unfold strptime_month, pad2. push_append.
  rewrite !one_digit_char by (Z.div_mod_to_equations; lia).
  assert (m / 10 = 0 /\ m mod 10 = m \/ m / 10 = 1 /\ m mod 10 = m - 10)
    as [[Hq Hr]|[Hq Hr]] by (Z.div_mod_to_equations; lia); rewrite Hq, Hr.
  - simpl. destruct (Z.leb_spec 1 m); [done | lia].
  - simpl. destruct (Z.leb_spec (m - 10) 2); [|lia]. f_equal. f_equal. lia.
Qed.

Lemma strptime_day_pad2 d : 1 <= d <= 31 -> strptime_day (pad2 d) = Some (d, EmptyString).
Proof.
  intros Hd. unfold strptime_day, pad2.
  rewrite !one_digit_char by (Z.div_mod_to_equations; lia).
  assert (Hx : 0 <= d / 10 <= 3 /\ d = 10 * (d / 10) + d mod 10 /\ 0 <= d mod 10 < 10)
    by (Z.div_mod_to_equations; lia).
  destruct Hx as (Hx & Hsum & Hy).
  set (x := d / 10) in *. set (y := d mod 10) in *.
  assert (x = 0 \/ x = 1 \/ x = 2 \/ x = 3) as [Hx0|[Hx0|[Hx0|Hx0]]] by lia;
    rewrite Hx0 in *; simpl.
  - destruct (Z.leb_spec 1 y); [|lia]. f_equal. f_equal. lia.
  - f_equal. f_equal. lia.
  - f_equal. f_equal. lia.
  - destruct (Z.leb_spec y 1); [|lia]. f_equal. f_equal. lia.
Qed.

Lemma days_in_month_bound y m : 28 <= days_in_month y m <= 31.
Proof.
  unfold days_in_month.
  destruct (m =? 2); [destruct (is_leap y); lia|].
  destruct ((m =? 4) || (m =? 6) || (m =? 9) || (m =? 11)); lia.
Qed.

Lemma valid_date_ranges y m d :
  valid_date y m d = true -> 1 <= y <= 9999 /\ 1 <= m <= 12 /\ 1 <= d <= 31.
Proof.
  unfold valid_date. rewrite !andb_true_iff, !Z.leb_le.
  pose proof (days_in_month_bound y m). lia.
Qed.

Lemma strptime_isoformat_date y m d :
  valid_date y m d = true -> strptime_date (isoformat_date y m d) = Ok (midnight y m d).
Proof.
  intros Hvalid. destruct (valid_date_ranges y m d Hvalid) as (Hy & Hm & Hd).
  unfold strptime_date, isoformat_date.
  rewrite four_digits_pad4 by lia. push_append. cbn [expect Ascii.eqb Bool.eqb].
  rewrite strptime_month_pad2 by lia. push_append. cbn [expect Ascii.eqb Bool.eqb].
  rewrite strptime_day_pad2 by lia. by rewrite Hvalid.
Qed.

Lemma from_iso_str_naive : reads_midnights sample_from_iso_datetime.
Proof.
  intros y m d Hvalid. destruct (valid_date_ranges y m d Hvalid) as (Hy & Hm & Hd).
  unfold sample_from_iso_datetime, str_naive, isoformat_date.
  cbn [year month day hour minute second midnight].
  rewrite !string_append_assoc.
  rewrite four_digits_pad4 by lia. push_append. cbn [expect Ascii.eqb Bool.eqb].
  rewrite two_digits_pad2 by lia. push_append. cbn [expect Ascii.eqb Bool.eqb].
  rewrite two_digits_pad2 by lia. rewrite Hvalid. reflexivity.
Qed.

Lemma wall_seconds_midnight y m d :
  wall_seconds (midnight y m d) = days_from_civil y m d * 86400.
Proof. unfold wall_seconds, midnight. simpl. lia. Qed.

(** *** The range of the calendar *)

Lemma MIN_SECONDS_eq : MIN_SECONDS = -62135596800.
Proof. reflexivity. Qed.

Lemma MAX_SECONDS_eq : MAX_SECONDS = 253402300799.
Proof. reflexivity. Qed.

Lemma representable_iff t :
  representable t = true <-> -62135596800 <= t <= 253402300799.
Proof.
  unfold representable. rewrite MIN_SECONDS_eq, MAX_SECONDS_eq. lia.
Qed.

(** The dates of the calendar, in days: 0001-01-01 is the first and
    9999-12-31 the last. *)
Lemma days_from_civil_range y m d :
  valid_date y m d = true ->
  -719162 <= days_from_civil y m d <= 2932896
  /\ (~ (y = 1 /\ m = 1 /\ d = 1) -> -719161 <= days_from_civil y m d).
Proof.
  intros Hvalid. destruct (valid_date_ranges y m d Hvalid) as (Hy & Hm & Hd).
  assert (Hdim : d <= days_in_month y m).
  { unfold valid_date in Hvalid. rewrite !andb_true_iff, !Z.leb_le in Hvalid. lia. }
  assert (Hlast : m = 12 -> d <= 31) by lia.
  unfold days_from_civil.
  destruct (Z.leb_spec m 2) as [Hm2|Hm2]; destruct (Z.ltb_spec 2 m) as [Hm3|Hm3]; try lia.
  - split; [|intros Hfirst]; Z.div_mod_to_equations; lia.
  - split; [|intros Hfirst]; Z.div_mod_to_equations; lia.
Qed.

(** *** Local time *)

(** Where the zone keeps one offset from two days before a reading to one
    day after it, the reading is the local time of one instant, and the
    search finds it. *)
Lemma local_to_seconds_stable (tz : timezone) wall o :
  -86400 < o < 86400 ->
  -62135596800 + 86400 <= wall -> wall <= 253402300799 -> wall + o <= 253402300799 ->
  keeps_offset tz o (wall - 172800) (wall + 86400) ->
  local_to_seconds tz wall = Ok (wall - o).
Proof.
  intros Ho Hmin Hmax Hmax' Hkeeps. unfold local_to_seconds, local_reading.
  rewrite (Hkeeps wall) by lia.
  rewrite (proj2 (representable_iff (wall + o))) by lia. cbn [bind].
  replace (wall - (wall + o - wall)) with (wall - o) by lia.
  rewrite (Hkeeps (wall - o)) by lia.
  replace (wall - o + o) with wall by lia.
  rewrite (proj2 (representable_iff wall)) by lia. cbn [bind].
  rewrite Z.eqb_refl. unfold max_fold_seconds.
  rewrite (Hkeeps (wall - o - 24 * 3600)) by lia.
  rewrite (proj2 (representable_iff (wall - o - 24 * 3600 + o))) by lia. cbn [bind].
  replace (wall + o - wall =? wall - o - 24 * 3600 + o - (wall - o - 24 * 3600)) with true
    by (symmetry; apply Z.eqb_eq; lia).
  reflexivity.
Qed.

Lemma astimezone_utc_stable (tz : timezone) c o :
  -86400 < o < 86400 ->
  -62135596800 + 86400 <= wall_seconds c ->
  wall_seconds c + o <= 253402300799 -> wall_seconds c - o <= 253402300799 ->
  keeps_offset tz o (wall_seconds c - 172800) (wall_seconds c + 86400) ->
  astimezone_utc tz (Naive c) = Ok (Aware (wall_seconds c - o) 0).
Proof.
  intros Ho Hmin Hmax Hmax' Hkeeps. unfold astimezone_utc.
  rewrite (local_to_seconds_stable tz _ o) by (done || lia). cbn [bind].
  rewrite (Hkeeps (wall_seconds c - o)) by lia.
  by rewrite (proj2 (representable_iff (wall_seconds c - o))) by lia.
Qed.

(** On the first day of the calendar the search leaves the calendar, in
    every zone of constant offset: west of Greenwich at once, elsewhere when
    it looks a day back. *)
Lemma astimezone_utc_first_day o :
  -86400 < o < 86400 ->
  astimezone_utc (fun _ => o) (Naive (midnight 1 1 1))
  = Raise (ValueError "year 0 is out of range").
Proof.
  intros Ho. unfold astimezone_utc, local_to_seconds, local_reading.
  rewrite wall_seconds_midnight.
  change (days_from_civil 1 1 1 * 86400) with (-62135596800).
  assert (Hyear : forall lt, -62135596800 - 86400 <= lt < -62135596800 ->
            (if representable lt then Ok lt
             else Raise (ValueError ("year " ++ format_int (year_of_days (lt / 86400))
                                     ++ " is out of range")))
            = Raise (ValueError "year 0 is out of range")).
  { intros lt Hlt. destruct (representable lt) eqn:Hrep.
    - apply representable_iff in Hrep. lia.
    - replace (lt / 86400) with (-719163)%Z; [reflexivity|].
      Z.div_mod_to_equations; lia. }
  destruct (Z.ltb_spec o 0) as [Hneg|Hpos].
  - rewrite Hyear by lia. reflexivity.
  - rewrite (proj2 (representable_iff (-62135596800 + o))) by lia. cbn [bind].
    replace (-62135596800 - (-62135596800 + o - -62135596800) + o) with (-62135596800) by lia.
    rewrite (proj2 (representable_iff (-62135596800))) by lia. cbn [bind].
    rewrite Z.eqb_refl. unfold max_fold_seconds.
    rewrite Hyear by lia. reflexivity.
Qed.

Section bare_dates.
Variable from_iso_datetime : string -> option datetime.

Lemma load_until_utc local data dt :
  load_until from_iso_datetime local data = Ok (Some dt) -> exists t, dt = Aware t 0.
Proof.
  unfold load_until. destruct (parse_date data) as [| | | | | |d']; try done.
  destruct (dict_get "until" d') as [v|]; [|done].
  assert (Hread : (let* dt0 := deserialize_datetime from_iso_datetime v in
                   datetime_to_utc local (Some dt0)) = Ok (Some dt) ->
                  exists t, dt = Aware t 0).
  { destruct (deserialize_datetime from_iso_datetime v) as [dt0|]; [|done].
    cbn [bind datetime_to_utc]. unfold astimezone_utc.
    destruct dt0 as [c|t off].
    - destruct (local_to_seconds local (wall_seconds c)) as [u|]; [|done]. cbn [bind].
      destruct (representable _); [|done]. intros [= <-]. eauto.
    - destruct (representable t); [|done]. intros [= <-]. eauto. }
  destruct v; done || exact Hread.
Qed.

(** What loading makes of a bare date, up to the conversion to UTC. *)
Lemma load_until_bare_date_run local data y m d :
  reads_midnights from_iso_datetime ->
  valid_date y m d = true ->
  dict_get "until" data = Some (VStr (isoformat_date y m d)) ->
  load_until from_iso_datetime local (VDict data)
  = let* utc := astimezone_utc local (Naive (midnight y m d)) in Ok (Some utc).
Proof.
  intros Hreads Hvalid Hget.
  unfold load_until, parse_date. rewrite Hget, strptime_isoformat_date by done.
  rewrite dict_get_set, String.eqb_refl.
  unfold deserialize_datetime. rewrite Hreads by done.
  destruct (String.eqb_spec (str_naive (midnight y m d)) "") as [Hempty|_]; [|done].
  unfold str_naive, isoformat_date, pad4 in Hempty. by rewrite !append_cons in Hempty.
Qed.

End bare_dates.



(** * Further properties *)

(** ** The rewrite leaves no key to rewrite *)

Lemma elem_of_dict_remove kv k (d : dict) : kv ∈ dict_remove k d -> kv ∈ d.
Proof.
  induction d as [|[k0 v0] d IH]; simpl; [done|].
  destruct (String.eqb k0 k).
  - intros ?. by apply list_elem_of_further.
  - intros [->|?]%elem_of_cons; [apply list_elem_of_here|].
    apply list_elem_of_further. auto.
Qed.

Lemma elem_of_dict_set kv k v (d : dict) : kv ∈ dict_set k v d -> kv = (k, v) \/ kv ∈ d.
Proof.
  induction d as [|[k0 v0] d IH]; simpl.
  - intros ->%list_elem_of_singleton. by left.
  - destruct (String.eqb_spec k0 k) as [->|_].
    + intros [->|?]%elem_of_cons; [by left|]. right. by apply list_elem_of_further.
    + intros [->|Hin]%elem_of_cons; [right; apply list_elem_of_here|].
      destruct (IH Hin) as [?|?]; [by left|]. right. by apply list_elem_of_further.
Qed.

(** The values of the rewritten mapping are values of the mapping the turns
    started from. *)
Lemma rename_keys_values old new snapshot (d : dict) k v :
  (k, v) ∈ rename_keys old new snapshot d -> exists k0, (k0, v) ∈ d.
Proof.
  revert d. induction snapshot as [|key ks IH]; intros d Hin; [eauto|].
  rewrite rename_keys_cons in Hin. destruct (IH _ Hin) as (k1 & Hk1).
  unfold rename_key, dict_pop in Hk1. destruct (contains old key); [|eauto].
  destruct (dict_get key d) as [v0|] eqn:Hget; [|eauto].
  apply elem_of_dict_set in Hk1 as [[= _ ->]|Hk1].
  - exists key. by apply dict_get_Some_elem.
  - exists k1. by eapply elem_of_dict_remove.
Qed.

Lemma keys_avoid_dict_elem c (d : dict) :
  keys_avoid c (VDict d) = true
  <-> forall k v, (k, v) ∈ d -> contains c k = false /\ keys_avoid c v = true.
Proof.
  rewrite keys_avoid_dict. unfold keys. rewrite Forall_fmap, !Forall_forall. split.
  - intros [H1 H2] k v Hin. split; [apply (H1 _ Hin) | apply (H2 _ Hin)].
  - intros H. split; intros [k v] Hin; by apply (H k v).
Qed.

Lemma replace_in_keys_avoids old new v :
  old <> new -> wf v = true -> keys_avoid old (replace_in_keys old new v) = true.
Proof.
  intros Hne. induction v as [| | | |l IH| |d IH] using value_nested_ind; try done.
  - intros Hwf. simpl in *. rewrite forallb_forall in Hwf |- *.
    intros x Hx. apply list_elem_of_In, list_elem_of_fmap in Hx as (y & -> & Hy).
    rewrite Forall_forall in IH. apply IH; [done|]. by apply Hwf, list_elem_of_In.
  - intros [Hnd Hwf]%wf_dict.
    change (replace_in_keys old new (VDict d))
      with (VDict (rename_keys old new (keys d) (on_values (replace_in_keys old new) <$> d))).
    apply keys_avoid_dict_elem. intros k v Hin. split.
    + destruct (contains old k) eqn:Hk; [|done]. exfalso.
      apply (list_elem_of_fmap_2 fst) in Hin as Hkin.
      rewrite <- (keys_on_values (replace_in_keys old new) d) in Hkin at 1.
      apply rename_keys_old_keys in Hkin as [? ?]; [done | done | | done].
      by rewrite keys_on_values.
    + apply rename_keys_values in Hin as (k0 & Hin).
      apply list_elem_of_fmap in Hin as ([k1 v1] & [= -> ->] & Hin).
      rewrite Forall_forall in IH, Hwf. apply (IH _ Hin). apply (Hwf _ Hin).
Qed.

Lemma rename_keys_nothing old new snapshot (d : dict) :
  Forall (fun k => contains old k = false) snapshot -> rename_keys old new snapshot d = d.
Proof.
  intros H. revert d. induction H as [|k ks Hk _ IH]; intros d; [done|].
  rewrite rename_keys_cons. unfold rename_key at 1. by rewrite Hk.
Qed.

Lemma replace_in_keys_nothing old new v :
  keys_avoid old v = true -> replace_in_keys old new v = v.
Proof.
  induction v as [| | | |l IH| |d IH] using value_nested_ind; try done.
  - intros Hav. simpl in *. f_equal. rewrite forallb_forall in Hav.
    rewrite <- (list_fmap_id l) at 2. apply Forall_fmap_ext_1.
    rewrite Forall_forall in IH |- *. intros x Hx. apply IH; [done|].
    by apply Hav, list_elem_of_In.
  - intros [Hk Hav]%keys_avoid_dict.
    change (replace_in_keys old new (VDict d))
      with (VDict (rename_keys old new (keys d) (on_values (replace_in_keys old new) <$> d))).
    rewrite rename_keys_nothing by done. f_equal.
    rewrite <- (list_fmap_id d) at 2. apply Forall_fmap_ext_1.
    rewrite Forall_forall in IH, Hav |- *. intros [k v] Hin. unfold on_values. simpl.
    f_equal. apply (IH _ Hin). apply (Hav _ Hin).
Qed.

(** X1. After [replace_in_keys(data, old, new)] on a well-formed structure no
    key holds [old] any more, at any depth, and a second run changes
    nothing. *)
Theorem replace_in_keys_settles old new v :
  old <> new -> wf v = true ->
  keys_avoid old (replace_in_keys old new v) = true
  /\ replace_in_keys old new (replace_in_keys old new v) = replace_in_keys old new v.
Proof.
  intros Hne Hwf. split; [by apply replace_in_keys_avoids|].
  apply replace_in_keys_nothing. by apply replace_in_keys_avoids.
Qed.

Lemma replace_in_keys_settles_witness :
  let v := VDict [("ignored_paths", VList [VDict [("max_depth", VInt 1)]]);
                  ("exit_zero", VBool true); ("exit-zero", VBool false)] in
  keys_avoid "_" (replace_in_keys "_" "-" v) = true
  /\ replace_in_keys "_" "-" (replace_in_keys "_" "-" v) = replace_in_keys "_" "-" v.
Proof.
  intros v. apply (replace_in_keys_settles "_"%char "-"%char v); [discriminate | reflexivity].
Defined.

(** ** Merging into the empty mapping *)

Lemma layers_fit_empty src :
  wf src = true -> (exists s, src = VDict s) -> layers_fit src (VDict []) = true.
Proof.
  induction src as [| | | | | |s IH] using value_nested_ind;
    try (by intros _ [? [=]]).
  intros [_ Hwf]%wf_dict _. simpl. unfold fit_items.
  apply forallb_forall. intros [k v] Hin%list_elem_of_In. simpl.
  rewrite Forall_forall in IH, Hwf.
  destruct v; try done. apply (IH _ Hin); [apply (Hwf _ Hin) | eauto].
Qed.

Lemma merge_items_into_empty (s acc : dict) :
  Forall (fun kv : string * value =>
            wf kv.2 = true -> null_free kv.2 = true ->
            forall sub, kv.2 = VDict sub ->
            update_dict_from_other (VDict []) kv.2 = Ok kv.2) s ->
  NoDup (keys (acc ++ s)) ->
  Forall (fun kv : string * value => wf kv.2 = true) s ->
  Forall (fun kv : string * value => null_free kv.2 = true) s ->
  merge_items update_dict_from_other s (VDict acc) = Ok (VDict (acc ++ s)).
Proof.
  intros IH. revert acc. induction IH as [|[k v] s Hv _ IH]; intros acc Hnd Hwf Hnull.
  { by rewrite app_nil_r. }
  apply Forall_cons in Hwf as [Hwfv Hwf]. apply Forall_cons in Hnull as [Hnullv Hnull].
  simpl in Hv, Hwfv, Hnullv.
  assert (Hfresh : k ∉ keys acc).
  { unfold keys in Hnd. rewrite fmap_app in Hnd.
    apply NoDup_app in Hnd as (_ & Hdisj & _). intros Hin.
    apply (Hdisj _ Hin). rewrite fmap_cons. apply list_elem_of_here. }
  apply dict_get_None in Hfresh as Hget.
  assert (Hturn : merge_items update_dict_from_other ((k, v) :: s) (VDict acc)
                  = merge_items update_dict_from_other s (VDict (acc ++ [(k, v)]))).
  { destruct v as [|b|n|x|l|x|sub]; try done; cbn [merge_items as_dict bind];
      rewrite ?Hget; cbn [default list_extend set_update bind];
      rewrite ?dict_set_fresh by done; try reflexivity.
    - by rewrite (left_id_L ∅ (∪)).
    - rewrite (Hv Hwfv Hnullv sub eq_refl). cbn [bind]. by rewrite dict_set_fresh. }
  rewrite Hturn, IH; [by rewrite <- app_assoc | by rewrite <- app_assoc | done | done].
Qed.

Lemma update_dict_from_other_copy src :
  wf src = true -> null_free src = true ->
  forall s, src = VDict s -> update_dict_from_other (VDict []) src = Ok src.
Proof.
  induction src as [| | | | | |s IH] using value_nested_ind; try (by intros _ _ ? [=]).
  intros [Hnd Hwf]%wf_dict Hnull ? _.
  simpl in Hnull. rewrite forallb_forall in Hnull.
  apply (merge_items_into_empty s []); [done | done | done |].
  apply Forall_forall. intros kv Hin. by apply Hnull, list_elem_of_In.
Qed.

(** X2. Merging a well-formed mapping into the empty mapping never raises;
    when the mapping holds no null value under its keys, the result is that
    very mapping, in the same order. *)
Theorem update_dict_from_other_into_empty (s : dict) :
  wf (VDict s) = true ->
  (exists d', update_dict_from_other (VDict []) (VDict s) = Ok (VDict d'))
  /\ (null_free (VDict s) = true ->
      update_dict_from_other (VDict []) (VDict s) = Ok (VDict s)).
Proof.
  intros Hwf. split.
  - apply update_dict_from_other_total; [done|]. apply layers_fit_empty; eauto.
  - intros Hnull. by apply (update_dict_from_other_copy (VDict s) Hwf Hnull s).
Qed.

Lemma update_dict_from_other_into_empty_witness :
  let s := [("instance", VStr "x"); ("verbose", VNull);
            ("secret", VDict [("ignored_paths", VSet {["a"]})])] in
  (exists d', update_dict_from_other (VDict []) (VDict s) = Ok (VDict d'))
  /\ update_dict_from_other (VDict []) (VDict [("secret", VDict [("ignored_paths", VSet {["a"]})])])
     = Ok (VDict [("secret", VDict [("ignored_paths", VSet {["a"]})])]).
Proof.
  intros s. split.
  - exact (proj1 (update_dict_from_other_into_empty s eq_refl)).
  - exact (proj2 (update_dict_from_other_into_empty
                    [("secret", VDict [("ignored_paths", VSet {["a"]})])] eq_refl) eq_refl).
Defined.

(** ** Differences *)

Lemma py_eq_refl v : wf v = true -> py_eq v v = true.
Proof.
  induction v as [|b|n|s|l IH|s|d IH] using value_nested_ind; intros Hwf.
  - done.
  - by destruct b.
  - apply Z.eqb_refl.
  - apply String.eqb_refl.
  - simpl in *. rewrite forallb_forall in Hwf.
    induction IH as [|x l Hx _ IHl]; [done|].
    rewrite Hx by (apply Hwf; by left). simpl. apply IHl.
    intros y Hy. apply Hwf. by right.
  - simpl. by apply bool_decide_eq_true.
  - apply wf_dict in Hwf as [Hnd Hwf]. simpl. rewrite Nat.eqb_refl. simpl.
    assert (Hsub : forall x : dict, (forall kv, kv ∈ x -> kv ∈ d) ->
              (fix items (x : dict) : bool :=
                 match x with
                 | [] => true
                 | (k, v) :: x' =>
                     match dict_get k d with
                     | Some w => py_eq v w
                     | None => false
                     end && items x'
                 end) x = true).
    { induction x as [|[k v] x IHx]; intros Hx; [done|].
      assert (Hin : (k, v) ∈ d) by apply Hx, list_elem_of_here.
      rewrite (dict_get_elem k v d Hnd Hin).
      rewrite Forall_forall in IH, Hwf.
      pose proof (IH _ Hin (Hwf _ Hin)) as Hv. simpl in Hv. rewrite Hv. simpl.
      apply IHx. intros kv Hkv. apply Hx. by apply list_elem_of_further. }
    by apply Hsub.
Qed.

Lemma diff_items_same (d : dict) :
  NoDup (keys d) -> Forall (fun kv : string * value => wf kv.2 = true) d ->
  Forall (fun kv : string * value =>
            wf kv.2 = true -> forall sub, kv.2 = VDict sub ->
            remove_common_dict_items kv.2 kv.2 = Ok (VDict [])) d ->
  forall items : dict, (forall kv, kv ∈ items -> kv ∈ d) ->
  diff_items remove_common_dict_items (VDict d) items [] = Ok (VDict []).
Proof.
  intros Hnd Hwf IH. rewrite Forall_forall in IH, Hwf.
  induction items as [|[k v] items IHitems]; intros Hsub; [done|].
  assert (Hin : (k, v) ∈ d) by apply Hsub, list_elem_of_here.
  cbn [diff_items subscript]. rewrite (dict_get_elem k v d Hnd Hin). cbn [bind].
  assert (Hrest : diff_items remove_common_dict_items (VDict d) items [] = Ok (VDict []))
    by (apply IHitems; intros kv Hkv; by apply Hsub, list_elem_of_further).
  pose proof (Hwf _ Hin) as Hwfv. simpl in Hwfv.
  destruct v as [| | | | | |sub]; try (by rewrite (py_eq_refl _ Hwfv)).
  pose proof (IH _ Hin Hwfv sub eq_refl) as Hv. cbn [snd] in Hv. rewrite Hv. exact Hrest.
Qed.

Lemma remove_common_dict_items_same v :
  wf v = true -> forall d, v = VDict d -> remove_common_dict_items v v = Ok (VDict []).
Proof.
  induction v as [| | | | | |d IH] using value_nested_ind; try (by intros _ ? [=]).
  intros [Hnd Hwf]%wf_dict ? _.
  by apply (diff_items_same d Hnd Hwf IH d).
Qed.

Lemma wf_dump_list {A} (f : A -> value) (l : list A) :
  (forall x, wf (f x) = true) -> forallb wf (f <$> l) = true.
Proof.
  intros Hf. apply forallb_forall. intros x Hx.
  apply list_elem_of_In, list_elem_of_fmap in Hx as (y & -> & _). apply Hf.
Qed.

Lemma wf_dump_ignored_path isoformat x : wf (dump_ignored_path isoformat x) = true.
Proof. destruct x as [p [c|] [u|]]; reflexivity. Qed.

Lemma wf_dump_ignored_policy isoformat x : wf (dump_ignored_policy isoformat x) = true.
Proof. destruct x as [p [c|] [u|]]; reflexivity. Qed.

Lemma wf_dump_ignored_vulnerability isoformat x :
  wf (dump_ignored_vulnerability isoformat x) = true.
Proof. destruct x as [i p [c|] [u|]]; reflexivity. Qed.

Lemma wf_dump_ignored_match x : wf (dump_ignored_match x) = true.
Proof. destruct x as [[n|] m]; reflexivity. Qed.

Lemma wf_dump_set s : wf (dump_set s) = true.
Proof. unfold dump_set. simpl. by apply wf_dump_list. Qed.

Lemma wf_to_dict isoformat (self : UserConfig) : wf (to_dict isoformat self) = true.
Proof.
  unfold to_dict, iac_to_dict, sca_to_dict, secret_to_dict.
  pose proof (wf_dump_set (sca_ignored_paths (sca self))) as Hs1.
  pose proof (wf_dump_set (ignored_detectors (secret self))) as Hs2.
  pose proof (wf_dump_set (ignored_paths (secret self))) as Hs3.
  pose proof (wf_dump_list (dump_ignored_path isoformat) (iac_ignored_paths (iac self))
                (wf_dump_ignored_path isoformat)) as Hl1.
  pose proof (wf_dump_list (dump_ignored_policy isoformat) (iac_ignored_policies (iac self))
                (wf_dump_ignored_policy isoformat)) as Hl2.
  pose proof (wf_dump_list (dump_ignored_vulnerability isoformat)
                (ignored_vulnerabilities (sca self))
                (wf_dump_ignored_vulnerability isoformat)) as Hl3.
  pose proof (wf_dump_list dump_ignored_match (ignored_matches (secret self))
                wf_dump_ignored_match) as Hl4.
  unfold dump_set in *. simpl in Hs1, Hs2, Hs3.
  apply wf_dict. split; [by apply (bool_decide_eq_true_1 (NoDup _))|].
  repeat (apply Forall_cons; split); try apply Forall_nil; simpl; try done.
  - by rewrite Hl1, Hl2.
  - by destruct (instance self).
  - by rewrite Hs1, Hl3.
  - by rewrite Hs2, Hl4, Hs3.
Qed.

(** X3. The difference of a well-formed mapping with itself is empty: what
    equals the reference is never kept. In particular a configuration with
    every setting at its default is saved as the version stamp alone. *)
Theorem remove_common_dict_items_nothing_new :
  (forall d, wf (VDict d) = true ->
     remove_common_dict_items (VDict d) (VDict d) = Ok (VDict []))
  /\ (forall isoformat,
        to_config_dict isoformat default_config = Ok (VDict [("version", VInt 2)])).
Proof.
  split.
  - intros d Hwf. by apply (remove_common_dict_items_same (VDict d) Hwf d).
  - intros isoformat. unfold to_config_dict.
    rewrite (remove_common_dict_items_same _ (wf_to_dict isoformat default_config) _ eq_refl).
    reflexivity.
Qed.

Lemma remove_common_dict_items_nothing_new_witness :
  remove_common_dict_items
    (VDict [("verbose", VBool true); ("secret", VDict [("ignored_paths", VSet {["a"; "b"]})])])
    (VDict [("verbose", VBool true); ("secret", VDict [("ignored_paths", VSet {["a"; "b"]})])])
  = Ok (VDict []).
Proof. apply (proj1 remove_common_dict_items_nothing_new). reflexivity. Defined.

Lemma diff_items_entries reference_dct (items : dict) :
  NoDup (keys items) ->
  covered_items keys_covered reference_dct items = true ->
  forall acc : dict, (forall k, k ∈ keys items -> dict_get k acc = None) ->
  exists r, diff_items remove_common_dict_items reference_dct items acc = Ok (VDict r)
    /\ forall k,
         match dict_get k items with
         | None => dict_get k r = dict_get k acc
         | Some v => diffed_entry reference_dct k (Some v) (dict_get k r)
         end.
Proof.
  induction items as [|[key v] items IH]; intros Hnd Hcov acc Hfresh.
  { exists acc. split; [done|]. by intros k. }
  unfold keys in Hnd. rewrite fmap_cons in Hnd. apply NoDup_cons in Hnd as [Hkey Hnd].
  cbn [fst] in Hkey. apply dict_get_None in Hkey as Hrest.
  unfold covered_items in Hcov. simpl in Hcov. apply andb_true_iff in Hcov as [Hhead Hcov].
  destruct reference_dct as [| | | | | |ref]; try done.
  destruct (dict_get key ref) as [rv|] eqn:Hget; [|done].
  assert (Hacc : dict_get key acc = None) by (apply Hfresh, list_elem_of_here).
  assert (Hstep : exists kept acc',
            diff_items remove_common_dict_items (VDict ref) ((key, v) :: items) acc
            = diff_items remove_common_dict_items (VDict ref) items acc'
            /\ diffed_entry (VDict ref) key (Some v) kept
            /\ dict_get key acc' = kept
            /\ forall k, k <> key -> dict_get k acc' = dict_get k acc).
  { cbn [diff_items subscript]. rewrite Hget. cbn [bind].
    assert (Hset : forall x k, k <> key -> dict_get k (dict_set key x acc) = dict_get k acc).
    { intros x k Hk. rewrite dict_get_set.
      destruct (String.eqb_spec key k); [congruence|done]. }
    assert (Hscalar : (forall sub, v <> VDict sub) ->
              exists kept acc',
                (if py_eq v rv
                 then diff_items remove_common_dict_items (VDict ref) items acc
                 else diff_items remove_common_dict_items (VDict ref) items
                        (dict_set key v acc))
                = diff_items remove_common_dict_items (VDict ref) items acc'
                /\ diffed_entry (VDict ref) key (Some v) kept
                /\ dict_get key acc' = kept
                /\ forall k, k <> key -> dict_get k acc' = dict_get k acc).
    { intros Hv. destruct (py_eq v rv) eqn:Heq.
      - exists None, acc. repeat split; [|done].
        exists rv. simpl. rewrite Hget. split; [done|].
        destruct v; try (by rewrite Heq). by destruct (Hv d).
      - exists (Some v), (dict_set key v acc). repeat split.
        + exists rv. simpl. rewrite Hget. split; [done|].
          destruct v; try (by rewrite Heq). by destruct (Hv d).
        + by rewrite dict_get_set, String.eqb_refl.
        + apply Hset. }
    destruct v as [| | | | | |sub]; try (apply Hscalar; intros ? [=]).
    destruct (remove_common_dict_items_returns _ rv Hhead sub eq_refl) as (r' & Hrun).
    rewrite Hrun. cbn [bind].
    destruct (truthy (VDict r')) eqn:Htruthy.
    - exists (Some (VDict r')), (dict_set key (VDict r') acc). repeat split.
      + exists rv. simpl subscript. rewrite Hget. split; [done|].
        exists (VDict r'). by rewrite Htruthy.
      + by rewrite dict_get_set, String.eqb_refl.
      + apply Hset.
    - exists None, acc. repeat split; [|done].
      exists rv. simpl subscript. rewrite Hget. split; [done|].
      exists (VDict r'). by rewrite Htruthy. }
  destruct Hstep as (kept & acc' & Hturn & Hentry & Hkept & Hother).
  destruct (IH Hnd Hcov acc') as (r & Hrun & Hspec).
  { intros k Hk. rewrite Hother; [apply Hfresh; by apply list_elem_of_further|].
    intros ->. done. }
  exists r. split; [by rewrite Hturn|]. intros k. simpl.
  destruct (String.eqb_spec key k) as [<-|Hne].
  - specialize (Hspec key). rewrite Hrest in Hspec. by rewrite Hspec, Hkept.
  - specialize (Hspec k). destruct (dict_get k items); [done|].
    rewrite Hspec. apply Hother. congruence.
Qed.

(** X4. When every key of a well-formed [dct] is covered by [reference_dct],
    [remove_common_dict_items] returns a mapping that holds, of [dct], just
    the entries that differ: a value that is not a mapping is kept as it is
    when it is not equal to the reference value and dropped when it is; a
    nested mapping is replaced by its own difference and dropped when that
    is empty; no other key appears. *)
Theorem remove_common_dict_items_entries (dct : dict) reference_dct :
  wf (VDict dct) = true -> keys_covered (VDict dct) reference_dct = true ->
  exists r, remove_common_dict_items (VDict dct) reference_dct = Ok (VDict r)
    /\ forall key, diffed_entry reference_dct key (dict_get key dct) (dict_get key r).
Proof.
  intros [Hnd _]%wf_dict Hcov.
  destruct (diff_items_entries reference_dct dct Hnd Hcov []) as (r & Hrun & Hspec); [done|].
  exists r. split; [exact Hrun|]. intros key. specialize (Hspec key).
  by destruct (dict_get key dct).
Qed.

Lemma remove_common_dict_items_entries_witness :
  exists r,
    remove_common_dict_items
      (VDict [("verbose", VBool true); ("exit_zero", VBool false);
              ("secret", VDict [("show_secrets", VBool false)])])
      (VDict [("verbose", VBool false); ("exit_zero", VInt 0);
              ("secret", VDict [("show_secrets", VBool false)])])
    = Ok (VDict r)
    /\ dict_get "verbose" r = Some (VBool true)
    /\ dict_get "exit_zero" r = None.
Proof.
  destruct (remove_common_dict_items_entries
              [("verbose", VBool true); ("exit_zero", VBool false);
               ("secret", VDict [("show_secrets", VBool false)])]
              (VDict [("verbose", VBool false); ("exit_zero", VInt 0);
                      ("secret", VDict [("show_secrets", VBool false)])])
              eq_refl eq_refl) as (r & Hrun & Hspec).
  exists r. split; [exact Hrun|]. split.
  - destruct (Hspec "verbose") as (rv & [= <-] & Hkept). exact Hkept.
  - destruct (Hspec "exit_zero") as (rv & [= <-] & Hkept). exact Hkept.
Defined.

(** ** Adding an ignored match twice *)

Lemma backfill_name_again m secret :
  backfill_name (backfill_name m secret) secret = backfill_name m secret.
Proof.
  unfold backfill_name. destruct (unnamed m) eqn:Hm; [|by rewrite Hm].
  cbn [match_]. by destruct (unnamed {| name := name secret; match_ := match_ m |}).
Qed.

Lemma backfill_name_self secret : backfill_name secret secret = secret.
Proof. unfold backfill_name. destruct (unnamed secret); [by destruct secret | done]. Qed.

Lemma add_to_matches_again matches secret :
  add_to_matches (add_to_matches matches secret) secret = add_to_matches matches secret.
Proof.
  induction matches as [|m rest IH]; cbn [add_to_matches].
  - by rewrite String.eqb_refl, backfill_name_self.
  - destruct (String.eqb (match_ m) (match_ secret)) eqn:Heq; cbn [add_to_matches].
    + by rewrite match_backfill_name, Heq, backfill_name_again.
    + by rewrite Heq, IH.
Qed.

Lemma add_to_matches_named matches secret m :
  m ∈ matches -> unnamed m = false -> m ∈ add_to_matches matches secret.
Proof.
  induction matches as [|m' rest IH]; [by intros ?%elem_of_nil|].
  intros [->|Hin]%elem_of_cons Hm; cbn [add_to_matches].
  - destruct (String.eqb _ _); [|apply list_elem_of_here].
    unfold backfill_name. rewrite Hm. apply list_elem_of_here.
  - destruct (String.eqb _ _); apply list_elem_of_further; [done | by apply IH].
Qed.

(** X5. Calling [add_ignored_match] a second time with the same secret
    changes nothing more, whatever the list held (duplicates included);
    after the call the secret's [match] is listed; and an entry that has a
    name is never altered or removed by the call. *)
Theorem add_ignored_match_again (self : SecretConfig) (secret : IgnoredMatch) :
  add_ignored_match (add_ignored_match self secret) secret = add_ignored_match self secret
  /\ match_ secret ∈ match_ <$> ignored_matches (add_ignored_match self secret)
  /\ forall m, m ∈ ignored_matches self -> unnamed m = false ->
       m ∈ ignored_matches (add_ignored_match self secret).
Proof.
  split; [|split].
  - unfold add_ignored_match. cbn. by rewrite add_to_matches_again.
  - cbn. rewrite add_to_matches_keys. case_bool_decide as Hin; [done|].
    apply elem_of_app. right. apply list_elem_of_here.
  - intros m Hin Hm. cbn. by apply add_to_matches_named.
Qed.

Lemma add_ignored_match_again_witness :
  let named := {| name := Some "token"; match_ := "abc" |} in
  let self := {| show_secrets := false; ignored_detectors := ∅;
                 ignored_matches := [named; {| name := None; match_ := "def" |}];
                 ignored_paths := ∅; ignore_known_secrets := false |} in
  named ∈ ignored_matches
            (add_ignored_match self {| name := Some "other"; match_ := "abc" |}).
Proof.
  intros named self.
  apply (add_ignored_match_again self {| name := Some "other"; match_ := "abc" |}).
  - apply list_elem_of_here.
  - reflexivity.
Defined.

(** ** Sweeping again *)

Section expiry_again.
Context {A : Type} `{ConfigIgnoredElement A}.

Lemma is_expired_later now later (x : A) :
  now <= later -> is_expired now x = true -> is_expired later x = true.
Proof.
  unfold is_expired. intros Hle. destruct (until x) as [[c|t off]|]; try done.
  intros Ht%Z.leb_le. apply Z.leb_le. lia.
Qed.

(** X6. Once a list has been swept at [now], sweeping what is left at the
    same moment removes nothing; and sweeping it at a later moment leaves
    the same elements as sweeping the original list at that later moment
    would. An element with no [until] is never removed. *)
Theorem remove_expired_elements_again now later (lst : list A) :
  Forall (fun x => until_aware x = true) lst -> now <= later ->
  exists kept expired kept_later expired_later,
    remove_expired_elements now lst = Ok (kept, expired)
    /\ remove_expired_elements now kept = Ok (kept, [])
    /\ remove_expired_elements later lst = Ok (kept_later, expired_later)
    /\ (exists more, remove_expired_elements later kept = Ok (kept_later, more))
    /\ (forall x, x ∈ lst -> until x = None -> x ∈ kept_later).
Proof.
  intros Haware Hle.
  assert (Hkept : Forall (fun x => until_aware x = true)
                    (filter (fun x => is_expired now x = false) lst)).
  { apply Forall_forall. intros x [_ Hx]%list_elem_of_filter.
    by apply (proj1 (Forall_forall _ _) Haware). }
  eexists _, _, _, _.
  split; [by apply remove_expired_elements_filter|].
  split; [|split; [by apply remove_expired_elements_filter|split]].
  - rewrite remove_expired_elements_filter by done. f_equal. f_equal.
    + apply filter_all, Forall_forall. intros x [Hx _]%list_elem_of_filter. done.
    + apply filter_none, Forall_forall.
      intros x [Hx _]%list_elem_of_filter. congruence.
  - eexists. rewrite remove_expired_elements_filter by done. f_equal. f_equal.
    rewrite list_filter_filter. apply list_filter_iff. intros x. split; [tauto|].
    intros Hx. split; [done|].
    destruct (is_expired now x) eqn:Hnow; [|done].
    by rewrite (is_expired_later now later x Hle Hnow) in Hx.
  - intros x Hin Hnone. apply list_elem_of_filter. split; [|done].
    unfold is_expired. by rewrite Hnone.
Qed.
End expiry_again.

Lemma remove_expired_elements_again_witness :
  let p1 := {| iac_path := "a"; iac_path_comment := None;
               iac_path_until := Some (Aware 100 0) |} in
  let p2 := {| iac_path := "b"; iac_path_comment := None; iac_path_until := None |} in
  let p3 := {| iac_path := "c"; iac_path_comment := None;
               iac_path_until := Some (Aware 250 0) |} in
  remove_expired_elements 200 [p2; p3] = Ok ([p2; p3], [])
  /\ remove_expired_elements 300 [p1; p2; p3] = Ok ([p2], [p1; p3]).
Proof.
  intros p1 p2 p3.
  destruct (remove_expired_elements_again 200 300 [p1; p2; p3])
    as (kept & expired & kept_later & expired_later & Hrun & Hagain & Hlater & _).
  - repeat constructor.
  - lia.
  - injection Hrun as <- <-. injection Hlater as <- <-. split; [exact Hagain | reflexivity].
Defined.

(** ** Trailing slash *)

Lemma last_char_app_slash url : last_char (url ++ "/") = Some "/"%char.
Proof.
  induction url as [|c url IH]; [done|].
  rewrite append_cons. cbn [last_char]. rewrite IH.
  destruct (url ++ "/")%string eqn:Hs; [|done].
  destruct url; [rewrite append_nil in Hs|rewrite append_cons in Hs]; discriminate.
Qed.

Lemma drop_last_app_slash url : drop_last (url ++ "/") = url.
Proof.
  induction url as [|c url IH]; [done|].
  rewrite append_cons. cbn [drop_last]. rewrite IH.
  destruct (url ++ "/")%string eqn:Hs; [|done].
  destruct url; [rewrite append_nil in Hs|rewrite append_cons in Hs]; discriminate.
Qed.

Lemma last_char_drop_last url c :
  last_char url = Some c -> url = (drop_last url ++ String c EmptyString)%string.
Proof.
  induction url as [|a url IH]; [done|].
  cbn [last_char drop_last]. destruct url as [|b url].
  - intros [= ->]. by rewrite append_nil.
  - intros Hlast. rewrite append_cons. f_equal. by apply IH.
Qed.

(** X7. [remove_url_trailing_slash] strips one final slash and no more:
    the address [url ++ "/"] comes back as [url] (so ["a//"] comes back as
    ["a/"]); an address that does not end with a slash comes back as it is;
    and the empty string is not an address the function accepts, it raises
    [IndexError]. *)
Theorem remove_url_trailing_slash_one url :
  remove_url_trailing_slash (url ++ "/") = Ok url
  /\ (remove_url_trailing_slash url = Raise IndexError <-> url = "")
  /\ ((forall base, url <> (base ++ "/")%string) -> url <> "" ->
      remove_url_trailing_slash url = Ok url).
Proof.
  split; [|split].
  - unfold remove_url_trailing_slash.
    by rewrite last_char_app_slash, drop_last_app_slash.
  - unfold remove_url_trailing_slash. split.
    + destruct (last_char url) as [c|] eqn:Hlast.
      * by destruct (Ascii.eqb c "/").
      * intros _. destruct url as [|a url]; [done|].
        exfalso. clear -Hlast. revert a Hlast.
        induction url as [|b url IH]; intros a Hlast; [done|].
        cbn [last_char] in Hlast. by apply (IH b).
    + by intros ->.
  - intros Hbase Hne. unfold remove_url_trailing_slash.
    destruct (last_char url) as [c|] eqn:Hlast.
    + destruct (Ascii.eqb_spec c "/") as [->|_]; [|done].
      destruct (Hbase (drop_last url)). by apply last_char_drop_last.
    + destruct url as [|a url]; [done|].
      exfalso. clear -Hlast. revert a Hlast.
      induction url as [|b url IH]; intros a Hlast; [done|].
      cbn [last_char] in Hlast. by apply (IH b).
Qed.

Lemma remove_url_trailing_slash_one_witness :
  remove_url_trailing_slash "https://api.gitguardian.com//"
  = Ok "https://api.gitguardian.com/"
  /\ remove_url_trailing_slash "" = Raise IndexError.
Proof.
  split.
  - exact (proj1 (remove_url_trailing_slash_one "https://api.gitguardian.com/")).
  - by apply (remove_url_trailing_slash_one "").
Defined.

(** ** The misplaced [ignore-known-secrets] key *)

(** X8. When the root mapping holds a value other than null under
    [ignore-known-secrets] and its [secret] entry is missing or a mapping,
    [_fix_ignore_known_secrets] returns; afterwards the root no longer has
    the key, the [secret] mapping holds the value under
    [ignore-known-secrets] unless it already defined the key (in either
    spelling), in which case it is left as it was and the root value is
    dropped; every other root entry is untouched. *)
Theorem fix_ignore_known_secrets_moves (data secret_dct : dict) v :
  NoDup (keys data) ->
  dict_get "ignore-known-secrets" data = Some v -> v <> VNull ->
  (dict_get "secret" data = None /\ secret_dct = []
   \/ dict_get "secret" data = Some (VDict secret_dct)) ->
  exists data',
    fix_ignore_known_secrets data = Ok data'
    /\ dict_get "ignore-known-secrets" data' = None
    /\ dict_get "secret" data'
       = Some (VDict (if dict_mem "ignore-known-secrets" secret_dct
                         || dict_mem "ignore_known_secrets" secret_dct
                      then secret_dct
                      else dict_set "ignore-known-secrets" v secret_dct))
    /\ forall k, k <> "secret" -> k <> "ignore-known-secrets" ->
         dict_get k data' = dict_get k data.
Proof.
  intros Hnd Hget Hv Hsecret.
  set (rest := dict_remove "ignore-known-secrets" data).
  assert (Hgone : dict_get "ignore-known-secrets" rest = None)
    by by apply dict_get_remove_same.
  assert (Hrest : forall k, k <> "ignore-known-secrets" -> dict_get k rest = dict_get k data).
  { intros k Hk. apply dict_get_remove_ne. congruence. }
  assert (Hrun : fix_ignore_known_secrets data
                 = let data := match dict_get "secret" rest with
                               | Some _ => rest
                               | None => dict_set "secret" (VDict []) rest
                               end in
                   let secret_dct := default (VDict []) (dict_get "secret" data) in
                   let* has_key := py_in "ignore-known-secrets" secret_dct in
                   let* has_either := if has_key : bool then Ok true
                                      else py_in "ignore_known_secrets" secret_dct in
                   if has_either : bool then Ok data
                   else match secret_dct with
                        | VDict d =>
                            Ok (dict_set "secret"
                                  (VDict (dict_set "ignore-known-secrets" v d)) data)
                        | _ => Raise TypeError
                        end).
  { unfold fix_ignore_known_secrets. rewrite (dict_pop_get _ _ _ Hget).
    by destruct v. }
  rewrite Hrun. clear Hrun. rewrite (Hrest "secret") by done.
  assert (Hprepared : exists prepared,
            match dict_get "secret" data with
            | Some _ => rest
            | None => dict_set "secret" (VDict []) rest
            end = prepared
            /\ dict_get "secret" prepared = Some (VDict secret_dct)
            /\ dict_get "ignore-known-secrets" prepared = None
            /\ forall k, k <> "secret" -> k <> "ignore-known-secrets" ->
                 dict_get k prepared = dict_get k data).
  { eexists. split; [reflexivity|].
    destruct Hsecret as [[Hnone ->]|Hsome].
    - rewrite Hnone. rewrite !dict_get_set. cbn [String.eqb Ascii.eqb Bool.eqb].
      split; [done|]. split; [done|]. intros k Hk Hk'. rewrite dict_get_set.
      destruct (String.eqb_spec "secret" k); [congruence|]. by apply Hrest.
    - rewrite Hsome. rewrite (Hrest "secret") by done. split; [done|].
      split; [done|]. intros k _ Hk. by apply Hrest. }
  destruct Hprepared as (prepared & -> & Hsec & Hkey & Hother).
  cbn zeta. rewrite Hsec. cbn [default from_option id py_in bind].
  destruct (dict_mem "ignore-known-secrets" secret_dct) eqn:Hhas; cbn [orb bind].
  { exists prepared. repeat split; [done..|exact Hother]. }
  destruct (dict_mem "ignore_known_secrets" secret_dct) eqn:Hhas'; cbn [bind].
  { exists prepared. repeat split; [done..|exact Hother]. }
  eexists. split; [reflexivity|]. rewrite !dict_get_set.
  cbn [String.eqb Ascii.eqb Bool.eqb]. split; [done|]. split; [done|].
  intros k Hk Hk'. rewrite dict_get_set.
  destruct (String.eqb_spec "secret" k); [congruence|]. by apply Hother.
Qed.

Lemma fix_ignore_known_secrets_moves_witness :
  fix_ignore_known_secrets
    [("ignore-known-secrets", VBool true); ("verbose", VBool true)]
  = Ok [("verbose", VBool true);
        ("secret", VDict [("ignore-known-secrets", VBool true)])].
Proof.
  destruct (fix_ignore_known_secrets_moves
              [("ignore-known-secrets", VBool true); ("verbose", VBool true)] []
              (VBool true)) as (data' & Hrun & _).
  - apply (bool_decide_eq_true_1 (NoDup _)). reflexivity.
  - reflexivity.
  - discriminate.
  - left. split; reflexivity.
  - rewrite Hrun. f_equal. vm_compute in Hrun. by injection Hrun.
Defined.

(** X9. [_fix_ignore_known_secrets] fails on a file that sets
    [ignore-known-secrets] at the root next to a [secret] entry that is
    null, a boolean or a number (an empty [secret:] section in the YAML
    file): the call raises [TypeError]. With no value to move (the key
    missing or null in both spellings) the [secret] entry is not looked at
    and the call returns the mapping without those keys. *)
Theorem fix_ignore_known_secrets_bad_section (data : dict) :
  NoDup (keys data) ->
  (forall v secret,
     dict_get "ignore-known-secrets" data = Some v -> v <> VNull ->
     dict_get "secret" data = Some secret ->
     secret = VNull \/ (exists b, secret = VBool b) \/ (exists n, secret = VInt n) ->
     fix_ignore_known_secrets data = Raise TypeError)
  /\ (dict_get "ignore-known-secrets" data = None ->
      dict_get "ignore_known_secrets" data = None ->
      fix_ignore_known_secrets data = Ok data)
  /\ (dict_get "ignore-known-secrets" data = Some VNull ->
      dict_get "ignore_known_secrets" data = None ->
      fix_ignore_known_secrets data = Ok (dict_remove "ignore-known-secrets" data)).
Proof.
  intros Hnd. split; [|split].
  - intros v secret Hget Hv Hsecret Hkind.
    unfold fix_ignore_known_secrets. rewrite (dict_pop_get _ _ _ Hget).
    assert (Hrest : dict_get "secret" (dict_remove "ignore-known-secrets" data)
                    = Some secret).
    { rewrite dict_get_remove_ne by done. exact Hsecret. }
    destruct Hkind as [->|[[? ->]|[? ->]]];
      destruct v; try done; cbn zeta; rewrite Hrest; cbn beta iota; by rewrite Hrest.
  - intros Hnone Hnone'. unfold fix_ignore_known_secrets.
    by rewrite (dict_pop_missing _ _ Hnone), (dict_pop_missing _ _ Hnone').
  - intros Hnull Hnone. unfold fix_ignore_known_secrets.
    rewrite (dict_pop_get _ _ _ Hnull).
    rewrite dict_pop_missing; [done|].
    rewrite dict_get_remove_ne by done. exact Hnone.
Qed.

Lemma fix_ignore_known_secrets_bad_section_witness :
  fix_ignore_known_secrets [("ignore-known-secrets", VBool true); ("secret", VNull)]
  = Raise TypeError.
Proof.
  apply (proj1 (fix_ignore_known_secrets_bad_section
                  [("ignore-known-secrets", VBool true); ("secret", VNull)]
                  ltac:(apply (bool_decide_eq_true_1 (NoDup _)); reflexivity))
           (VBool true) VNull).
  - reflexivity.
  - discriminate.
  - reflexivity.
  - by left.
Defined.

(** ** Version 2 files *)

Lemma NoDup_rename_keys old new snapshot (d : dict) :
  NoDup (keys d) -> NoDup (keys (rename_keys old new snapshot d)).
Proof.
  revert d. induction snapshot as [|key ks IH]; intros d Hnd; [done|].
  rewrite rename_keys_cons. apply IH. unfold rename_key, dict_pop.
  destruct (contains old key); [|done].
  destruct (dict_get key d); [|done].
  apply NoDup_keys_dict_set. by apply keys_dict_remove.
Qed.

Lemma wf_replace_in_keys old new v : wf v = true -> wf (replace_in_keys old new v) = true.
Proof.
  induction v as [| | | |l IH| |d IH] using value_nested_ind; try done.
  - intros Hwf. simpl in *. rewrite forallb_forall in Hwf |- *.
    intros x Hx. apply list_elem_of_In, list_elem_of_fmap in Hx as (y & -> & Hy).
    rewrite Forall_forall in IH. apply IH; [done|]. by apply Hwf, list_elem_of_In.
  - intros [Hnd Hwf]%wf_dict.
    change (replace_in_keys old new (VDict d))
      with (VDict (rename_keys old new (keys d) (on_values (replace_in_keys old new) <$> d))).
    apply wf_dict. split.
    + apply NoDup_rename_keys. by rewrite keys_on_values.
    + apply Forall_forall. intros [k v] Hin.
      apply rename_keys_values in Hin as (k0 & Hin).
      apply list_elem_of_fmap in Hin as ([k1 v1] & [= -> ->] & Hin).
      rewrite Forall_forall in IH, Hwf. apply (IH _ Hin). apply (Hwf _ Hin).
Qed.

Lemma keys_avoid_get c k v (d : dict) :
  keys_avoid c (VDict d) = true -> dict_get k d = Some v ->
  contains c k = false /\ keys_avoid c v = true.
Proof.
  intros Hav Hget%dict_get_Some_elem.
  by apply (proj1 (keys_avoid_dict_elem c d) Hav k v).
Qed.

Lemma keys_avoid_remove c k (d : dict) :
  keys_avoid c (VDict d) = true -> keys_avoid c (VDict (dict_remove k d)) = true.
Proof.
  rewrite !keys_avoid_dict_elem. intros Hav k' v' Hin.
  apply (Hav k' v'). by eapply elem_of_dict_remove.
Qed.

Lemma keys_avoid_set c k v (d : dict) :
  keys_avoid c (VDict d) = true -> contains c k = false -> keys_avoid c v = true ->
  keys_avoid c (VDict (dict_set k v d)) = true.
Proof.
  rewrite !keys_avoid_dict_elem. intros Hav Hk Hv k' v' Hin.
  apply elem_of_dict_set in Hin as [[= -> ->]|Hin]; [done|]. by apply (Hav k' v').
Qed.

Lemma keys_avoid_missing c k (d : dict) :
  keys_avoid c (VDict d) = true -> contains c k = true -> dict_get k d = None.
Proof.
  intros Hav Hk. destruct (dict_get k d) as [v|] eqn:Hget; [|done].
  destruct (keys_avoid_get c k v d Hav Hget). congruence.
Qed.

(** What [_fix_ignore_known_secrets] leaves of a mapping whose keys hold no
    underscore. *)
Lemma fix_ignore_known_secrets_hyphenated (data data' : dict) :
  NoDup (keys data) -> keys_avoid "_" (VDict data) = true ->
  fix_ignore_known_secrets data = Ok data' ->
  keys_avoid "_" (VDict data') = true
  /\ dict_get "ignore-known-secrets" data' = None
  /\ forall k, k <> "secret" -> k <> "ignore-known-secrets" ->
       dict_get k data' = dict_get k data.
Proof.
  intros Hnd Hav.
  set (rest := dict_remove "ignore-known-secrets" data).
  assert (Hgone : dict_get "ignore-known-secrets" rest = None)
    by by apply dict_get_remove_same.
  assert (Hrest : forall k, k <> "ignore-known-secrets" -> dict_get k rest = dict_get k data).
  { intros k Hk. apply dict_get_remove_ne. congruence. }
  assert (Hav_rest : keys_avoid "_" (VDict rest) = true) by by apply keys_avoid_remove.
  assert (Hunder : forall d : dict, keys_avoid "_" (VDict d) = true ->
                     dict_pop "ignore_known_secrets" d = None).
  { intros d Hd. apply dict_pop_missing. by apply (keys_avoid_missing "_"). }
  unfold fix_ignore_known_secrets.
  destruct (dict_get "ignore-known-secrets" data) as [v|] eqn:Hget.
  2:{ rewrite (dict_pop_missing _ _ Hget), (Hunder _ Hav). intros [= <-]. done. }
  rewrite (dict_pop_get _ _ _ Hget). fold rest.
  destruct (keys_avoid_get _ _ _ _ Hav Hget) as [_ Hav_v].
  assert (Hmoved : forall prepared : dict,
            keys_avoid "_" (VDict prepared) = true ->
            dict_get "ignore-known-secrets" prepared = None ->
            (forall k, k <> "secret" -> k <> "ignore-known-secrets" ->
               dict_get k prepared = dict_get k data) ->
            (let secret_dct := default (VDict []) (dict_get "secret" prepared) in
             let* has_key := py_in "ignore-known-secrets" secret_dct in
             let* has_either := if has_key : bool then Ok true
                                else py_in "ignore_known_secrets" secret_dct in
             if has_either : bool then Ok prepared
             else match secret_dct with
                  | VDict d =>
                      Ok (dict_set "secret"
                            (VDict (dict_set "ignore-known-secrets" v d)) prepared)
                  | _ => Raise TypeError
                  end) = Ok data' ->
            keys_avoid "_" (VDict data') = true
            /\ dict_get "ignore-known-secrets" data' = None
            /\ forall k, k <> "secret" -> k <> "ignore-known-secrets" ->
                 dict_get k data' = dict_get k data).
  { intros prepared Hp Hkey Hother. cbn zeta.
    assert (Hsec : keys_avoid "_" (default (VDict []) (dict_get "secret" prepared)) = true).
    { destruct (dict_get "secret" prepared) as [s|] eqn:Hs; [|done].
      by destruct (keys_avoid_get _ _ _ _ Hp Hs). }
    destruct (default (VDict []) (dict_get "secret" prepared)) as [| | | | | |d];
      cbn [py_in bind]; try done.
    - destruct (is_substring _ _); cbn [bind]; [by intros [= <-]|].
      destruct (is_substring _ _); [by intros [= <-] | done].
    - destruct (existsb _ _); cbn [bind]; [by intros [= <-]|].
      destruct (existsb _ _); [by intros [= <-] | done].
    - destruct (bool_decide _); cbn [bind]; [by intros [= <-]|].
      destruct (bool_decide _); [by intros [= <-] | done].
    - destruct (dict_mem "ignore-known-secrets" d); cbn [bind]; [by intros [= <-]|].
      destruct (dict_mem "ignore_known_secrets" d); cbn [bind]; [by intros [= <-]|].
      intros [= <-]. split; [|split].
      + apply keys_avoid_set; [done | done |]. by apply keys_avoid_set.
      + by rewrite dict_get_set.
      + intros k Hk Hk'. rewrite dict_get_set.
        destruct (String.eqb_spec "secret" k); [congruence|]. by apply Hother. }
  assert (Hprep : forall k, k <> "secret" -> k <> "ignore-known-secrets" ->
            dict_get k (match dict_get "secret" rest with
                        | Some _ => rest
                        | None => dict_set "secret" (VDict []) rest
                        end) = dict_get k data).
  { intros k Hk Hk'. destruct (dict_get "secret" rest); [by apply Hrest|].
    rewrite dict_get_set. destruct (String.eqb_spec "secret" k); [congruence|].
    by apply Hrest. }
  assert (Hprep_av : keys_avoid "_" (VDict (match dict_get "secret" rest with
                                            | Some _ => rest
                                            | None => dict_set "secret" (VDict []) rest
                                            end)) = true).
  { destruct (dict_get "secret" rest); [done|]. by apply keys_avoid_set. }
  assert (Hprep_key : dict_get "ignore-known-secrets"
                        (match dict_get "secret" rest with
                         | Some _ => rest
                         | None => dict_set "secret" (VDict []) rest
                         end) = None).
  { destruct (dict_get "secret" rest); [done|]. by rewrite dict_get_set. }
  destruct v; try (by apply Hmoved).
  rewrite (Hunder _ Hav_rest). intros [= <-]. split; [done|]. split; [done|].
  intros k _ Hk. by apply Hrest.
Qed.

Lemma fix_ignore_known_secrets_returns (rest : dict) :
  keys_avoid "_" (VDict rest) = true ->
  (dict_get "secret" rest = None \/ exists s, dict_get "secret" rest = Some (VDict s)) ->
  exists data, fix_ignore_known_secrets rest = Ok data.
Proof.
  intros Hav_rest Hsecret'.
  assert (Hunder : forall d : dict, keys_avoid "_" (VDict d) = true ->
                     dict_pop "ignore_known_secrets" d = None).
  { intros d Hd. apply dict_pop_missing. by apply (keys_avoid_missing "_"). }
  unfold fix_ignore_known_secrets.
  destruct (dict_get "ignore-known-secrets" rest) as [v|] eqn:Hget.
  2:{ rewrite (dict_pop_missing _ _ Hget), (Hunder _ Hav_rest). eauto. }
  rewrite (dict_pop_get _ _ _ Hget).
  assert (Hsec : exists prepared s,
            match dict_get "secret" (dict_remove "ignore-known-secrets" rest) with
            | Some _ => dict_remove "ignore-known-secrets" rest
            | None => dict_set "secret" (VDict []) (dict_remove "ignore-known-secrets" rest)
            end = prepared /\ dict_get "secret" prepared = Some (VDict s)).
  { rewrite dict_get_remove_ne by done.
    destruct Hsecret' as [->|[s Hs]].
    - eexists _, _. split; [reflexivity|]. by rewrite dict_get_set.
    - rewrite Hs. eexists _, _. split; [reflexivity|].
      rewrite dict_get_remove_ne by done. exact Hs. }
  destruct Hsec as (prepared & s & Hprep & Hsec).
  destruct v.
  1:{ rewrite Hunder by by apply keys_avoid_remove. eauto. }
  all: cbn zeta; rewrite Hprep, Hsec; cbn [default from_option id py_in bind].
  all: destruct (dict_mem "ignore-known-secrets" s); cbn [bind]; [eauto|].
  all: destruct (dict_mem "ignore_known_secrets" s); cbn [bind]; eauto.
Qed.

Section loading_version_2.
Variable api_to_dashboard_url : value -> bool -> result value * list string.

(** A file that declares version 2 goes through the hyphen rewrite and
    [_fix_ignore_known_secrets], and through nothing else. *)
Lemma load_config_dict_version_2_run config_path (d : dict) j :
  wf (VDict d) = true -> dict_get "version" d = Some (VInt 2) ->
  exists d',
    replace_in_keys "_" "-" (VDict d) = VDict d'
    /\ NoDup (keys d') /\ keys_avoid "_" (VDict d') = true
    /\ load_config_dict api_to_dashboard_url config_path (Document (VDict d)) j
       = (match fix_ignore_known_secrets (dict_remove "version" d') with
          | Ok dct => Ok (VDict dct)
          | Raise e => Raise e
          end, j).
Proof.
  intros Hwf Hget.
  destruct (replace_in_keys_neutral_key "_" "-" d "version" eq_refl eq_refl)
    as (d' & Hd' & Hv).
  rewrite Hget in Hv. cbn in Hv.
  pose proof (replace_in_keys_avoids "_" "-" (VDict d) ltac:(done) Hwf) as Hav.
  pose proof (wf_replace_in_keys "_" "-" (VDict d) Hwf) as Hwf'.
  rewrite Hd' in Hav, Hwf'. apply wf_dict in Hwf' as [Hnd _].
  exists d'. split; [done|]. split; [done|]. split; [done|].
  unfold load_config_dict, load_yaml_dict.
  assert (Htruthy : truthy (VDict d) = true) by (by destruct d).
  rewrite Htruthy. unfold bindM at 1. unfold lift at 1. rewrite Htruthy, Hd'.
  unfold bindM at 1. unfold lift at 1. cbn [as_dict].
  rewrite (dict_pop_get _ _ _ Hv). cbn [py_eq Z.eqb Pos.eqb].
  unfold bindM, lift, ret. by destruct (fix_ignore_known_secrets _).
Qed.

(** X10. Loading a well-formed file that declares [version: 2] records no
    deprecation message and shows no warning; the mapping it returns has no
    [version] entry, no [ignore-known-secrets] entry at the root and no
    underscore in any key, at any depth. It does return when the file has no
    [secret] entry or a mapping under it. *)
Theorem load_config_dict_version_2_hyphenated config_path (d : dict) j :
  wf (VDict d) = true -> dict_get "version" d = Some (VInt 2) ->
  let loaded := load_config_dict api_to_dashboard_url config_path (Document (VDict d)) j in
  snd loaded = j
  /\ (forall data, fst loaded = Ok data ->
        exists d', data = VDict d'
          /\ keys_avoid "_" data = true
          /\ dict_get "version" d' = None
          /\ dict_get "ignore-known-secrets" d' = None)
  /\ ((dict_get "secret" d = None \/ exists s, dict_get "secret" d = Some (VDict s)) ->
      exists data, fst loaded = Ok data).
Proof.
  intros Hwf Hget loaded.
  destruct (load_config_dict_version_2_run config_path d j Hwf Hget)
    as (d' & Hd' & Hnd & Hav & Hrun).
  destruct (replace_in_keys_neutral_key "_" "-" d "secret" eq_refl eq_refl)
    as (d'' & Hd'' & Hs).
  rewrite Hd' in Hd''. injection Hd'' as <-.
  set (rest := dict_remove "version" d') in *.
  assert (Hnd_rest : NoDup (keys rest)) by by apply keys_dict_remove.
  assert (Hav_rest : keys_avoid "_" (VDict rest) = true) by by apply keys_avoid_remove.
  unfold loaded. rewrite Hrun. cbn [fst snd]. split; [done|]. split.
  - intros data Hdata.
    destruct (fix_ignore_known_secrets rest) as [dct|e] eqn:Hfix; [|done].
    injection Hdata as <-. exists dct.
    destruct (fix_ignore_known_secrets_hyphenated rest dct Hnd_rest Hav_rest Hfix)
      as (Hav_dct & Hkey & Hother).
    split; [done|]. split; [done|]. split; [|done].
    rewrite Hother by done. by apply dict_get_remove_same.
  - intros Hsecret.
    destruct (fix_ignore_known_secrets_returns rest Hav_rest) as (data & ->); [|eauto].
    unfold rest. rewrite dict_get_remove_ne by done. rewrite Hs.
    destruct Hsecret as [->|[s ->]]; [by left|]. right.
    cbn [fmap option_fmap option_map]. simpl. eauto.
Qed.
End loading_version_2.

Lemma load_config_dict_version_2_hyphenated_witness :
  let j := {| deprecations := ["earlier"]; warnings := [] |} in
  load_config_dict sample_api_to_dashboard_url ".gitguardian.yaml"
    (Document (VDict [("version", VInt 2); ("ignore_known_secrets", VBool true);
                      ("secret", VDict [("show_secrets", VBool true)])])) j
  = (Ok (VDict [("secret", VDict [("show-secrets", VBool true);
                                  ("ignore-known-secrets", VBool true)])]), j).
Proof.
  intros j.
  destruct (load_config_dict_version_2_hyphenated sample_api_to_dashboard_url
              ".gitguardian.yaml"
              [("version", VInt 2); ("ignore_known_secrets", VBool true);
               ("secret", VDict [("show_secrets", VBool true)])] j eq_refl eq_refl)
    as (Hj & _ & Hreturns).
  destruct Hreturns as (data & Hdata); [right; eauto|].
  apply injective_projections; [|exact Hj].
  rewrite Hdata. f_equal. vm_compute in Hdata. by injection Hdata.
Defined.

(** ** What the migration keeps *)

Lemma keys_copy_if_set data dct dst_key src_key k :
  k ∈ keys (copy_if_set data dct dst_key src_key) -> k = dst_key \/ k ∈ keys dct.
Proof.
  unfold copy_if_set. destruct (dict_get _ data); [|by right].
  by intros ?%keys_dict_set_elem.
Qed.

Lemma dict_get_copy_if_set data dct dst_key src_key k :
  dict_get k (copy_if_set data dct dst_key src_key)
  = if String.eqb dst_key k
    then match dict_get (default dst_key src_key) data with
         | Some v => Some v
         | None => dict_get k dct
         end
    else dict_get k dct.
Proof.
  unfold copy_if_set. destruct (dict_get _ data); [|by destruct (String.eqb _ _)].
  apply dict_get_set.
Qed.

Section migration_keeps.
Variable conv : value -> bool -> result value * list string.

Lemma rename_api_url_other data data1 j j1 :
  rename_api_url conv data j = (Ok data1, j1) ->
  deprecations j1 = deprecations j
  /\ forall k, k <> "api-url" -> k <> "instance" -> dict_get k data1 = dict_get k data.
Proof.
  unfold rename_api_url, dict_pop.
  destruct (dict_get "api-url" data) as [api_url|]; [|by intros [= <- <-]].
  assert (Hother : forall k, k <> "api-url" ->
            dict_get k (dict_remove "api-url" data) = dict_get k data).
  { intros k Hk. apply dict_get_remove_ne. congruence. }
  destruct (dict_mem "instance" _).
  { intros [= <- <-]. split; [done|]. intros k Hk _. by apply Hother. }
  destruct (conv api_url true) as [[url|e] shown]; unfold bindM, warn, lift, ret; [|done].
  intros [= <- <-]. split; [done|]. intros k Hk Hk'. rewrite dict_get_set.
  destruct (String.eqb_spec "instance" k); [congruence|]. by apply Hother.
Qed.

(** X11. Whenever [load_v1_dict] returns, the version-2 mapping it returns
    holds nothing but the keys the migration knows: at the root [secret]
    (always there, a mapping) and the five options copied under their own
    name; in [secret] the ignored matches and the three options moved
    there, [banlisted-detectors] as [ignored-detectors] and [paths-ignore]
    as [ignored-paths]. Any other key of the version-1 file is dropped. The
    only deprecation messages it appends are the ones for [all-policies]
    and [ignore-default-excludes], in that order, when the file holds those
    keys. *)
Theorem load_v1_dict_known_keys data j v j' :
  load_v1_dict conv data j = (Ok v, j') ->
  exists d s,
    v = VDict d
    /\ dict_get "secret" d = Some (VDict s)
    /\ (forall k, k ∈ keys d ->
          k ∈ ["secret"; "instance"; "exit-zero"; "verbose"; "allow-self-signed";
               "max-commits-for-hook"])
    /\ (forall k, k ∈ keys s ->
          k ∈ ["ignored-matches"; "show-secrets"; "ignored-detectors"; "ignored-paths"])
    /\ dict_get "show-secrets" s = dict_get "show-secrets" data
    /\ dict_get "ignored-detectors" s = dict_get "banlisted-detectors" data
    /\ dict_get "ignored-paths" s = dict_get "paths-ignore" data
    /\ (forall k, k ∈ ["exit-zero"; "verbose"; "allow-self-signed"; "max-commits-for-hook"] ->
          dict_get k d = dict_get k data)
    /\ deprecations j'
       = deprecations j
         ++ (if dict_mem "all-policies" data
             then ["The `all-policies` option has been deprecated and is now ignored."]
             else [])
         ++ (if dict_mem "ignore-default-excludes" data
             then ["The `ignore-default-exclude` option has been deprecated and is now ignored."]
             else []).
Proof.
  intros Hrun. unfold load_v1_dict in Hrun. unfold bindM at 1 in Hrun.
  destruct (rename_api_url conv data j) as [[data1|e] j1] eqn:Hren; [|done].
  apply rename_api_url_other in Hren as [Hdep1 Hget1].
  unfold bindM at 1 in Hrun. unfold lift at 1 in Hrun.
  destruct (matches_ignore_to_dict data1) as [data2|] eqn:Hm; [|done].
  assert (Hget : forall k, k <> "api-url" -> k <> "instance" -> k <> "matches_ignore" ->
            dict_get k data2 = dict_get k data).
  { intros k H1 H2 H3. rewrite <- Hget1 by done. by eapply matches_ignore_to_dict_get. }
  clear Hm Hget1.
  unfold bindM at 1 in Hrun.
  assert (Hall : dict_mem "all-policies" data2 = dict_mem "all-policies" data)
    by (unfold dict_mem; by rewrite Hget).
  assert (Hexc : dict_mem "ignore-default-excludes" data2
                 = dict_mem "ignore-default-excludes" data)
    by (unfold dict_mem; by rewrite Hget).
  rewrite Hall, Hexc in Hrun. clear Hall Hexc.
  assert (Hsecret : forall r,
            match dict_get "matches-ignore" data2 with
            | Some matches_ignore =>
                if truthy matches_ignore
                then let* l := ignored_matches_of matches_ignore in
                     Ok [("ignored-matches", l)]
                else Ok []
            | None => Ok []
            end = r ->
            match r with
            | Ok secret_dct =>
                (forall k, k ∈ keys secret_dct -> k = "ignored-matches")
                /\ forall k, k <> "ignored-matches" -> dict_get k secret_dct = None
            | Raise _ => True
            end).
  { assert (Hempty : (forall k, k ∈ keys ([] : dict) -> k = "ignored-matches")
                     /\ forall k, k <> "ignored-matches" -> dict_get k [] = None)
      by (split; [by intros k ?%elem_of_nil | done]).
    intros r <-. destruct (dict_get "matches-ignore" data2) as [mi|]; [|done].
    destruct (truthy mi); [|done].
    destruct (ignored_matches_of mi) as [l|]; [|done]. cbn [bind]. split.
    - by intros k ->%list_elem_of_singleton.
    - intros k Hk. cbn [dict_get].
      destruct (String.eqb_spec "ignored-matches" k); [congruence | done]. }
  specialize (Hsecret _ eq_refl).
  destruct (match dict_get "matches-ignore" data2 with
            | Some _ => _
            | None => _
            end) as [secret_dct|e]; [destruct Hsecret as [Hkeys Hnone] | clear Hsecret].
  2:{ exfalso. destruct (dict_mem "all-policies" data),
        (dict_mem "ignore-default-excludes" data); done. }
  assert (Hout : v = VDict
                   (copy_if_set data2
                      (copy_if_set data2
                         (copy_if_set data2
                            (copy_if_set data2
                               (copy_if_set data2
                                  [("secret",
                                    VDict
                                      (copy_if_set data2
                                         (copy_if_set data2
                                            (copy_if_set data2 secret_dct
                                               "show-secrets" None)
                                            "ignored-detectors"
                                            (Some "banlisted-detectors"))
                                         "ignored-paths"
                                         (Some "paths-ignore")))]
                                  "instance" None)
                               "exit-zero" None)
                            "verbose" None)
                         "allow-self-signed" None)
                      "max-commits-for-hook" None)
                 /\ deprecations j'
                    = deprecations j
                      ++ (if dict_mem "all-policies" data
                          then ["The `all-policies` option has been deprecated and is now ignored."]
                          else [])
                      ++ (if dict_mem "ignore-default-excludes" data
                          then ["The `ignore-default-exclude` option has been deprecated and is now ignored."]
                          else [])).
  { destruct (dict_mem "all-policies" data), (dict_mem "ignore-default-excludes" data);
      injection Hrun as <- <-; (split; [reflexivity|]); cbn [deprecations];
      rewrite Hdep1, <- ?app_assoc, ?app_nil_r; reflexivity. }
  clear Hrun. destruct Hout as [-> Hdep].
  eexists _, _. split; [reflexivity|].
  split; [rewrite !dict_get_copy_if_set; reflexivity|].
  split.
  { intros k Hk. repeat (apply keys_copy_if_set in Hk as [->|Hk]).
    all: try apply list_elem_of_singleton in Hk as ->.
    all: repeat first [apply list_elem_of_here | apply list_elem_of_further]. }
  split.
  { intros k Hk. repeat (apply keys_copy_if_set in Hk as [->|Hk]).
    all: try apply Hkeys in Hk as ->.
    all: repeat first [apply list_elem_of_here | apply list_elem_of_further]. }
  split.
  { rewrite !dict_get_copy_if_set. cbn [String.eqb Ascii.eqb Bool.eqb default from_option id].
    rewrite Hget, Hnone by done. by destruct (dict_get _ data). }
  split.
  { rewrite !dict_get_copy_if_set. cbn [String.eqb Ascii.eqb Bool.eqb default from_option id].
    rewrite Hget, Hnone by done. by destruct (dict_get _ data). }
  split.
  { rewrite !dict_get_copy_if_set. cbn [String.eqb Ascii.eqb Bool.eqb default from_option id].
    rewrite Hget, Hnone by done. by destruct (dict_get _ data). }
  split; [|exact Hdep].
  intros k Hk. repeat (apply elem_of_cons in Hk as [->|Hk]); [..|by apply elem_of_nil in Hk].
  all: rewrite !dict_get_copy_if_set;
    cbn [String.eqb Ascii.eqb Bool.eqb default from_option id dict_get];
    rewrite Hget by done; by destruct (dict_get _ data).
Qed.
End migration_keeps.

Lemma load_v1_dict_known_keys_witness :
  let j := {| deprecations := []; warnings := [] |} in
  exists d j',
    load_v1_dict sample_api_to_dashboard_url
      [("all-policies", VBool true); ("paths-ignore", VList [VStr "tests"]);
       ("color", VStr "auto")] j
    = (Ok (VDict d), j')
    /\ dict_get "color" d = None
    /\ deprecations j'
       = ["The `all-policies` option has been deprecated and is now ignored."].
Proof.
  intros j.
  destruct (load_v1_dict sample_api_to_dashboard_url
              [("all-policies", VBool true); ("paths-ignore", VList [VStr "tests"]);
               ("color", VStr "auto")] j) as [[v|e] j'] eqn:Hrun; [|discriminate Hrun].
  destruct (load_v1_dict_known_keys sample_api_to_dashboard_url _ _ _ _ Hrun)
    as (d & s & -> & _ & Hkeys & _ & _ & _ & _ & _ & Hdep).
  exists d, j'. split; [reflexivity|]. split; [|exact Hdep].
  apply dict_get_None. intros Hin. specialize (Hkeys _ Hin).
  by apply (bool_decide_eq_false_1 (_ ∈ _)) in Hkeys.
Defined.

(** ** Bare strings under [matches_ignore] *)

Lemma dict_set_same k v (d : dict) : dict_get k d = Some v -> dict_set k v d = d.
Proof.
  induction d as [|[k' w] d IH]; simpl; [done|].
  destruct (String.eqb_spec k' k) as [->|Hne]; [by intros [= ->]|].
  intros Hget. by rewrite IH.
Qed.

(** X12. On a mapping that holds a list under [matches_ignore],
    [matches_ignore_to_dict] returns; it rewrites every bare string of the
    list to the mapping with an empty [name] and the string as [match],
    leaves the other elements, the length of the list, the keys of the
    mapping and every other entry as they were, and a second call changes
    nothing. *)
Theorem matches_ignore_to_dict_converts (data : dict) (l : list value) :
  dict_get "matches_ignore" data = Some (VList l) ->
  exists data' l',
    matches_ignore_to_dict data = Ok data'
    /\ keys data' = keys data
    /\ (forall k, k <> "matches_ignore" -> dict_get k data' = dict_get k data)
    /\ dict_get "matches_ignore" data' = Some (VList l')
    /\ length l' = length l
    /\ (forall i s, l !! i = Some (VStr s) ->
          l' !! i = Some (VDict [("name", VStr ""); ("match", VStr s)]))
    /\ (forall i m, l !! i = Some m -> (forall s, m <> VStr s) -> l' !! i = Some m)
    /\ matches_ignore_to_dict data' = Ok data'.
Proof.
  intros Hget.
  set (convert := fun m => match m with
                           | VStr s => VDict [("name", VStr ""); ("match", m)]
                           | _ => m
                           end).
  assert (Hrun : matches_ignore_to_dict data
                 = Ok (dict_set "matches_ignore" (VList (convert <$> l)) data)).
  { unfold matches_ignore_to_dict. rewrite Hget. destruct l as [|m l]; [|done].
    cbn [truthy negb fmap list_fmap]. by rewrite dict_set_same. }
  exists (dict_set "matches_ignore" (VList (convert <$> l)) data), (convert <$> l).
  split; [exact Hrun|]. split.
  { rewrite keys_dict_set. unfold dict_mem. by rewrite Hget. }
  split.
  { intros k Hk. rewrite dict_get_set.
    destruct (String.eqb_spec "matches_ignore" k); [congruence | done]. }
  split; [by rewrite dict_get_set, String.eqb_refl|].
  split; [apply length_fmap|].
  split.
  { intros i s Hi. by rewrite list_lookup_fmap, Hi. }
  split.
  { intros i m Hi Hm. rewrite list_lookup_fmap, Hi. cbn. destruct m; try done.
    by destruct (Hm s). }
  unfold matches_ignore_to_dict. rewrite dict_get_set, String.eqb_refl.
  destruct (negb (truthy _)); [done|]. f_equal. apply dict_set_same.
  rewrite dict_get_set, String.eqb_refl. f_equal. f_equal.
  rewrite <- list_fmap_compose. apply list_fmap_ext. intros _ m _.
  by destruct m.
Qed.

Lemma matches_ignore_to_dict_converts_witness :
  matches_ignore_to_dict
    [("matches_ignore",
      VList [VStr "deadbeef"; VDict [("name", VStr "key"); ("match", VStr "cafe")]])]
  = Ok [("matches_ignore",
         VList [VDict [("name", VStr ""); ("match", VStr "deadbeef")];
                VDict [("name", VStr "key"); ("match", VStr "cafe")]])].
Proof.
  destruct (matches_ignore_to_dict_converts
              [("matches_ignore",
                VList [VStr "deadbeef"; VDict [("name", VStr "key"); ("match", VStr "cafe")]])]
              _ eq_refl) as (data' & l' & Hrun & _).
  rewrite Hrun. vm_compute in Hrun. symmetry. exact Hrun.
Defined.

(** ** What [to_config_dict] writes *)

Lemma wf_dict_set k v (d : dict) :
  wf (VDict d) = true -> wf v = true -> wf (VDict (dict_set k v d)) = true.
Proof.
  rewrite !wf_dict. intros [Hnd Hwf] Hv. split; [by apply NoDup_keys_dict_set|].
  apply Forall_forall. intros kv [->|Hin]%elem_of_dict_set; [done|].
  by apply (proj1 (Forall_forall _ _) Hwf).
Qed.

Lemma wf_diff_items reference_dct (items : dict) :
  Forall (fun kv => forall reference r,
            wf kv.2 = true -> remove_common_dict_items kv.2 reference = Ok r ->
            wf r = true) items ->
  Forall (fun kv => wf kv.2 = true) items ->
  forall acc r, wf (VDict acc) = true ->
  diff_items remove_common_dict_items reference_dct items acc = Ok r -> wf r = true.
Proof.
  induction 1 as [|[key v] items Hv _ IH]; intros Hwf acc r Hacc.
  { by intros [= <-]. }
  apply Forall_cons in Hwf as [Hwf_v Hwf]. cbn [snd] in Hv, Hwf_v.
  cbn [diff_items]. destruct (subscript reference_dct key) as [rv|]; [|done].
  cbn [bind].
  assert (Hscalar : (if py_eq v rv
                     then diff_items remove_common_dict_items reference_dct items acc
                     else diff_items remove_common_dict_items reference_dct items
                            (dict_set key v acc)) = Ok r -> wf r = true).
  { destruct (py_eq v rv); apply IH; try done. by apply wf_dict_set. }
  destruct v as [| | | | | |sub]; try exact Hscalar.
  destruct (remove_common_dict_items (VDict sub) rv) as [value'|] eqn:Hsub; [|done].
  cbn [bind]. destruct (truthy value'); apply IH; try done.
  apply wf_dict_set; [done|]. by apply (Hv rv).
Qed.

Lemma wf_remove_common_dict_items dct :
  forall reference r,
    wf dct = true -> remove_common_dict_items dct reference = Ok r -> wf r = true.
Proof.
  induction dct as [| | | | | |items IH] using value_nested_ind; try done.
  intros reference r [Hnd Hwf]%wf_dict. cbn [remove_common_dict_items].
  by apply wf_diff_items.
Qed.

(** X13. For every configuration, [to_config_dict] returns a well-formed
    mapping that holds [version: 2] and has no underscore in any key, at
    any depth; read back as a document, the mapping loads as version 2:
    the load returns and records no deprecation message. *)
Theorem to_config_dict_reloads isoformat (self : UserConfig)
    (conv : value -> bool -> result value * list string) config_path j :
  exists d,
    to_config_dict isoformat self = Ok (VDict d)
    /\ wf (VDict d) = true
    /\ dict_get "version" d = Some (VInt 2)
    /\ keys_avoid "_" (VDict d) = true
    /\ exists data, load_config_dict conv config_path (Document (VDict d)) j = (Ok data, j).
Proof.
  pose proof (to_dict_keys_covered isoformat self) as Hcov.
  pose proof (wf_to_dict isoformat self) as Hwf.
  assert (Hitems : exists items, to_dict isoformat self = VDict items
                                 /\ exists sec, dict_get "secret" items = Some (VDict sec)).
  { eexists. split; [reflexivity|]. eexists. reflexivity. }
  destruct Hitems as (items & Hitems & sec & Hsec).
  rewrite Hitems in Hcov, Hwf.
  apply wf_dict in Hwf as Hparts. destruct Hparts as [Hnd _].
  destruct (diff_items_entries (to_dict isoformat default_config) items Hnd Hcov [])
    as (r & Hrun & Hspec); [done|].
  assert (Hwf_r : wf (VDict r) = true).
  { eapply wf_remove_common_dict_items; [exact Hwf | exact Hrun]. }
  assert (Hsecret : dict_get "secret" r = None
                    \/ exists s, dict_get "secret" r = Some (VDict s)).
  { specialize (Hspec "secret"). rewrite Hsec in Hspec.
    destruct Hspec as (rv & Hrv & value' & Hdiff & Hkept).
    assert (Hcov_sec : keys_covered (VDict sec) rv = true).
    { unfold keys_covered in Hcov; fold keys_covered in Hcov.
      unfold covered_items in Hcov. rewrite forallb_forall in Hcov.
      specialize (Hcov _ (proj1 (list_elem_of_In _ _) (dict_get_Some_elem _ _ _ Hsec))).
      cbn [fst snd] in Hcov. cbn [to_dict subscript] in Hrv, Hcov.
      destruct (dict_get "secret" _) as [rv'|]; [|done].
      by injection Hrv as ->. }
    destruct (remove_common_dict_items_returns _ rv Hcov_sec sec eq_refl) as (s & Hs).
    rewrite Hs in Hdiff. injection Hdiff as <-.
    rewrite Hkept. destruct (truthy (VDict s)); eauto. }
  set (stamped := dict_set "version" (VInt CURRENT_CONFIG_VERSION) r).
  assert (Hwf_stamped : wf (VDict stamped) = true) by by apply wf_dict_set.
  destruct (replace_in_keys_neutral_key "_" "-" stamped "version" eq_refl eq_refl)
    as (d & Hd & Hversion).
  destruct (replace_in_keys_neutral_key "_" "-" stamped "secret" eq_refl eq_refl)
    as (d' & Hd' & Hsecret_d).
  rewrite Hd in Hd'. injection Hd' as <-.
  unfold stamped in Hversion, Hsecret_d. rewrite dict_get_set in Hversion, Hsecret_d.
  cbn in Hversion. cbn [String.eqb Ascii.eqb Bool.eqb] in Hsecret_d.
  pose proof (replace_in_keys_avoids "_" "-" _ ltac:(done) Hwf_stamped) as Hav.
  pose proof (wf_replace_in_keys "_" "-" _ Hwf_stamped) as Hwf_d.
  rewrite Hd in Hav, Hwf_d.
  exists d. split.
  { unfold to_config_dict. rewrite Hitems. cbn [remove_common_dict_items].
    rewrite Hrun. cbn [bind]. fold stamped. by rewrite Hd. }
  split; [done|]. split; [done|]. split; [done|].
  destruct (load_config_dict_version_2_run conv config_path d j Hwf_d Hversion)
    as (d2 & Hd2 & _ & _ & Hload).
  rewrite (replace_in_keys_nothing _ _ _ Hav) in Hd2. injection Hd2 as <-.
  rewrite Hload.
  destruct (fix_ignore_known_secrets_returns (dict_remove "version" d)) as (data & ->).
  - by apply keys_avoid_remove.
  - rewrite dict_get_remove_ne by done. rewrite Hsecret_d.
    destruct Hsecret as [->|[s ->]]; [by left|]. right.
    cbn [fmap option_fmap option_map]. simpl. eauto.
  - eauto.
Qed.

(** ** Full timestamps *)

Lemma one_digit_length s x r :
  one_digit s = Some (x, r) -> String.length s = S (String.length r).
Proof.
  destruct s as [|a s]; [done|]. simpl. destruct (digit_of a); [|done].
  by intros [= _ ->].
Qed.

Lemma two_digits_length s x r :
  two_digits s = Some (x, r) -> String.length s = S (S (String.length r)).
Proof.
  unfold two_digits. destruct (one_digit s) as [[a s1]|] eqn:H1; [|done].
  destruct (one_digit s1) as [[b s2]|] eqn:H2; [|done]. intros [= _ <-].
  by rewrite (one_digit_length _ _ _ H1), (one_digit_length _ _ _ H2).
Qed.

Lemma four_digits_length s x r :
  four_digits s = Some (x, r) -> String.length s = S (S (S (S (String.length r)))).
Proof.
  unfold four_digits. destruct (two_digits s) as [[a s1]|] eqn:H1; [|done].
  destruct (two_digits s1) as [[b s2]|] eqn:H2; [|done]. intros [= _ <-].
  by rewrite (two_digits_length _ _ _ H1), (two_digits_length _ _ _ H2).
Qed.

Lemma expect_length c s r : expect c s = Some r -> String.length s = S (String.length r).
Proof.
  destruct s as [|a s]; [done|]. simpl. destruct (Ascii.eqb a c); [|done].
  by intros [= ->].
Qed.

Lemma strptime_month_length s m r :
  strptime_month s = Some (m, r) -> (String.length s <= 2 + String.length r)%nat.
Proof.
  unfold strptime_month. destruct (one_digit s) as [[x s1]|] eqn:H1; [|done].
  apply one_digit_length in H1. rewrite H1.
  assert (Hsingle : (if 1 <=? x then Some (x, s1) else None) = Some (m, r) ->
                    (S (String.length s1) <= 2 + String.length r)%nat).
  { destruct (1 <=? x); [|done]. intros [= _ ->]. lia. }
  destruct (one_digit s1) as [[y s2]|] eqn:H2; [|exact Hsingle].
  apply one_digit_length in H2. rewrite H2.
  destruct ((x =? 1) && (y <=? 2)); [intros [= _ <-]; lia|].
  destruct ((x =? 0) && (1 <=? y)); [intros [= _ <-]; lia|].
  rewrite <- H2. exact Hsingle.
Qed.

Lemma strptime_day_length s d r :
  strptime_day s = Some (d, r) -> (String.length s <= 2 + String.length r)%nat.
Proof.
  unfold strptime_day. destruct (one_digit s) as [[x s1]|] eqn:H1.
  - apply one_digit_length in H1. rewrite H1.
    assert (Hsingle : (if 1 <=? x then Some (x, s1) else None) = Some (d, r) ->
                      (S (String.length s1) <= 2 + String.length r)%nat).
    { destruct (1 <=? x); [|done]. intros [= _ ->]. lia. }
    destruct (one_digit s1) as [[y s2]|] eqn:H2; [|exact Hsingle].
    apply one_digit_length in H2. rewrite H2.
    destruct ((x =? 3) && (y <=? 1)); [intros [= _ <-]; lia|].
    destruct ((x =? 1) || (x =? 2)); [intros [= _ <-]; lia|].
    destruct ((x =? 0) && (1 <=? y)); [intros [= _ <-]; lia|].
    rewrite <- H2. exact Hsingle.
  - destruct (expect " " s) as [s1|] eqn:He; [|done].
    apply expect_length in He. rewrite He.
    destruct (one_digit s1) as [[y s2]|] eqn:H2; [|done].
    apply one_digit_length in H2. rewrite H2.
    destruct (1 <=? y); [|done]. intros [= _ <-]. lia.
Qed.

(** A string that [strptime] reads as a date has at most ten characters and
    names a date of the calendar. *)
Lemma strptime_date_short s c :
  strptime_date s = Ok c ->
  (String.length s <= 10)%nat
  /\ exists y m d, c = midnight y m d /\ valid_date y m d = true.
Proof.
  unfold strptime_date.
  destruct (four_digits s) as [[y s1]|] eqn:H1; [|done].
  destruct (expect "-" s1) as [s2|] eqn:H2; [|done].
  destruct (strptime_month s2) as [[m s3]|] eqn:H3; [|done].
  destruct (expect "-" s3) as [s4|] eqn:H4; [|done].
  destruct (strptime_day s4) as [[d s5]|] eqn:H5; [|done].
  destruct s5; [|done].
  destruct (valid_date y m d) eqn:Hvalid; [|done]. intros [= <-].
  apply four_digits_length in H1. apply expect_length in H2, H4.
  apply strptime_month_length in H3. apply strptime_day_length in H5.
  simpl in H5. split; [lia|]. by exists y, m, d.
Qed.

(** A string the sample reader accepts has at least nineteen characters. *)
Lemma sample_from_iso_datetime_long s dt :
  sample_from_iso_datetime s = Some dt -> (19 <= String.length s)%nat.
Proof.
  unfold sample_from_iso_datetime.
  destruct (four_digits s) as [[y s1]|] eqn:H1; [|done].
  destruct (expect "-" s1) as [s2|] eqn:H2; [|done].
  destruct (two_digits s2) as [[m s3]|] eqn:H3; [|done].
  destruct (expect "-" s3) as [s4|] eqn:H4; [|done].
  destruct (two_digits s4) as [[d s5]|] eqn:H5; [|done].
  assert (H6 : forall s6,
            match expect "T" s5 with Some r' => Some r' | None => expect " " s5 end
            = Some s6 -> String.length s5 = S (String.length s6)).
  { intros s6. destruct (expect "T" s5) eqn:HT.
    - intros [= <-]. by apply expect_length in HT.
    - by intros ?%expect_length. }
  destruct (match expect "T" s5 with Some r' => Some r' | None => expect " " s5 end)
    as [s6|]; [|done].
  specialize (H6 _ eq_refl).
  destruct (two_digits s6) as [[h s7]|] eqn:H7; [|done].
  destruct (expect ":" s7) as [s8|] eqn:H8; [|done].
  destruct (two_digits s8) as [[mi s9]|] eqn:H9; [|done].
  destruct (expect ":" s9) as [s10|] eqn:H10; [|done].
  destruct (two_digits s10) as [[sec s11]|] eqn:H11; [|done].
  intros _.
  apply four_digits_length in H1. apply expect_length in H2, H4, H8, H10.
  apply two_digits_length in H3, H5, H7, H9, H11. lia.
Qed.

(** The text of a midnight is too long for a date. *)
Lemma str_naive_midnight_long y m d :
  valid_date y m d = true -> (10 < String.length (str_naive (midnight y m d)))%nat.
Proof.
  intros Hvalid.
  pose proof (sample_from_iso_datetime_long _ _ (from_iso_str_naive y m d Hvalid)). lia.
Qed.

Lemma strptime_date_long s :
  (10 < String.length s)%nat -> exists e, strptime_date s = Raise e.
Proof.
  intros Hlong. destruct (strptime_date s) as [c|e] eqn:Hdate; [|by exists e].
  apply strptime_date_short in Hdate as [Hshort _]. lia.
Qed.

(** X14. A text of more than ten characters under [until] is not taken for
    a date: [parse_date] leaves the element as it is. When the reader of the
    schema reads the text as a time with a zone designator, the element
    loads as the instant the text denotes, in UTC, whatever the time zone of
    the process; when that instant is outside the calendar, loading raises
    [OverflowError]. Running [parse_date] a second time never changes what
    the first run returned. *)
Theorem load_until_timestamp (from_iso_datetime : string -> option datetime)
    (local : timezone) (data : dict) s dt :
  dict_get "until" data = Some (VStr s) -> (10 < String.length s)%nat ->
  from_iso_datetime s = Some dt ->
  parse_date (VDict data) = VDict data
  /\ (forall instant off, dt = Aware instant off ->
        load_until from_iso_datetime local (VDict data)
        = if representable instant then Ok (Some (Aware instant 0))
          else Raise OverflowError)
  /\ forall any, parse_date (parse_date any) = parse_date any.
Proof.
  intros Hget Hlong Hiso.
  assert (Hparse : parse_date (VDict data) = VDict data).
  { unfold parse_date. rewrite Hget.
    by destruct (strptime_date_long s Hlong) as [e ->]. }
  split; [exact Hparse|]. split.
  - intros instant off ->. unfold load_until. rewrite Hparse, Hget.
    unfold deserialize_datetime. rewrite Hiso.
    destruct (String.eqb_spec s "") as [->|_]; [simpl in Hlong; lia|].
    cbn [bind datetime_to_utc astimezone_utc]. by destruct (representable instant).
  - intros any. unfold parse_date at 2.
    destruct any as [| | | | | |d]; try done.
    destruct (dict_get "until" d) as [[| | |u| | |]|] eqn:Hu;
      try (unfold parse_date; by rewrite Hu).
    destruct (strptime_date u) as [c|] eqn:Hdate.
    2:{ unfold parse_date. by rewrite Hu, Hdate. }
    unfold parse_date. rewrite dict_get_set, String.eqb_refl.
    destruct (strptime_date_short _ _ Hdate) as (_ & y & m & dd & -> & Hvalid).
    rewrite Hu, Hdate.
    by destruct (strptime_date_long _ (str_naive_midnight_long y m dd Hvalid)) as [e ->].
Qed.

Lemma load_until_timestamp_witness :
  load_until sample_from_iso_datetime (fun _ => 7200)
    (VDict [("path", VStr "tests/"); ("until", VStr "2024-01-01T12:00:00+02:00")])
  = Ok (Some (Aware 1704103200 0)).
Proof.
  apply (proj1 (proj2 (load_until_timestamp sample_from_iso_datetime (fun _ => 7200)
           [("path", VStr "tests/"); ("until", VStr "2024-01-01T12:00:00+02:00")]
           "2024-01-01T12:00:00+02:00" (Aware 1704103200 7200)
           eq_refl ltac:(simpl; lia) eq_refl)) 1704103200 7200 eq_refl).
Defined.

(** ** Identifier patterns *)

Lemma strip_prefix_Some text s r : strip_prefix text s = Some r <-> s = (text ++ r)%string.
Proof.
  revert s. induction text as [|a text IH]; intros s.
  - rewrite append_nil. simpl. split; [by intros [= ->] | by intros ->].
  - rewrite append_cons. destruct s as [|b s]; simpl; [done|].
    destruct (Ascii.eqb_spec a b) as [->|Hne].
    + rewrite IH. split; [by intros -> | by intros [= ->]].
    + split; [done | intros [= ? ?]; congruence].
Qed.

Lemma append_nil_r (a : string) : (a ++ "")%string = a.
Proof. induction a as [|x a IH]; [done|]. by rewrite append_cons, IH. Qed.

Lemma match_prefix_cat r1 r2 s :
  match_prefix (Cat r1 r2) s
  = match match_prefix r1 s with
    | Some rest => match_prefix r2 rest
    | None => None
    end.
Proof. reflexivity. Qed.

Lemma match_prefix_literal text s : match_prefix (Literal text) s = strip_prefix text s.
Proof. reflexivity. Qed.

Lemma match_prefix_times n r s :
  match_prefix (Times n r) s = repeat_match n (match_prefix r) s.
Proof. reflexivity. Qed.

(** [n] characters of a class, then the rest. *)
Lemma repeat_match_class n accepts s r :
  repeat_match n (match_prefix (Class accepts)) s = Some r
  <-> exists g, s = (g ++ r)%string /\ String.length g = n
                /\ forall c, contains c g = true -> accepts c = true.
Proof.
  revert s. induction n as [|n IH]; intros s; cbn [repeat_match].
  - split.
    + intros [= ->]. exists ""%string. by rewrite append_nil.
    + intros (g & -> & Hlen & _). destruct g; [by rewrite append_nil | done].
  - cbn [match_prefix]. destruct s as [|a s].
    { split; [done|]. intros (g & Hs & Hlen & _). destruct g; [done|].
      rewrite append_cons in Hs. done. }
    destruct (accepts a) eqn:Ha.
    + rewrite IH. split.
      * intros (g & -> & Hlen & Hall). exists (String a g). rewrite append_cons.
        split; [done|]. split; [simpl; lia|]. intros c. simpl.
        destruct (Ascii.eqb_spec a c) as [<-|_]; [done | apply Hall].
      * intros (g & Hs & Hlen & Hall). destruct g as [|b g]; [done|].
        rewrite append_cons in Hs. injection Hs as <- ->. exists g.
        split; [done|]. split; [simpl in Hlen; lia|].
        intros c Hc. apply Hall. simpl. rewrite Hc. apply orb_true_r.
    + split; [done|]. intros (g & Hs & Hlen & Hall). destruct g as [|b g]; [done|].
      rewrite append_cons in Hs. injection Hs as <- ->.
      rewrite Hall in Ha; [done|]. simpl. by rewrite Ascii.eqb_refl.
Qed.

Lemma decimal_digit_char x : 0 <= x < 10 -> decimal (digit_char x) = true.
Proof.
  intros Hx.
  assert (x = 0 \/ x = 1 \/ x = 2 \/ x = 3 \/ x = 4 \/ x = 5 \/ x = 6 \/ x = 7 \/ x = 8 \/ x = 9)
    as Hcases by lia.
  repeat (destruct Hcases as [->|Hcases]; [reflexivity|]). by subst.
Qed.

Lemma decimal_digit a : decimal a = true -> exists x, 0 <= x < 10 /\ a = digit_char x.
Proof.
  unfold decimal, in_range. intros [Hlo Hhi]%andb_true_iff.
  apply N.leb_le in Hlo, Hhi.
  change (N_of_ascii "0") with 48%N in Hlo. change (N_of_ascii "9") with 57%N in Hhi.
  exists (Z.of_N (N_of_ascii a) - 48). split; [lia|].
  unfold digit_char. replace (Z.to_N (48 + (Z.of_N (N_of_ascii a) - 48))) with (N_of_ascii a) by lia.
  by rewrite ascii_N_embedding.
Qed.

(** X15. [validate_policy_id] accepts exactly the identifiers [GG_IAC_0000]
    to [GG_IAC_9999]: the prefix in upper case followed by four decimal
    digits and nothing else. *)
Theorem validate_policy_id_accepts policy_id :
  validate_policy_id policy_id = true
  <-> exists n, 0 <= n < 10000 /\ policy_id = ("GG_IAC_" ++ pad4 n)%string.
Proof.
  unfold validate_policy_id, fullmatch, POLICY_ID_PATTERN.
  rewrite match_prefix_cat, match_prefix_literal. split.
  - destruct (strip_prefix "GG_IAC_" policy_id) as [rest|] eqn:Hprefix; [|done].
    apply strip_prefix_Some in Hprefix as ->.
    rewrite match_prefix_times.
    destruct (repeat_match 4 _ rest) as [[|]|] eqn:Hdigits; try done. intros _.
    apply repeat_match_class in Hdigits as (g & -> & Hlen & Hall).
    destruct g as [|a [|b [|c [|d [|]]]]]; try done.
    destruct (decimal_digit a) as (xa & Ha & ->); [apply Hall; simpl; by rewrite Ascii.eqb_refl|].
    destruct (decimal_digit b) as (xb & Hb & ->);
      [apply Hall; simpl; rewrite Ascii.eqb_refl, ?orb_true_r; done|].
    destruct (decimal_digit c) as (xc & Hc & ->);
      [apply Hall; simpl; rewrite Ascii.eqb_refl, ?orb_true_r; done|].
    destruct (decimal_digit d) as (xd & Hd & ->);
      [apply Hall; simpl; rewrite Ascii.eqb_refl, ?orb_true_r; done|].
    exists (1000 * xa + 100 * xb + 10 * xc + xd). split; [lia|].
    push_append. do 7 f_equal. unfold pad4.
    replace ((1000 * xa + 100 * xb + 10 * xc + xd) / 1000) with xa
      by (Z.div_mod_to_equations; lia).
    replace ((1000 * xa + 100 * xb + 10 * xc + xd) / 100 mod 10) with xb
      by (Z.div_mod_to_equations; lia).
    replace ((1000 * xa + 100 * xb + 10 * xc + xd) / 10 mod 10) with xc
      by (Z.div_mod_to_equations; lia).
    replace ((1000 * xa + 100 * xb + 10 * xc + xd) mod 10) with xd
      by (Z.div_mod_to_equations; lia).
    done.
  - intros (n & Hn & ->).
    rewrite (proj2 (strip_prefix_Some "GG_IAC_" _ (pad4 n)) eq_refl), match_prefix_times.
    rewrite (proj2 (repeat_match_class 4 decimal (pad4 n) "")); [done|].
    exists (pad4 n). split; [unfold pad4; by push_append|]. split; [done|].
    intros c. unfold pad4. simpl.
    assert (Hdigit : forall x, 0 <= x < 10 ->
              (digit_char x =? c)%char = true -> decimal c = true).
    { intros x Hx <-%Ascii.eqb_eq. by apply decimal_digit_char. }
    intros Hc. repeat apply orb_true_iff in Hc as [Hc|Hc]; try done.
    all: eapply Hdigit; [|exact Hc]; Z.div_mod_to_equations; lia.
Qed.

(** A group of a GHSA identifier: four letters or digits. *)
Local Abbreviation ghsa_group :=
  (fun g : string => String.length g = 4%nat
                     /\ forall c, contains c g = true -> alphanumeric c = true).

Lemma match_prefix_ghsa_group s r :
  match_prefix (Cat (Literal "-") (Times 4 (Class alphanumeric))) s = Some r
  <-> exists g, s = ("-" ++ g ++ r)%string /\ ghsa_group g.
Proof.
  rewrite match_prefix_cat, match_prefix_literal. split.
  - destruct (strip_prefix "-" s) as [rest|] eqn:Hdash; [|done].
    apply strip_prefix_Some in Hdash as ->. rewrite match_prefix_times.
    intros (g & -> & Hg)%repeat_match_class. by exists g.
  - intros (g & -> & Hg).
    rewrite (proj2 (strip_prefix_Some "-" _ (g ++ r)) eq_refl), match_prefix_times.
    apply repeat_match_class. by exists g.
Qed.

(** X16. [is_ghsa_valid] accepts exactly the identifiers made of [GHSA] in
    upper case and three groups of four letters or digits, each introduced
    by a hyphen, with nothing before or after; [validate_vuln_identifier]
    returns for these and raises [ValidationError] for every other string. *)
Theorem is_ghsa_valid_accepts ghsa_id :
  (is_ghsa_valid ghsa_id = true
   <-> exists g1 g2 g3,
         ghsa_id = ("GHSA-" ++ g1 ++ "-" ++ g2 ++ "-" ++ g3)%string
         /\ ghsa_group g1 /\ ghsa_group g2 /\ ghsa_group g3)
  /\ (validate_vuln_identifier ghsa_id = Ok tt <-> is_ghsa_valid ghsa_id = true)
  /\ (is_ghsa_valid ghsa_id = false ->
      exists msg, validate_vuln_identifier ghsa_id = Raise (ValidationError msg)).
Proof.
  split; [|split].
  - unfold is_ghsa_valid, fullmatch, GHSA_ID_PATTERN.
    rewrite match_prefix_cat, match_prefix_literal.
    assert (Hthree : forall r s,
              match_prefix (Times 3 r) s
              = match match_prefix r s with
                | Some r1 =>
                    match match_prefix r r1 with
                    | Some r2 => match_prefix r r2
                    | None => None
                    end
                | None => None
                end).
    { intros r s. rewrite match_prefix_times. cbn [repeat_match].
      destruct (match_prefix r s) as [r1|]; [|done].
      destruct (match_prefix r r1) as [r2|]; [|done].
      by destruct (match_prefix r r2). }
    split.
    + destruct (strip_prefix "GHSA" ghsa_id) as [r0|] eqn:Hprefix; [|done].
      apply strip_prefix_Some in Hprefix as ->. rewrite Hthree.
      destruct (match_prefix _ r0) as [r1|] eqn:H1; [|done].
      destruct (match_prefix _ r1) as [r2|] eqn:H2; [|done].
      destruct (match_prefix _ r2) as [[|]|] eqn:H3; try done. intros _.
      apply match_prefix_ghsa_group in H1 as (g1 & -> & Hg1).
      apply match_prefix_ghsa_group in H2 as (g2 & -> & Hg2).
      apply match_prefix_ghsa_group in H3 as (g3 & -> & Hg3).
      exists g1, g2, g3. rewrite append_nil_r. split; [|done]. by push_append.
    + intros (g1 & g2 & g3 & -> & Hg1 & Hg2 & Hg3).
      change ("GHSA-" ++ g1 ++ "-" ++ g2 ++ "-" ++ g3)%string
        with ("GHSA" ++ ("-" ++ g1 ++ "-" ++ g2 ++ "-" ++ g3))%string.
      rewrite (proj2 (strip_prefix_Some "GHSA" _ _) eq_refl).
      rewrite Hthree.
      rewrite (proj2 (match_prefix_ghsa_group _ ("-" ++ g2 ++ "-" ++ g3)));
        [|by exists g1].
      rewrite (proj2 (match_prefix_ghsa_group _ ("-" ++ g3))); [|by exists g2].
      rewrite (proj2 (match_prefix_ghsa_group _ "")); [done|].
      exists g3. by rewrite append_nil_r.
  - unfold validate_vuln_identifier. by destruct (is_ghsa_valid ghsa_id).
  - unfold validate_vuln_identifier. intros ->. eauto.
Qed.

Lemma is_ghsa_valid_accepts_witness :
  is_ghsa_valid "GHSA-2m57-hf25-phgg" = true
  /\ exists msg, validate_vuln_identifier "ghsa-2m57-hf25-phgg" = Raise (ValidationError msg).
Proof.
  split.
  - apply (proj1 (is_ghsa_valid_accepts "GHSA-2m57-hf25-phgg")).
    exists "2m57"%string, "hf25"%string, "phgg"%string.
    split; [reflexivity|].
    repeat split; try reflexivity; intros c Hc; cbn [contains] in Hc;
      repeat apply orb_true_iff in Hc as [Hc|Hc]; try done;
      apply Ascii.eqb_eq in Hc as <-; reflexivity.
  - apply (proj2 (proj2 (is_ghsa_valid_accepts "ghsa-2m57-hf25-phgg"))). reflexivity.
Defined.

Lemma validate_policy_id_accepts_witness : validate_policy_id "GG_IAC_0042" = true.
Proof.
  apply (proj2 (validate_policy_id_accepts "GG_IAC_0042")).
  exists 42. split; [lia | reflexivity].
Defined.

(** ** Expired elements at load time *)

Section hooks_facts.
Variable str_datetime : datetime -> string.

(** X17. On the fields of an [iac] section as loaded (each [until] absent
    or aware), [validate_ignored_paths] returns: it leaves the paths that
    are not expired under [ignored_paths], in their order, stores the
    expired ones under [outdated_ignored_paths], displays one warning for
    each expired path, in their order, and touches no other field and no
    deprecation message; [validate_ignored_policies] does the same for the
    policies. *)
Theorem validate_ignored_paths_outdated now (data : IaCConfig) j :
  (Forall (fun x => until_aware x = true) (iac_ignored_paths data) ->
   exists data',
     validate_ignored_paths str_datetime now data j
     = (Ok data',
        {| deprecations := deprecations j;
           warnings := warnings j
                       ++ (expired_warning str_datetime <$> outdated_ignored_paths data') |})
     /\ iac_ignored_paths data'
        = filter (fun x => is_expired now x = false) (iac_ignored_paths data)
     /\ outdated_ignored_paths data'
        = filter (fun x => is_expired now x = true) (iac_ignored_paths data)
     /\ iac_ignored_policies data' = iac_ignored_policies data
     /\ outdated_ignored_policies data' = outdated_ignored_policies data
     /\ iac_minimum_severity data' = iac_minimum_severity data)
  /\ (Forall (fun x => until_aware x = true) (iac_ignored_policies data) ->
      exists data',
        validate_ignored_policies str_datetime now data j
        = (Ok data',
           {| deprecations := deprecations j;
              warnings := warnings j
                          ++ (expired_warning str_datetime
                                <$> outdated_ignored_policies data') |})
        /\ iac_ignored_policies data'
           = filter (fun x => is_expired now x = false) (iac_ignored_policies data)
        /\ outdated_ignored_policies data'
           = filter (fun x => is_expired now x = true) (iac_ignored_policies data)
        /\ iac_ignored_paths data' = iac_ignored_paths data
        /\ outdated_ignored_paths data' = outdated_ignored_paths data
        /\ iac_minimum_severity data' = iac_minimum_severity data).
Proof.
  split; intros Haware.
  - exists {| iac_ignored_paths :=
                filter (fun x => is_expired now x = false) (iac_ignored_paths data);
              iac_ignored_policies := iac_ignored_policies data;
              iac_minimum_severity := iac_minimum_severity data;
              outdated_ignored_paths :=
                filter (fun x => is_expired now x = true) (iac_ignored_paths data);
              outdated_ignored_policies := outdated_ignored_policies data |}.
    unfold validate_ignored_paths, bindM, lift, report_expired_elements, warn, ret.
    rewrite (remove_expired_elements_filter now _ Haware). repeat split.
  - exists {| iac_ignored_paths := iac_ignored_paths data;
              iac_ignored_policies :=
                filter (fun x => is_expired now x = false) (iac_ignored_policies data);
              iac_minimum_severity := iac_minimum_severity data;
              outdated_ignored_paths := outdated_ignored_paths data;
              outdated_ignored_policies :=
                filter (fun x => is_expired now x = true) (iac_ignored_policies data) |}.
    unfold validate_ignored_policies, bindM, lift, report_expired_elements, warn, ret.
    rewrite (remove_expired_elements_filter now _ Haware). repeat split.
Qed.

(** X18. On the fields of an [sca] section as loaded,
    [validate_ignored_vulns] returns: it leaves the vulnerabilities that
    are not expired under [ignored_vulnerabilities] and displays one
    warning for each expired one; the expired ones are kept nowhere in the
    section, and no other field changes. *)
Theorem validate_ignored_vulns_drops now (data : SCAConfig) j :
  Forall (fun x => until_aware x = true) (ignored_vulnerabilities data) ->
  exists data',
    validate_ignored_vulns str_datetime now data j
    = (Ok data',
       {| deprecations := deprecations j;
          warnings := warnings j
                      ++ (expired_warning str_datetime
                            <$> filter (fun x => is_expired now x = true)
                                  (ignored_vulnerabilities data)) |})
    /\ ignored_vulnerabilities data'
       = filter (fun x => is_expired now x = false) (ignored_vulnerabilities data)
    /\ (forall x, x ∈ ignored_vulnerabilities data' -> is_expired now x = false)
    /\ sca_ignored_paths data' = sca_ignored_paths data
    /\ sca_minimum_severity data' = sca_minimum_severity data
    /\ ignore_not_fixable data' = ignore_not_fixable data
    /\ ignore_fixable data' = ignore_fixable data.
Proof.
  intros Haware.
  exists {| sca_ignored_paths := sca_ignored_paths data;
            sca_minimum_severity := sca_minimum_severity data;
            ignored_vulnerabilities :=
              filter (fun x => is_expired now x = false) (ignored_vulnerabilities data);
            ignore_not_fixable := ignore_not_fixable data;
            ignore_fixable := ignore_fixable data |}.
  unfold validate_ignored_vulns, bindM, lift, report_expired_elements, warn, ret.
  rewrite (remove_expired_elements_filter now _ Haware).
  split; [reflexivity|]. split; [reflexivity|]. split; [|repeat split].
  by intros x [Hx _]%list_elem_of_filter.
Qed.
End hooks_facts.

Lemma validate_ignored_paths_outdated_witness :
  let p1 := {| iac_path := "a"; iac_path_comment := None;
               iac_path_until := Some (Aware 100 0) |} in
  let p2 := {| iac_path := "b"; iac_path_comment := None; iac_path_until := None |} in
  let data := {| iac_ignored_paths := [p1; p2]; iac_ignored_policies := [];
                 iac_minimum_severity := "LOW";
                 outdated_ignored_paths := []; outdated_ignored_policies := [] |} in
  exists data',
    validate_ignored_paths (fun _ => "1970-01-01 00:01:40+00:00") 200 data
      {| deprecations := []; warnings := [] |}
    = (Ok data',
       {| deprecations := [];
          warnings := ["Path a has an expired 'until' date (1970-01-01 00:01:40+00:00), please update your configuration file."] |})
    /\ iac_ignored_paths data' = [p2].
Proof.
  intros p1 p2 data.
  destruct (proj1 (validate_ignored_paths_outdated (fun _ => "1970-01-01 00:01:40+00:00")
                     200 data {| deprecations := []; warnings := [] |}))
    as (data' & Hrun & Hkept & Hout & _).
  - repeat constructor.
  - exists data'. split; [|exact Hkept]. rewrite Hrun, Hout. reflexivity.
Defined.

Lemma validate_ignored_vulns_drops_witness :
  let v1 := {| vuln_identifier := "GHSA-2m57-hf25-phgg"; vuln_path := "Pipfile.lock";
               vuln_comment := None; vuln_until := Some (Aware 100 0) |} in
  let data := {| sca_ignored_paths := ∅; sca_minimum_severity := "LOW";
                 ignored_vulnerabilities := [v1];
                 ignore_not_fixable := false; ignore_fixable := false |} in
  exists data' j',
    validate_ignored_vulns (fun _ => "then") 200 data {| deprecations := []; warnings := [] |}
    = (Ok data', j')
    /\ ignored_vulnerabilities data' = [].
Proof.
  intros v1 data.
  destruct (validate_ignored_vulns_drops (fun _ => "then") 200 data
              {| deprecations := []; warnings := [] |})
    as (data' & Hrun & Hkept & _).
  - repeat constructor.
  - exists data'. eexists. split; [exact Hrun | exact Hkept].
Defined.

(** ** Locating the files *)

Section config_paths_facts.
Variable USER_CONFIG_FILENAMES : list string.
Variable DEFAULT_CONFIG_FILENAME : string.
Variable path_exists : string -> bool.
Variable joinpath : string -> string -> string.

Local Abbreviation first_existing' := (first_existing path_exists joinpath).
Local Abbreviation absent_in :=
  (fun directory filename => path_exists (joinpath directory filename) = false).

Lemma first_existing_first directory filenames :
  match first_existing' directory filenames with
  | Some path =>
      exists before filename after,
        filenames = before ++ filename :: after
        /\ path = joinpath directory filename
        /\ path_exists path = true
        /\ Forall (absent_in directory) before
  | None => Forall (absent_in directory) filenames
  end.
Proof.
  induction filenames as [|filename rest IH]; [by constructor|].
  cbn [first_existing]. destruct (path_exists (joinpath directory filename)) eqn:Hhere.
  - exists [], filename, rest. done.
  - destruct (first_existing' directory rest) as [path|].
    + destruct IH as (before & found & after & -> & -> & Hfound & Hbefore).
      exists (filename :: before), found, after. repeat split; [done|].
      by constructor.
    + by constructor.
Qed.

(** X19. The search for the global file answers with the first name of
    [USER_CONFIG_FILENAMES] that exists in the home directory: every name
    before it is absent and the file it names exists. Asked for a path to
    write to, it never answers [None]: it gives the same file when one
    exists and the default name in the home directory when none does. The
    search for the local file answers in the same way in the project root,
    or in the working directory when no project root can be looked for. *)
Theorem find_global_config_path_first home :
  (exists path,
     find_global_config_path USER_CONFIG_FILENAMES DEFAULT_CONFIG_FILENAME
       path_exists joinpath home true = Some path)
  /\ (forall path,
        find_global_config_path USER_CONFIG_FILENAMES DEFAULT_CONFIG_FILENAME
          path_exists joinpath home false = Some path ->
        path_exists path = true
        /\ find_global_config_path USER_CONFIG_FILENAMES DEFAULT_CONFIG_FILENAME
             path_exists joinpath home true = Some path
        /\ exists before filename after,
             USER_CONFIG_FILENAMES = before ++ filename :: after
             /\ path = joinpath home filename
             /\ Forall (absent_in home) before)
  /\ (find_global_config_path USER_CONFIG_FILENAMES DEFAULT_CONFIG_FILENAME
        path_exists joinpath home false = None ->
      Forall (absent_in home) USER_CONFIG_FILENAMES
      /\ find_global_config_path USER_CONFIG_FILENAMES DEFAULT_CONFIG_FILENAME
           path_exists joinpath home true
         = Some (joinpath home DEFAULT_CONFIG_FILENAME))
  /\ (forall root,
        let directory := match root with Some dir => dir | None => "."%string end in
        match find_local_config_path USER_CONFIG_FILENAMES path_exists joinpath root with
        | Some path =>
            exists before filename after,
              USER_CONFIG_FILENAMES = before ++ filename :: after
              /\ path = joinpath directory filename
              /\ path_exists path = true
              /\ Forall (absent_in directory) before
        | None => Forall (absent_in directory) USER_CONFIG_FILENAMES
        end).
Proof.
  unfold find_global_config_path, find_local_config_path.
  pose proof (first_existing_first home USER_CONFIG_FILENAMES) as Hfirst.
  destruct (first_existing' home USER_CONFIG_FILENAMES) as [found|].
  - destruct Hfirst as (before & filename & after & Hsplit & -> & Hfound & Hbefore).
    split; [eauto|]. split; [|split; [done|]].
    + intros path [= <-]. split; [done|]. split; [done|].
      by exists before, filename, after.
    + intros root. apply first_existing_first.
  - split; [eauto|]. split; [done|]. split; [done|].
    intros root. apply first_existing_first.
Qed.
End config_paths_facts.

Lemma find_global_config_path_first_witness :
  let path_exists := String.eqb "/home/u/.gitguardian.yml" in
  let joinpath := fun directory filename => (directory ++ "/" ++ filename)%string in
  find_global_config_path [".gitguardian"; ".gitguardian.yml"; ".gitguardian.yaml"]
    ".gitguardian.yaml" path_exists joinpath "/home/u" true
  = Some "/home/u/.gitguardian.yml".
Proof.
  intros path_exists joinpath.
  apply (find_global_config_path_first
           [".gitguardian"; ".gitguardian.yml"; ".gitguardian.yaml"]
           ".gitguardian.yaml" path_exists joinpath "/home/u").
  reflexivity.
Defined.

(** ** An [until] without a zone *)

Section expiry_naive.
Context {A : Type} `{ConfigIgnoredElement A}.

(** The loop once the elements of [todo], behind [prefix], have been
    visited. *)
Lemma sweep_prefix now (prefix todo kept expired : list A) :
  Forall (fun x => until_aware x = true) todo ->
  sweep now (length prefix + length todo) (prefix ++ todo ++ kept) expired
  = sweep now (length prefix)
      (prefix ++ filter (fun x => is_expired now x = false) todo ++ kept)
      (filter (fun x => is_expired now x = true) todo ++ expired).
Proof.
  revert kept expired.
  induction todo as [|x todo IH] using rev_ind; intros kept expired Haware.
  { simpl. by rewrite Nat.add_0_r. }
  apply Forall_app in Haware as [Htodo Hx]. rewrite Forall_singleton in Hx.
  replace (length prefix + length (todo ++ [x]))%nat with (S (length (prefix ++ todo)))
    by (rewrite !length_app; simpl; lia).
  replace (prefix ++ (todo ++ [x]) ++ kept) with ((prefix ++ todo) ++ x :: kept)
    by (by rewrite <- !app_assoc).
  cbn [sweep]. rewrite list_lookup_middle by done.
  rewrite (until_passed_aware now x Hx). cbn [bind].
  rewrite !filter_app.
  destruct (is_expired now x) eqn:Hexp.
  - rewrite delete_middle, length_app, <- app_assoc, IH by done.
    rewrite (filter_cons_False (fun x => is_expired now x = false)) by congruence.
    rewrite (filter_cons_True (fun x => is_expired now x = true)) by done.
    rewrite !filter_nil, app_nil_r, <- app_assoc. done.
  - rewrite length_app, <- app_assoc, IH by done.
    rewrite (filter_cons_True (fun x => is_expired now x = false)) by done.
    rewrite (filter_cons_False (fun x => is_expired now x = true)) by congruence.
    rewrite !filter_nil, app_nil_r, <- app_assoc. done.
Qed.

(** X20. [remove_expired_elements] cannot sweep a list that holds an
    element whose [until] has no time zone: the comparison with the
    zone-aware reading of the clock raises [TypeError] (the elements behind
    it, all with a zone or no [until], having been visited). *)
Theorem remove_expired_elements_naive now (before after : list A) x wall :
  until x = Some (Naive wall) ->
  Forall (fun y => until_aware y = true) after ->
  remove_expired_elements now (before ++ x :: after) = Raise TypeError.
Proof.
  intros Hx Hafter. unfold remove_expired_elements.
  replace (length (before ++ x :: after)) with (length (before ++ [x]) + length after)%nat
    by (rewrite !length_app; simpl; lia).
  replace (before ++ x :: after) with ((before ++ [x]) ++ after ++ [])
    by (by rewrite app_nil_r, <- app_assoc).
  rewrite sweep_prefix by done.
  rewrite length_app, Nat.add_comm. cbn [length Nat.add sweep].
  rewrite <- app_assoc. cbn [app]. rewrite list_lookup_middle by done.
  unfold until_passed. by rewrite Hx.
Qed.
End expiry_naive.

Lemma remove_expired_elements_naive_witness :
  remove_expired_elements 200
    [{| iac_path := "a"; iac_path_comment := None;
        iac_path_until := Some (Naive (Civil 2024 1 1 0 0 0)) |};
     {| iac_path := "b"; iac_path_comment := None;
        iac_path_until := Some (Aware 100 0) |}]
  = Raise TypeError.
Proof.
  apply (remove_expired_elements_naive 200 []
           [{| iac_path := "b"; iac_path_comment := None;
               iac_path_until := Some (Aware 100 0) |}]
           {| iac_path := "a"; iac_path_comment := None;
              iac_path_until := Some (Naive (Civil 2024 1 1 0 0 0)) |}
           (Civil 2024 1 1 0 0 0)).
  - reflexivity.
  - repeat constructor.
Defined.

(** ** Documents that are not a mapping with keys *)

Section loading_documents.
Variable api_to_dashboard_url : value -> bool -> result value * list string.

(** X21. A file whose document is empty or any value that counts as false
    (null, [false], [0], an empty string, list or mapping) loads as the empty
    version-2 mapping, with no message; a document that counts as true and
    is not a mapping ends in a [ParseError] that names the file, and so does
    a file on which the YAML parser raises a [ParserError] or a
    [ScannerError]. Any other exception of opening or parsing the file (a
    YAML error of another kind, an [OSError]) leaves the loader as it is,
    except a [ValueError], which leaves as a [ParseError] of the same text.
    In each case the journal is left as it was. *)
Theorem load_config_dict_document config_path j :
  (forall v, truthy v = false ->
     load_config_dict api_to_dashboard_url config_path (Document v) j = (Ok (VDict []), j))
  /\ (forall v, truthy v = true -> (forall d, v <> VDict d) ->
        load_config_dict api_to_dashboard_url config_path (Document v) j
        = (Raise (ParseError (config_path ++ " should be a dictionary.")), j))
  /\ (forall error,
        load_config_dict api_to_dashboard_url config_path (Malformed error) j
        = (Raise (ParseError (config_path ++ " is not a valid YAML file:"
                              ++ newline ++ error)), j))
  /\ (forall e, (forall msg, e <> ValueError msg) ->
        load_config_dict api_to_dashboard_url config_path (Unloadable e) j = (Raise e, j))
  /\ (forall msg,
        load_config_dict api_to_dashboard_url config_path (Unloadable (ValueError msg)) j
        = (Raise (ParseError msg), j)).
Proof.
  split; [|split; [|split; [|split]]].
  - intros v Hv. unfold load_config_dict, load_yaml_dict. by rewrite Hv.
  - intros v Hv Hkind. unfold load_config_dict, load_yaml_dict. rewrite Hv.
    destruct v; try done. by destruct (Hkind d).
  - done.
  - intros e He. destruct e; try done. by destruct (He msg).
  - done.
Qed.

(** X22. The [version] of a file is compared with [==]: a value equal to 1
    that is not the integer ([true], as a YAML file can spell it) selects
    the version-1 path, deprecation message and migration of the mapping
    without its [version] entry; a value equal to neither 2 nor 1 (a quoted
    ["2"], null, [false]) ends in the [UnexpectedError] that reports it. *)
Theorem load_config_dict_version_value config_path (d : dict) v j :
  dict_get "version" d = Some v -> py_eq v (VInt 2) = false ->
  (py_eq v (VInt 1) = true ->
   exists d',
     replace_in_keys "_" "-" (VDict d) = VDict d'
     /\ load_config_dict api_to_dashboard_url config_path (Document (VDict d)) j
        = (run _ := deprecate (deprecated_format config_path)
           in load_v1_dict api_to_dashboard_url (dict_remove "version" d')) j)
  /\ (py_eq v (VInt 1) = false ->
      load_config_dict api_to_dashboard_url config_path (Document (VDict d)) j
      = (Raise (UnexpectedError [Lit "Don't know how to load config version ";
                                 Fmt (replace_in_keys "_" "-" v)]), j)).
Proof.
  intros Hget H2.
  destruct (replace_in_keys_version d) as (d' & Hd' & Hv). rewrite Hget in Hv.
  cbn [fmap option_fmap option_map] in Hv.
  assert (Heq : forall n, py_eq (replace_in_keys "_" "-" v) (VInt n) = py_eq v (VInt n))
    by (intros n; by destruct v).
  assert (Hrun : load_config_dict api_to_dashboard_url config_path (Document (VDict d)) j
                 = (if py_eq v (VInt 1)
                    then run _ := deprecate (deprecated_format config_path)
                         in load_v1_dict api_to_dashboard_url (dict_remove "version" d')
                    else lift (Raise (UnexpectedError
                                        [Lit "Don't know how to load config version ";
                                         Fmt (replace_in_keys "_" "-" v)]))) j).
  { unfold load_config_dict, load_yaml_dict.
    assert (Htruthy : truthy (VDict d) = true) by (by destruct d).
    rewrite Htruthy. unfold bindM at 1. unfold lift at 1. rewrite Htruthy, Hd'.
    unfold bindM at 1. unfold lift at 1. cbn [as_dict].
    rewrite (dict_pop_get _ _ _ Hv). by rewrite !Heq, H2. }
  split; intros H1; rewrite Hrun, H1; [by exists d' | done].
Qed.
End loading_documents.

Lemma load_config_dict_document_witness :
  let j := {| deprecations := []; warnings := [] |} in
  load_config_dict sample_api_to_dashboard_url ".gitguardian.yaml" (Document (VList [])) j
  = (Ok (VDict []), j)
  /\ load_config_dict sample_api_to_dashboard_url ".gitguardian.yaml"
       (Document (VStr "verbose")) j
     = (Raise (ParseError ".gitguardian.yaml should be a dictionary."), j)
  /\ load_config_dict sample_api_to_dashboard_url ".gitguardian.yaml"
       (Unloadable (YAMLError "found undefined alias")) j
     = (Raise (YAMLError "found undefined alias"), j).
Proof.
  intros j. split; [|split].
  - by apply (load_config_dict_document sample_api_to_dashboard_url ".gitguardian.yaml" j).
  - by apply (load_config_dict_document sample_api_to_dashboard_url ".gitguardian.yaml" j).
  - by apply (load_config_dict_document sample_api_to_dashboard_url ".gitguardian.yaml" j).
Defined.

Lemma load_config_dict_version_value_witness :
  let j := {| deprecations := []; warnings := [] |} in
  deprecations (snd (load_config_dict sample_api_to_dashboard_url ".gitguardian.yaml"
                       (Document (VDict [("version", VBool true)])) j))
  = [deprecated_format ".gitguardian.yaml"]
  /\ load_config_dict sample_api_to_dashboard_url ".gitguardian.yaml"
       (Document (VDict [("version", VStr "2")])) j
     = (Raise (UnexpectedError [Lit "Don't know how to load config version ";
                                Fmt (VStr "2")]), j).
Proof.
  intros j. split.
  - destruct (proj1 (load_config_dict_version_value sample_api_to_dashboard_url
                       ".gitguardian.yaml" [("version", VBool true)] (VBool true) j
                       eq_refl eq_refl) eq_refl) as (d' & Hd' & Hrun).
    rewrite Hrun. injection Hd' as <-. reflexivity.
  - exact (proj2 (load_config_dict_version_value sample_api_to_dashboard_url
                    ".gitguardian.yaml" [("version", VStr "2")] (VStr "2") j
                    eq_refl eq_refl) eq_refl).
Defined.

(** ** The hooks run before the schema *)

(** X23. The two hooks that run before the schema reads an ignored path,
    [convert_paths] and [parse_date], give the same element in either
    order, and so do [convert_policies] and [parse_date]; a path or a
    policy written as a bare string loads with no [until]. *)
Theorem pre_load_hooks_commute in_data :
  parse_date (convert_paths in_data) = convert_paths (parse_date in_data)
  /\ parse_date (convert_policies in_data) = convert_policies (parse_date in_data)
  /\ forall from_iso_datetime local s,
       in_data = VStr s ->
       load_until from_iso_datetime local (convert_paths in_data) = Ok None
       /\ load_until from_iso_datetime local (convert_policies in_data) = Ok None.
Proof.
  assert (Hdict : forall d, exists d', parse_date (VDict d) = VDict d').
  { intros d. unfold parse_date.
    destruct (dict_get "until" d) as [[| | |s| | |]|]; eauto.
    destruct (strptime_date s); eauto. }
  split; [|split].
  - destruct in_data as [| | | | | |d]; try done.
    destruct (Hdict d) as (d' & Hd'). by rewrite Hd'.
  - destruct in_data as [| | | | | |d]; try done.
    destruct (Hdict d) as (d' & Hd'). by rewrite Hd'.
  - by intros from_iso_datetime local s ->.
Qed.

Lemma pre_load_hooks_commute_witness :
  load_until sample_from_iso_datetime (fun _ => 3600) (convert_paths (VStr "tests/fixtures")) = Ok None.
Proof.
  by apply (proj2 (proj2 (pre_load_hooks_commute (VStr "tests/fixtures")))
             sample_from_iso_datetime (fun _ => 3600) "tests/fixtures").
Defined.

(** ** Settings at their default *)

Section renamed_lookup.
Variables old new : ascii.
Variable f : value -> value.

Local Abbreviation stays := (fun kv : string * value => contains old kv.1 = false).
Local Abbreviation moves := (fun kv : string * value => contains old kv.1 = true).
Local Abbreviation moved := (fun kv : string * value => (replace old new kv.1, kv.2)).

Lemma dict_get_stays (d : dict) k :
  contains new k = false -> Forall (fun k => contains new k = false) (keys d) ->
  dict_get (replace old new k) (on_values f <$> filter stays d)
  = if contains old k then None else f <$> dict_get k d.
Proof.
  intros Hk. induction d as [|[k0 v0] d IH]; intros Hd.
  { by destruct (contains old k). }
  unfold keys in Hd. rewrite fmap_cons in Hd. apply Forall_cons in Hd as [Hk0 Hd].
  cbn [fst] in Hk0. specialize (IH Hd). rewrite filter_cons.
  destruct (decide (stays (k0, v0))) as [Hs|Hs]; cbn [fst] in Hs.
  - rewrite fmap_cons. cbn [on_values fst snd dict_get].
    destruct (contains old k) eqn:Hold.
    + destruct (String.eqb_spec k0 (replace old new k)) as [->|_]; [|exact IH].
      rewrite (contains_replace_new old new k Hold) in Hk0. done.
    + rewrite (replace_absent old new k Hold) in IH |- *.
      destruct (String.eqb k0 k); [done | exact IH].
  - rewrite IH. destruct (contains old k) eqn:Hold; [done|].
    cbn [dict_get]. destruct (String.eqb_spec k0 k) as [->|_]; [congruence | done].
Qed.

Lemma dict_get_moved (d : dict) k :
  contains new k = false -> Forall (fun k => contains new k = false) (keys d) ->
  dict_get (replace old new k) (moved <$> (on_values f <$> filter moves d))
  = if contains old k then f <$> dict_get k d else None.
Proof.
  intros Hk. induction d as [|[k0 v0] d IH]; intros Hd.
  { by destruct (contains old k). }
  unfold keys in Hd. rewrite fmap_cons in Hd. apply Forall_cons in Hd as [Hk0 Hd].
  cbn [fst] in Hk0. specialize (IH Hd). rewrite filter_cons.
  destruct (decide (moves (k0, v0))) as [Hm|Hm]; cbn [fst] in Hm.
  - rewrite !fmap_cons. cbn [on_values fst snd dict_get].
    destruct (contains old k) eqn:Hold.
    + destruct (String.eqb_spec (replace old new k0) (replace old new k)) as [Heq|Hne].
      * apply replace_injective in Heq as ->; [|done..]. by rewrite String.eqb_refl.
      * destruct (String.eqb_spec k0 k) as [->|_]; [done | exact IH].
    + destruct (String.eqb_spec (replace old new k0) (replace old new k)) as [Heq|_];
        [|exact IH].
      apply replace_injective in Heq as ->; [|done..]. congruence.
  - rewrite IH. destruct (contains old k) eqn:Hold; [|done].
    cbn [dict_get]. destruct (String.eqb_spec k0 k) as [->|_]; [congruence | done].
Qed.
End renamed_lookup.

(** In a mapping whose keys are distinct and free of [new], the rewrite
    leaves, under the rewritten key, the rewritten value. *)
Lemma replace_in_keys_renamed_key old new (d : dict) k :
  old <> new -> NoDup (keys d) ->
  Forall (fun k => contains new k = false) (keys d) -> contains new k = false ->
  exists d',
    replace_in_keys old new (VDict d) = VDict d'
    /\ dict_get (replace old new k) d' = replace_in_keys old new <$> dict_get k d.
Proof.
  intros Hne Hnd Hav Hk.
  exists (rename_keys old new (keys d) (on_values (replace_in_keys old new) <$> d)).
  split; [reflexivity|].
  rewrite <- (keys_on_values (replace_in_keys old new) d) at 1.
  rewrite rename_keys_partition;
    [| done | by rewrite keys_on_values | by rewrite keys_on_values].
  rewrite !filter_on_values by done.
  rewrite dict_get_app, dict_get_stays, dict_get_moved by done.
  destruct (contains old k); [done|]. by destruct (dict_get k d).
Qed.

(** X24. [to_config_dict] writes a root option only when it differs from
    its default: [instance] when one is set, the four switches when they
    are on, [max-commits-for-hook] when it is not 50; each under its
    hyphenated key and with the value of the configuration. *)
Theorem to_config_dict_minimal isoformat (self : UserConfig) :
  exists d,
    to_config_dict isoformat self = Ok (VDict d)
    /\ dict_get "instance" d = VStr <$> instance self
    /\ dict_get "exit-zero" d = (if exit_zero self then Some (VBool true) else None)
    /\ dict_get "verbose" d = (if verbose self then Some (VBool true) else None)
    /\ dict_get "allow-self-signed" d
       = (if allow_self_signed self then Some (VBool true) else None)
    /\ dict_get "max-commits-for-hook" d
       = (if max_commits_for_hook self =? 50 then None
          else Some (VInt (max_commits_for_hook self)))
    /\ dict_get "debug" d = (if debug self then Some (VBool true) else None).
Proof.
  pose proof (to_dict_keys_covered isoformat self) as Hcov.
  pose proof (wf_to_dict isoformat self) as Hwf.
  assert (Hitems : exists items,
            to_dict isoformat self = VDict items
            /\ keys items = ["iac"; "instance"; "exit_zero"; "verbose"; "allow_self_signed";
                             "max_commits_for_hook"; "sca"; "secret"; "debug"]
            /\ dict_get "instance" items = Some (dump_str (instance self))
            /\ dict_get "exit_zero" items = Some (VBool (exit_zero self))
            /\ dict_get "verbose" items = Some (VBool (verbose self))
            /\ dict_get "allow_self_signed" items = Some (VBool (allow_self_signed self))
            /\ dict_get "max_commits_for_hook" items
               = Some (VInt (max_commits_for_hook self))
            /\ dict_get "debug" items = Some (VBool (debug self))).
  { eexists. split; [reflexivity|]. repeat split. }
  destruct Hitems as (items & Hitems & Hkeys & Hinstance & Hexit & Hverbose & Hallow
                      & Hmax & Hdebug).
  rewrite Hitems in Hcov, Hwf.
  apply wf_dict in Hwf as [Hnd _].
  destruct (diff_items_entries (to_dict isoformat default_config) items Hnd Hcov [])
    as (r & Hrun & Hspec); [done|].
  assert (Hnd_r : NoDup (keys r)).
  { assert (Hwf_r : wf (VDict r) = true).
    { apply (wf_remove_common_dict_items (VDict items) (to_dict isoformat default_config)
               (VDict r)); [|exact Hrun].
      apply wf_dict.
      split; [done|]. pose proof (wf_to_dict isoformat self) as Hwf.
      rewrite Hitems in Hwf. by apply wf_dict in Hwf as [_ ?]. }
    by apply wf_dict in Hwf_r as [? _]. }
  set (stamped := dict_set "version" (VInt CURRENT_CONFIG_VERSION) r).
  assert (Hplain : Forall (fun k => contains "-" k = false) (keys stamped)).
  { apply Forall_forall. intros k [->|Hk]%keys_dict_set_elem; [done|].
    assert (Hin : k ∈ keys items).
    { destruct (dict_get k items) as [v|] eqn:Hget.
      - apply dict_get_Some_elem in Hget. by apply (list_elem_of_fmap_2 fst) in Hget.
      - specialize (Hspec k). rewrite Hget in Hspec. cbn [dict_get] in Hspec.
        by apply dict_get_None in Hspec. }
    rewrite Hkeys in Hin.
    repeat (apply elem_of_cons in Hin as [->|Hin]; [done|]). by apply elem_of_nil in Hin. }
  assert (Hlookup : forall k,
            contains "-" k = false -> k <> "version" ->
            exists d', replace_in_keys "_" "-" (VDict stamped) = VDict d'
                       /\ dict_get (replace "_" "-" k) d'
                          = replace_in_keys "_" "-" <$> dict_get k r).
  { intros k Hk Hversion.
    destruct (replace_in_keys_renamed_key "_" "-" stamped k) as (d' & Hd' & Hget);
      [done | by apply NoDup_keys_dict_set | done | done |].
    exists d'. split; [done|]. rewrite Hget. unfold stamped. rewrite dict_get_set.
    destruct (String.eqb_spec "version" k); [congruence | done]. }
  destruct (Hlookup "instance" eq_refl ltac:(done)) as (d & Hd & Hd_instance).
  exists d. split.
  { unfold to_config_dict. rewrite Hitems. cbn [remove_common_dict_items].
    rewrite Hrun. cbn [bind]. fold stamped. by rewrite Hd. }
  assert (Hbool : forall k b,
            contains "-" k = false -> k <> "version" ->
            dict_get k items = Some (VBool b) ->
            subscript (to_dict isoformat default_config) k = Ok (VBool false) ->
            dict_get (replace "_" "-" k) d = if b then Some (VBool true) else None).
  { intros k b Hk Hversion Hget Hdefault.
    destruct (Hlookup k Hk Hversion) as (d' & Hd' & Hget').
    rewrite Hd in Hd'. injection Hd' as <-. rewrite Hget'.
    specialize (Hspec k). rewrite Hget in Hspec.
    destruct Hspec as (rv & Hrv & ->). rewrite Hdefault in Hrv. injection Hrv as <-.
    by destruct b. }
  split.
  { change (replace "_" "-" "instance") with "instance" in Hd_instance.
    rewrite Hd_instance. specialize (Hspec "instance"). rewrite Hinstance in Hspec.
    destruct Hspec as (rv & Hrv & Hkept). injection Hrv as <-.
    destruct (instance self); cbn in Hkept; by rewrite Hkept. }
  split; [by apply (Hbool "exit_zero")|].
  split; [by apply (Hbool "verbose")|].
  split; [by apply (Hbool "allow_self_signed")|].
  split; [|by apply (Hbool "debug")].
  destruct (Hlookup "max_commits_for_hook" eq_refl ltac:(done)) as (d' & Hd' & Hget).
  rewrite Hd in Hd'. injection Hd' as <-.
  change (replace "_" "-" "max_commits_for_hook") with "max-commits-for-hook" in Hget.
  rewrite Hget. specialize (Hspec "max_commits_for_hook"). rewrite Hmax in Hspec.
  destruct Hspec as (rv & Hrv & ->). injection Hrv as <-.
  cbn [py_eq]. by destruct (max_commits_for_hook self =? 50).
Qed.
